From Stdlib Require Import ZArith List Bool Lia.
From Stdlib Require Strings.String Strings.Ascii.
From Stdlib Require Import Floats.SpecFloat.
From stdpp Require Import base list gmap.
Import ListNotations.
Import String.StringSyntax Ascii.AsciiSyntax.
Local Open Scope string_scope.
Local Open Scope list_scope.

(** * JavaScript values as the sources use them *)

(** ** Numbers: IEEE 754 binary64, through the Standard Library's [spec_float] *)

Definition number : Type := spec_float.
Definition prec : Z := 53.
Definition emax : Z := 1024.

Definition NaN : number := S754_nan.
Definition Infinity : number := S754_infinity false.
Definition negInfinity : number := S754_infinity true.
Definition fzero : number := S754_zero false.

Definition fadd : number -> number -> number := SFadd prec emax.
Definition fsub : number -> number -> number := SFsub prec emax.
Definition fmul : number -> number -> number := SFmul prec emax.
Definition fdiv : number -> number -> number := SFdiv prec emax.
Definition fneg : number -> number := SFopp.
(** [a < b], [a <= b], [a === b] on numbers; [a > b] is [flt b a]. *)
Definition flt : number -> number -> bool := SFltb.
Definition fle : number -> number -> bool := SFleb.
Definition feq : number -> number -> bool := SFeqb.
Definition fgt (a b : number) : bool := flt b a.

(** The number of an integer (exact below 2^53, rounded to nearest even above). *)
Definition of_Z (z : Z) : number := binary_normalize prec emax z 0 false.
Definition of_nat (n : nat) : number := of_Z (Z.of_nat n).

Definition isNaN (x : number) : bool :=
  match x with S754_nan => true | _ => false end.

(** ToBoolean on a number: NaN, +0 and -0 are falsy. *)
Definition truthy (x : number) : bool :=
  match x with S754_nan | S754_zero _ => false | _ => true end.

(** [x || y] on numbers. *)
Definition f_or (x y : number) : number := if truthy x then x else y.

Definition Math_max (x y : number) : number :=
  match x, y with
  | S754_nan, _ | _, S754_nan => NaN
  | _, _ =>
    if flt x y then y else if flt y x then x
    else match x with S754_zero true => y | _ => x end
  end.

Definition Math_min (x y : number) : number :=
  match x, y with
  | S754_nan, _ | _, S754_nan => NaN
  | _, _ =>
    if flt x y then x else if flt y x then y
    else match x with S754_zero false => y | _ => x end
  end.

(** The integer part of a finite number, rounded toward minus infinity
    ([floor]) or plus infinity ([ceil]); 0 on NaN and the infinities. *)
Definition floorZ (x : number) : Z :=
  match x with
  | S754_finite s m e =>
    let sm := if s then Z.neg m else Z.pos m in
    if (0 <=? e)%Z then (sm * 2 ^ e)%Z else (sm / 2 ^ (- e))%Z
  | _ => 0%Z
  end.

Definition ceilZ (x : number) : Z :=
  match x with
  | S754_finite s m e =>
    let sm := if s then Z.neg m else Z.pos m in
    if (0 <=? e)%Z then (sm * 2 ^ e)%Z else (- ((- sm) / 2 ^ (- e)))%Z
  | _ => 0%Z
  end.

(** Truncation toward zero, as ToInt32 and ToUint32 start. *)
Definition truncZ (x : number) : Z :=
  match x with
  | S754_finite s m e =>
    let a := if (0 <=? e)%Z then (Z.pos m * 2 ^ e)%Z else (Z.pos m / 2 ^ (- e))%Z in
    if s then (- a)%Z else a
  | _ => 0%Z
  end.

Definition signbit (x : number) : bool :=
  match x with
  | S754_zero s | S754_infinity s | S754_finite s _ _ => s
  | S754_nan => false
  end.

(** An integer as a number, keeping the sign of a negative source on a zero result. *)
Definition of_Z_signed (neg : bool) (z : Z) : number :=
  match z with
  | Z0 => S754_zero neg
  | _ => of_Z z
  end.

Definition Math_ceil (x : number) : number :=
  match x with
  | S754_finite s _ _ => of_Z_signed s (ceilZ x)
  | _ => x
  end.

(** Math.round: the integer nearest to x, ties toward plus infinity. *)
Definition Math_round (x : number) : number :=
  match x with
  | S754_finite s m e =>
    if (0 <=? e)%Z then x
    else
      let sm := if s then Z.neg m else Z.pos m in
      of_Z_signed s ((2 * sm + 2 ^ (- e)) / 2 ^ (1 - e))%Z
  | _ => x
  end.

(** 32-bit integer conversions and operators. *)
Definition wrap_uint32 (z : Z) : Z := (z mod 2 ^ 32)%Z.
Definition wrap_int32 (z : Z) : Z :=
  let u := wrap_uint32 z in if (u <? 2 ^ 31)%Z then u else (u - 2 ^ 32)%Z.
Definition ToInt32 (x : number) : Z := wrap_int32 (truncZ x).
Definition ToUint32 (x : number) : Z := wrap_uint32 (truncZ x).

(** The nearest number to the positive rational p/q, with the sign [neg]:
    the quotient is computed with at least two bits beyond the 53 of the
    format and a sticky bit for the remainder, then rounded once. *)
Definition round_ratio (neg : bool) (p q : positive) : number :=
  let s := Z.max 0 (57 + Z.pos (digits2_pos q) - Z.pos (digits2_pos p)) in
  let '(quo, rem) := Z.div_eucl (Z.shiftl (Z.pos p) s) (Z.pos q) in
  let sticky := if (rem =? 0)%Z then (2 * quo)%Z else (2 * quo + 1)%Z in
  binary_normalize prec emax (if neg then (- sticky)%Z else sticky) (- s - 1) false.

(** The number denoted by the decimal [m * 10^e] with sign [neg]. *)
Definition dec2f (neg : bool) (m : Z) (e : Z) : number :=
  match m with
  | Z.pos p =>
    if (0 <=? e)%Z
    then binary_normalize prec emax
           (if neg then (- (m * 10 ^ e))%Z else (m * 10 ^ e)%Z) 0 false
    else round_ratio neg p (Z.to_pos (10 ^ (- e)))
  | _ => S754_zero neg
  end.

(** The numeric literals of the sources. *)
Definition f0_01 : number := Eval vm_compute in dec2f false 1 (-2).
Definition f0_15 : number := Eval vm_compute in dec2f false 15 (-2).
Definition f0_35neg : number := Eval vm_compute in dec2f true 35 (-2).
Definition f0_5 : number := Eval vm_compute in dec2f false 5 (-1).
Definition f0_8 : number := Eval vm_compute in dec2f false 8 (-1).
Definition f1 : number := Eval vm_compute in of_Z 1.
Definition f1_05 : number := Eval vm_compute in dec2f false 105 (-2).
Definition f2 : number := Eval vm_compute in of_Z 2.
Definition f3 : number := Eval vm_compute in of_Z 3.
Definition f4 : number := Eval vm_compute in of_Z 4.
Definition f100 : number := Eval vm_compute in of_Z 100.

(** ** Strings: sequences of UTF-16 code units *)

Abbreviation jsstring := (list Z) (only parsing).

(** An ASCII literal as a string. *)
Definition js (s : String.string) : jsstring :=
  map (fun a => Z.of_N (Ascii.N_of_ascii a)) (String.list_ascii_of_string s).



Definition str_eqb (a b : jsstring) : bool := bool_decide (a = b).

(** WhiteSpace and LineTerminator code units: what [trim], [parseFloat],
    [parseInt] and the regular expression class [\s] skip. *)
Definition isWhiteSpace (c : Z) : bool :=
  ((9 <=? c) && (c <=? 13) || (c =? 32) || (c =? 160) || (c =? 5760)
   || (8192 <=? c) && (c <=? 8202) || (c =? 8232) || (c =? 8233)
   || (c =? 8239) || (c =? 8287) || (c =? 12288) || (c =? 65279))%Z.

Fixpoint trimStart (s : jsstring) : jsstring :=
  match s with
  | c :: r => if isWhiteSpace c then trimStart r else s
  | [] => []
  end.

Definition trimEnd (s : jsstring) : jsstring := rev (trimStart (rev s)).
Definition trim (s : jsstring) : jsstring := trimEnd (trimStart s).

Fixpoint startsWith (s p : jsstring) : bool :=
  match p, s with
  | [], _ => true
  | a :: p', b :: s' => (a =? b)%Z && startsWith s' p'
  | _ :: _, [] => false
  end.

Definition endsWith (s p : jsstring) : bool := startsWith (rev s) (rev p).

(** [s.indexOf(c)] for a one-unit needle: [None] stands for -1. *)
Fixpoint indexOf (c : Z) (s : jsstring) : option nat :=
  match s with
  | [] => None
  | d :: r => if (d =? c)%Z then Some 0 else option_map S (indexOf c r)
  end.

(** [s.indexOf(c, from)]. *)
Definition indexOfFrom (c : Z) (from : nat) (s : jsstring) : option nat :=
  option_map (fun k => from + k) (indexOf c (drop from s)).

(** [s.substring(a, b)]: the arguments are swapped when a > b. *)
Definition substring (a b : nat) (s : jsstring) : jsstring :=
  take (Nat.max a b - Nat.min a b) (drop (Nat.min a b) s).

(** [s.slice(1, -1)] and [s.slice(0, 6)], [s.slice(n)]. *)
Definition slice_1_m1 (s : jsstring) : jsstring := take (length s - 2) (drop 1 s).

(** Case conversion follows the Unicode tables of the host; the sources
    only rely on it being a function on strings. *)
Class CaseOps := {
  toLowerCase : jsstring -> jsstring;
  toUpperCase : jsstring -> jsstring;
}.

(** The conversion on the ASCII letters, every other unit mapped to itself:
    it agrees with the host's on ASCII strings. *)
Definition ascii_lower (c : Z) : Z := if ((65 <=? c) && (c <=? 90))%Z then (c + 32)%Z else c.
Definition ascii_upper (c : Z) : Z := if ((97 <=? c) && (c <=? 122))%Z then (c - 32)%Z else c.
Definition AsciiCase : CaseOps :=
  {| toLowerCase := map ascii_lower; toUpperCase := map ascii_upper |}.

(** [s.codePointAt(0)]: [None] stands for undefined (the empty string). *)
Definition codePointAt0 (s : jsstring) : option Z :=
  match s with
  | [] => None
  | h :: r =>
    if ((55296 <=? h) && (h <=? 56319))%Z then
      match r with
      | l :: _ =>
        if ((56320 <=? l) && (l <=? 57343))%Z
        then Some ((h - 55296) * 1024 + (l - 56320) + 65536)%Z else Some h
      | [] => Some h
      end
    else Some h
  end.

(** ** parseFloat and parseInt *)

Definition isDigit (c : Z) : bool := ((48 <=? c) && (c <=? 57))%Z.

Fixpoint spanDigits (s : jsstring) : jsstring * jsstring :=
  match s with
  | c :: r => if isDigit c then let '(d, t) := spanDigits r in (c :: d, t) else ([], s)
  | [] => ([], [])
  end.

Definition digitsValue (d : jsstring) : Z :=
  fold_left (fun acc c => (acc * 10 + (c - 48))%Z) d 0%Z.

Definition takeSign (s : jsstring) : bool * jsstring :=
  match s with
  | c :: r => if (c =? 45)%Z then (true, r) else if (c =? 43)%Z then (false, r) else (false, s)
  | [] => (false, [])
  end.

(** The exponent part [e[+-]ddd] at the head of [s], 0 when there is none. *)
Definition exponentPart (s : jsstring) : Z :=
  match s with
  | c :: r =>
    if ((c =? 101) || (c =? 69))%Z then
      let '(neg, r') := takeSign r in
      let '(d, _) := spanDigits r' in
      match d with
      | [] => 0%Z
      | _ => if neg then (- digitsValue d)%Z else digitsValue d
      end
    else 0%Z
  | [] => 0%Z
  end.

(** The value of the decimal with digit string [d] (value [m]) and decimal
    exponent [e]; exponents out of the range of the format are decided
    without computing the power. *)
Definition decimalValue (neg : bool) (d : jsstring) (e : Z) : number :=
  let m := digitsValue d in
  if (m =? 0)%Z then S754_zero neg
  else if (400 <? e)%Z then S754_infinity neg
  else if (e + Z.of_nat (length d) <? -400)%Z then S754_zero neg
  else dec2f neg m e.

(** [parseFloat(s)]: leading white space is skipped, then the longest
    prefix that is a decimal literal is read; NaN when there is none. *)
Definition parseFloat (s : jsstring) : number :=
  let '(neg, s0) := takeSign (trimStart s) in
  if startsWith s0 (js "Infinity") then S754_infinity neg
  else
    let '(ip, s1) := spanDigits s0 in
    let '(fp, s2) :=
      match s1 with
      | c :: r => if (c =? 46)%Z then spanDigits r else ([], s1)
      | [] => ([], s1)
      end in
    match ip ++ fp with
    | [] => NaN
    | d => decimalValue neg d (exponentPart s2 - Z.of_nat (length fp))
    end.

Definition hexDigit (c : Z) : option Z :=
  if isDigit c then Some (c - 48)%Z
  else if ((97 <=? c) && (c <=? 102))%Z then Some (c - 87)%Z
  else if ((65 <=? c) && (c <=? 70))%Z then Some (c - 55)%Z
  else None.

Fixpoint hexPrefix (s : jsstring) : list Z :=
  match s with
  | c :: r => match hexDigit c with Some v => v :: hexPrefix r | None => [] end
  | [] => []
  end.

(** The integer a number denotes when it is one (finite, exponent >= 0). *)
Definition round53 (z : Z) : Z := truncZ (of_Z z).

(** [parseInt(s, 16)]: white space, a sign and a [0x] prefix are skipped,
    then the longest prefix of hexadecimal digits is read; [None] stands
    for NaN. The result is an integer-valued number. *)
Definition parseInt16 (s : jsstring) : option Z :=
  let '(neg, s0) := takeSign (trimStart s) in
  let s1 := if startsWith s0 (js "0x") || startsWith s0 (js "0X") then drop 2 s0 else s0 in
  match hexPrefix s1 with
  | [] => None
  | ds =>
    let v := fold_left (fun acc d => (acc * 16 + d)%Z) ds 0%Z in
    Some (round53 (if neg then (- v)%Z else v))
  end.

(** * utils/hashCode.ts, utils/unitParser.ts, utils/colorUtils.ts *)

(** [hash ^= c] is a 32-bit integer operation; the product by the FNV
    prime is a multiplication of numbers, rounded as such, and [>>> 0]
    reduces it to an unsigned 32-bit integer. *)
Definition hashStep (hash : Z) (c : Z) : Z :=
  wrap_uint32 (round53 (Z.lxor (wrap_int32 hash) c * 16777619)).

Definition hashCode (str : jsstring) : Z := fold_left hashStep str 2166136261%Z.

Definition parseUnit (value : jsstring) (baseFontSize : number) : number :=
  let value := trim value in
  if endsWith value (js "%") then fmul baseFontSize (fdiv (parseFloat value) f100)
  else if endsWith value (js "em") then fmul baseFontSize (parseFloat value)
  else if endsWith value (js "px") then parseFloat value
  else f_or (parseFloat value) fzero.

Definition NAMED_COLORS : list (jsstring * Z) :=
  [ (js "black", 0x000000); (js "white", 0xffffff); (js "red", 0xff0000);
    (js "green", 0x00ff00); (js "blue", 0x0000ff); (js "yellow", 0xffff00);
    (js "cyan", 0x00ffff); (js "magenta", 0xff00ff); (js "orange", 0xff8000);
    (js "purple", 0xa020f0); (js "lightblue", 0xadd8e6); (js "grey", 0x808080);
    (js "gray", 0x808080) ]%Z.

Fixpoint assoc {V : Type} (k : jsstring) (l : list (jsstring * V)) : option V :=
  match l with
  | [] => None
  | (k', v) :: r => if str_eqb k k' then Some v else assoc k r
  end.

(** [v[0] + v[0] + v[1] + v[1] + v[2] + v[2]] for the short forms. *)
Definition expandShort (v : jsstring) : jsstring :=
  match v with
  | a :: b :: c :: _ => [a; a; b; b; c; c]
  | _ => v
  end.

(** What parseColor hands to parseInt: the value without its leading '#'
    or '0x', the short forms expanded and the alpha digits dropped. *)
Definition colorHexPart (value : jsstring) : jsstring :=
  let value :=
    if startsWith value (js "#") then drop 1 value
    else if startsWith value (js "0x") then drop 2 value
    else value in
  let value := if length value =? 3 then expandShort value else value in
  let value := if length value =? 4 then expandShort value else value in
  if length value =? 8 then take 6 value else value.

(** The property names a plain object such as the table of named colours
    inherits from Object.prototype. *)
Definition inheritedName (value : jsstring) : bool :=
  existsb (fun name : String.string => str_eqb value (js name))
    [ "constructor"; "__proto__"; "hasOwnProperty"; "isPrototypeOf";
      "propertyIsEnumerable"; "toLocaleString"; "toString"; "valueOf";
      "__defineGetter__"; "__defineSetter__"; "__lookupGetter__"; "__lookupSetter__" ].

(** The colour of a tag value, an integer-valued number. The table is
    looked up by its own entries. For a value that is an inherited name
    ([inheritedName], after trimming and lower-casing: constructor and
    __proto__) the source's [NAMED_COLORS[value] !== undefined] holds as
    well and the source returns the inherited member, which is no number:
    the colours of this model are numbers, and [parseColor] is the
    source's function on the values that are not inherited names. *)
Definition parseColor `{CaseOps} (value : jsstring) : Z :=
  let value := toLowerCase (trim value) in
  match assoc value NAMED_COLORS with
  | Some c => c
  | None =>
    match parseInt16 (colorHexPart value) with
    | Some 0%Z | None => 0%Z
    | Some v => v
    end
  end.

(** * parser/TagStack.ts *)

Record TagStack (T : Type) : Type := mkTagStack { _stack : list T; _current : T }.
Arguments mkTagStack {T} _ _.
Arguments _stack {T} _.
Arguments _current {T} _.

Definition newTagStack {T} (initial : T) : TagStack T :=
  {| _stack := []; _current := initial |}.

Definition current {T} (s : TagStack T) : T := _current s.

Definition push {T} (value : T) (s : TagStack T) : TagStack T :=
  {| _stack := _stack s ++ [_current s]; _current := value |}.

(** [pop] changes the stack only when an entry is there; its result is
    the new [current]. *)
Definition pop {T} (s : TagStack T) : TagStack T :=
  match last (_stack s) with
  | Some v => {| _stack := removelast (_stack s); _current := v |}
  | None => s
  end.

Definition reset {T} (value : T) (s : TagStack T) : TagStack T :=
  {| _stack := []; _current := value |}.

(** Tag opens and closes that govern one attribute, as stack operations. *)
Inductive TagOp (T : Type) : Type :=
  | Open (v : T)
  | Close.
Arguments Open {T} v.
Arguments Close {T}.

Definition applyOp {T} (s : TagStack T) (op : TagOp T) : TagStack T :=
  match op with
  | Open v => push v s
  | Close => pop s
  end.

Definition runOps {T} (ops : list (TagOp T)) (s : TagStack T) : TagStack T :=
  fold_left applyOp ops s.

(** Balanced sequences: every close matches an earlier open. *)
Inductive balanced {T} : list (TagOp T) -> Prop :=
  | balanced_nil : balanced []
  | balanced_wrap v w : balanced w -> balanced (Open v :: w ++ [Close])
  | balanced_app w1 w2 : balanced w1 -> balanced w2 -> balanced (w1 ++ w2).

(** * styles/TMPStyleSheet.ts *)

Record TMPStylePreset : Type := mkPreset { preset_open : jsstring; preset_close : jsstring }.

(** The presets, keyed by lower-cased name. *)
Definition TMPStyleSheet : Type := list (jsstring * TMPStylePreset).

Definition styleSheet_get `{CaseOps} (sheet : TMPStyleSheet) (name : jsstring)
  : option TMPStylePreset :=
  assoc (toLowerCase name) sheet.

(** * parser/RichTextData.ts *)

(** The style state. The fields no theorem below reads (alpha, fontFamily,
    markColor, markPadding, underlineColor, strikethroughColor,
    italicAngle, isLink, linkId, fontWeight, material) are left out, with
    the stacks that only serve them; no kept field depends on them. *)
Record StyleState : Type := mkStyleState {
  color : Z;
  fontSize : number;
  bold : bool;
  italic : bool;
  underline : bool;
  strikethrough : bool;
  cspace : number;
  mspace : number;
  voffset : number;
  isNoBreak : bool;
  align : jsstring;
  indent : number;
  marginLeft : number;
  marginRight : number;
  lineHeightOverride : number;
  isAllCaps : bool;
  isLowercase : bool;
  isSmallCaps : bool;
  isSuperscript : bool;
  isSubscript : bool;
  charScale : number;
  rotation : number;
  gradientColors : list Z;
  widthConstraint : number;
  lineIndent : number;
}.

Definition set_color (v : Z) (s : StyleState) : StyleState :=
  mkStyleState v (fontSize s) (bold s) (italic s) (underline s) (strikethrough s) (cspace s)
    (mspace s) (voffset s) (isNoBreak s) (align s) (indent s) (marginLeft s) (marginRight s)
    (lineHeightOverride s) (isAllCaps s) (isLowercase s) (isSmallCaps s) (isSuperscript s)
    (isSubscript s) (charScale s) (rotation s) (gradientColors s) (widthConstraint s)
    (lineIndent s).
Definition set_fontSize (v : number) (s : StyleState) : StyleState :=
  mkStyleState (color s) v (bold s) (italic s) (underline s) (strikethrough s) (cspace s)
    (mspace s) (voffset s) (isNoBreak s) (align s) (indent s) (marginLeft s) (marginRight s)
    (lineHeightOverride s) (isAllCaps s) (isLowercase s) (isSmallCaps s) (isSuperscript s)
    (isSubscript s) (charScale s) (rotation s) (gradientColors s) (widthConstraint s)
    (lineIndent s).
Definition set_bold (v : bool) (s : StyleState) : StyleState :=
  mkStyleState (color s) (fontSize s) v (italic s) (underline s) (strikethrough s) (cspace s)
    (mspace s) (voffset s) (isNoBreak s) (align s) (indent s) (marginLeft s) (marginRight s)
    (lineHeightOverride s) (isAllCaps s) (isLowercase s) (isSmallCaps s) (isSuperscript s)
    (isSubscript s) (charScale s) (rotation s) (gradientColors s) (widthConstraint s)
    (lineIndent s).
Definition set_italic (v : bool) (s : StyleState) : StyleState :=
  mkStyleState (color s) (fontSize s) (bold s) v (underline s) (strikethrough s) (cspace s)
    (mspace s) (voffset s) (isNoBreak s) (align s) (indent s) (marginLeft s) (marginRight s)
    (lineHeightOverride s) (isAllCaps s) (isLowercase s) (isSmallCaps s) (isSuperscript s)
    (isSubscript s) (charScale s) (rotation s) (gradientColors s) (widthConstraint s)
    (lineIndent s).
Definition set_underline (v : bool) (s : StyleState) : StyleState :=
  mkStyleState (color s) (fontSize s) (bold s) (italic s) v (strikethrough s) (cspace s)
    (mspace s) (voffset s) (isNoBreak s) (align s) (indent s) (marginLeft s) (marginRight s)
    (lineHeightOverride s) (isAllCaps s) (isLowercase s) (isSmallCaps s) (isSuperscript s)
    (isSubscript s) (charScale s) (rotation s) (gradientColors s) (widthConstraint s)
    (lineIndent s).
Definition set_strikethrough (v : bool) (s : StyleState) : StyleState :=
  mkStyleState (color s) (fontSize s) (bold s) (italic s) (underline s) v (cspace s) (mspace s)
    (voffset s) (isNoBreak s) (align s) (indent s) (marginLeft s) (marginRight s)
    (lineHeightOverride s) (isAllCaps s) (isLowercase s) (isSmallCaps s) (isSuperscript s)
    (isSubscript s) (charScale s) (rotation s) (gradientColors s) (widthConstraint s)
    (lineIndent s).
Definition set_cspace (v : number) (s : StyleState) : StyleState :=
  mkStyleState (color s) (fontSize s) (bold s) (italic s) (underline s) (strikethrough s) v
    (mspace s) (voffset s) (isNoBreak s) (align s) (indent s) (marginLeft s) (marginRight s)
    (lineHeightOverride s) (isAllCaps s) (isLowercase s) (isSmallCaps s) (isSuperscript s)
    (isSubscript s) (charScale s) (rotation s) (gradientColors s) (widthConstraint s)
    (lineIndent s).
Definition set_mspace (v : number) (s : StyleState) : StyleState :=
  mkStyleState (color s) (fontSize s) (bold s) (italic s) (underline s) (strikethrough s)
    (cspace s) v (voffset s) (isNoBreak s) (align s) (indent s) (marginLeft s) (marginRight s)
    (lineHeightOverride s) (isAllCaps s) (isLowercase s) (isSmallCaps s) (isSuperscript s)
    (isSubscript s) (charScale s) (rotation s) (gradientColors s) (widthConstraint s)
    (lineIndent s).
Definition set_voffset (v : number) (s : StyleState) : StyleState :=
  mkStyleState (color s) (fontSize s) (bold s) (italic s) (underline s) (strikethrough s)
    (cspace s) (mspace s) v (isNoBreak s) (align s) (indent s) (marginLeft s) (marginRight s)
    (lineHeightOverride s) (isAllCaps s) (isLowercase s) (isSmallCaps s) (isSuperscript s)
    (isSubscript s) (charScale s) (rotation s) (gradientColors s) (widthConstraint s)
    (lineIndent s).
Definition set_isNoBreak (v : bool) (s : StyleState) : StyleState :=
  mkStyleState (color s) (fontSize s) (bold s) (italic s) (underline s) (strikethrough s)
    (cspace s) (mspace s) (voffset s) v (align s) (indent s) (marginLeft s) (marginRight s)
    (lineHeightOverride s) (isAllCaps s) (isLowercase s) (isSmallCaps s) (isSuperscript s)
    (isSubscript s) (charScale s) (rotation s) (gradientColors s) (widthConstraint s)
    (lineIndent s).
Definition set_align (v : jsstring) (s : StyleState) : StyleState :=
  mkStyleState (color s) (fontSize s) (bold s) (italic s) (underline s) (strikethrough s)
    (cspace s) (mspace s) (voffset s) (isNoBreak s) v (indent s) (marginLeft s) (marginRight s)
    (lineHeightOverride s) (isAllCaps s) (isLowercase s) (isSmallCaps s) (isSuperscript s)
    (isSubscript s) (charScale s) (rotation s) (gradientColors s) (widthConstraint s)
    (lineIndent s).
Definition set_indent (v : number) (s : StyleState) : StyleState :=
  mkStyleState (color s) (fontSize s) (bold s) (italic s) (underline s) (strikethrough s)
    (cspace s) (mspace s) (voffset s) (isNoBreak s) (align s) v (marginLeft s) (marginRight s)
    (lineHeightOverride s) (isAllCaps s) (isLowercase s) (isSmallCaps s) (isSuperscript s)
    (isSubscript s) (charScale s) (rotation s) (gradientColors s) (widthConstraint s)
    (lineIndent s).
Definition set_marginLeft (v : number) (s : StyleState) : StyleState :=
  mkStyleState (color s) (fontSize s) (bold s) (italic s) (underline s) (strikethrough s)
    (cspace s) (mspace s) (voffset s) (isNoBreak s) (align s) (indent s) v (marginRight s)
    (lineHeightOverride s) (isAllCaps s) (isLowercase s) (isSmallCaps s) (isSuperscript s)
    (isSubscript s) (charScale s) (rotation s) (gradientColors s) (widthConstraint s)
    (lineIndent s).
Definition set_marginRight (v : number) (s : StyleState) : StyleState :=
  mkStyleState (color s) (fontSize s) (bold s) (italic s) (underline s) (strikethrough s)
    (cspace s) (mspace s) (voffset s) (isNoBreak s) (align s) (indent s) (marginLeft s) v
    (lineHeightOverride s) (isAllCaps s) (isLowercase s) (isSmallCaps s) (isSuperscript s)
    (isSubscript s) (charScale s) (rotation s) (gradientColors s) (widthConstraint s)
    (lineIndent s).
Definition set_lineHeightOverride (v : number) (s : StyleState) : StyleState :=
  mkStyleState (color s) (fontSize s) (bold s) (italic s) (underline s) (strikethrough s)
    (cspace s) (mspace s) (voffset s) (isNoBreak s) (align s) (indent s) (marginLeft s)
    (marginRight s) v (isAllCaps s) (isLowercase s) (isSmallCaps s) (isSuperscript s)
    (isSubscript s) (charScale s) (rotation s) (gradientColors s) (widthConstraint s)
    (lineIndent s).
Definition set_isAllCaps (v : bool) (s : StyleState) : StyleState :=
  mkStyleState (color s) (fontSize s) (bold s) (italic s) (underline s) (strikethrough s)
    (cspace s) (mspace s) (voffset s) (isNoBreak s) (align s) (indent s) (marginLeft s)
    (marginRight s) (lineHeightOverride s) v (isLowercase s) (isSmallCaps s) (isSuperscript s)
    (isSubscript s) (charScale s) (rotation s) (gradientColors s) (widthConstraint s)
    (lineIndent s).
Definition set_isLowercase (v : bool) (s : StyleState) : StyleState :=
  mkStyleState (color s) (fontSize s) (bold s) (italic s) (underline s) (strikethrough s)
    (cspace s) (mspace s) (voffset s) (isNoBreak s) (align s) (indent s) (marginLeft s)
    (marginRight s) (lineHeightOverride s) (isAllCaps s) v (isSmallCaps s) (isSuperscript s)
    (isSubscript s) (charScale s) (rotation s) (gradientColors s) (widthConstraint s)
    (lineIndent s).
Definition set_isSmallCaps (v : bool) (s : StyleState) : StyleState :=
  mkStyleState (color s) (fontSize s) (bold s) (italic s) (underline s) (strikethrough s)
    (cspace s) (mspace s) (voffset s) (isNoBreak s) (align s) (indent s) (marginLeft s)
    (marginRight s) (lineHeightOverride s) (isAllCaps s) (isLowercase s) v (isSuperscript s)
    (isSubscript s) (charScale s) (rotation s) (gradientColors s) (widthConstraint s)
    (lineIndent s).
Definition set_isSuperscript (v : bool) (s : StyleState) : StyleState :=
  mkStyleState (color s) (fontSize s) (bold s) (italic s) (underline s) (strikethrough s)
    (cspace s) (mspace s) (voffset s) (isNoBreak s) (align s) (indent s) (marginLeft s)
    (marginRight s) (lineHeightOverride s) (isAllCaps s) (isLowercase s) (isSmallCaps s) v
    (isSubscript s) (charScale s) (rotation s) (gradientColors s) (widthConstraint s)
    (lineIndent s).
Definition set_isSubscript (v : bool) (s : StyleState) : StyleState :=
  mkStyleState (color s) (fontSize s) (bold s) (italic s) (underline s) (strikethrough s)
    (cspace s) (mspace s) (voffset s) (isNoBreak s) (align s) (indent s) (marginLeft s)
    (marginRight s) (lineHeightOverride s) (isAllCaps s) (isLowercase s) (isSmallCaps s)
    (isSuperscript s) v (charScale s) (rotation s) (gradientColors s) (widthConstraint s)
    (lineIndent s).
Definition set_charScale (v : number) (s : StyleState) : StyleState :=
  mkStyleState (color s) (fontSize s) (bold s) (italic s) (underline s) (strikethrough s)
    (cspace s) (mspace s) (voffset s) (isNoBreak s) (align s) (indent s) (marginLeft s)
    (marginRight s) (lineHeightOverride s) (isAllCaps s) (isLowercase s) (isSmallCaps s)
    (isSuperscript s) (isSubscript s) v (rotation s) (gradientColors s) (widthConstraint s)
    (lineIndent s).
Definition set_rotation (v : number) (s : StyleState) : StyleState :=
  mkStyleState (color s) (fontSize s) (bold s) (italic s) (underline s) (strikethrough s)
    (cspace s) (mspace s) (voffset s) (isNoBreak s) (align s) (indent s) (marginLeft s)
    (marginRight s) (lineHeightOverride s) (isAllCaps s) (isLowercase s) (isSmallCaps s)
    (isSuperscript s) (isSubscript s) (charScale s) v (gradientColors s) (widthConstraint s)
    (lineIndent s).
Definition set_gradientColors (v : list Z) (s : StyleState) : StyleState :=
  mkStyleState (color s) (fontSize s) (bold s) (italic s) (underline s) (strikethrough s)
    (cspace s) (mspace s) (voffset s) (isNoBreak s) (align s) (indent s) (marginLeft s)
    (marginRight s) (lineHeightOverride s) (isAllCaps s) (isLowercase s) (isSmallCaps s)
    (isSuperscript s) (isSubscript s) (charScale s) (rotation s) v (widthConstraint s)
    (lineIndent s).
Definition set_widthConstraint (v : number) (s : StyleState) : StyleState :=
  mkStyleState (color s) (fontSize s) (bold s) (italic s) (underline s) (strikethrough s)
    (cspace s) (mspace s) (voffset s) (isNoBreak s) (align s) (indent s) (marginLeft s)
    (marginRight s) (lineHeightOverride s) (isAllCaps s) (isLowercase s) (isSmallCaps s)
    (isSuperscript s) (isSubscript s) (charScale s) (rotation s) (gradientColors s) v
    (lineIndent s).
Definition set_lineIndent (v : number) (s : StyleState) : StyleState :=
  mkStyleState (color s) (fontSize s) (bold s) (italic s) (underline s) (strikethrough s)
    (cspace s) (mspace s) (voffset s) (isNoBreak s) (align s) (indent s) (marginLeft s)
    (marginRight s) (lineHeightOverride s) (isAllCaps s) (isLowercase s) (isSmallCaps s)
    (isSuperscript s) (isSubscript s) (charScale s) (rotation s) (gradientColors s)
    (widthConstraint s) v.

Definition createDefaultStyleState (fontSize : number) (color : Z) : StyleState :=
  {| color := color; fontSize := fontSize;
     bold := false; italic := false; underline := false; strikethrough := false;
     cspace := fzero; mspace := fzero; voffset := fzero;
     isNoBreak := false; align := [];
     indent := fzero; marginLeft := fzero; marginRight := fzero;
     lineHeightOverride := fzero;
     isAllCaps := false; isLowercase := false; isSmallCaps := false;
     isSuperscript := false; isSubscript := false;
     charScale := f1; rotation := fzero;
     gradientColors := []; widthConstraint := fzero; lineIndent := fzero |}.

(** One parsed character: the snapshot of the style state at emission
    (field [style]) and the per-character fields. [spriteValue] is the
    value of the sprite tag, from which spriteAsset, spriteName,
    spriteIndex and spriteTint are read. *)
Record ParsedChar : Type := mkParsedChar {
  char : jsstring;
  charCode : Z;
  originalIndex : nat;
  style : StyleState;
  isSprite : bool;
  spriteValue : jsstring;
  isLineBreak : bool;
  extraSpace : number;
  fixedPosition : number;
}.

Definition pc_set_char (v : jsstring) (pc : ParsedChar) : ParsedChar :=
  mkParsedChar v (charCode pc) (originalIndex pc) (style pc) (isSprite pc) (spriteValue pc)
    (isLineBreak pc) (extraSpace pc) (fixedPosition pc).
Definition pc_set_charCode (v : Z) (pc : ParsedChar) : ParsedChar :=
  mkParsedChar (char pc) v (originalIndex pc) (style pc) (isSprite pc) (spriteValue pc)
    (isLineBreak pc) (extraSpace pc) (fixedPosition pc).
Definition pc_set_originalIndex (v : nat) (pc : ParsedChar) : ParsedChar :=
  mkParsedChar (char pc) (charCode pc) v (style pc) (isSprite pc) (spriteValue pc)
    (isLineBreak pc) (extraSpace pc) (fixedPosition pc).
Definition pc_set_style (v : StyleState) (pc : ParsedChar) : ParsedChar :=
  mkParsedChar (char pc) (charCode pc) (originalIndex pc) v (isSprite pc) (spriteValue pc)
    (isLineBreak pc) (extraSpace pc) (fixedPosition pc).
Definition pc_set_isSprite (v : bool) (pc : ParsedChar) : ParsedChar :=
  mkParsedChar (char pc) (charCode pc) (originalIndex pc) (style pc) v (spriteValue pc)
    (isLineBreak pc) (extraSpace pc) (fixedPosition pc).
Definition pc_set_spriteValue (v : jsstring) (pc : ParsedChar) : ParsedChar :=
  mkParsedChar (char pc) (charCode pc) (originalIndex pc) (style pc) (isSprite pc) v
    (isLineBreak pc) (extraSpace pc) (fixedPosition pc).
Definition pc_set_isLineBreak (v : bool) (pc : ParsedChar) : ParsedChar :=
  mkParsedChar (char pc) (charCode pc) (originalIndex pc) (style pc) (isSprite pc)
    (spriteValue pc) v (extraSpace pc) (fixedPosition pc).
Definition pc_set_extraSpace (v : number) (pc : ParsedChar) : ParsedChar :=
  mkParsedChar (char pc) (charCode pc) (originalIndex pc) (style pc) (isSprite pc)
    (spriteValue pc) (isLineBreak pc) v (fixedPosition pc).
Definition pc_set_fixedPosition (v : number) (pc : ParsedChar) : ParsedChar :=
  mkParsedChar (char pc) (charCode pc) (originalIndex pc) (style pc) (isSprite pc)
    (spriteValue pc) (isLineBreak pc) (extraSpace pc) v.

Definition createParsedChar (char : jsstring) (originalIndex : nat) (state : StyleState)
  : ParsedChar :=
  {| char := char;
     charCode := default 0%Z (codePointAt0 char);
     originalIndex := originalIndex;
     style := state;
     isSprite := false; spriteValue := [];
     isLineBreak := str_eqb char [10%Z];
     extraSpace := fzero;
     fixedPosition := NaN |}.

(** * parser/TagRegistry.ts and the tag handlers *)

(** One constructor per [registry.register] call of the constructor of
    RichTextParser, in the order of registration. *)
Inductive Tag : Type :=
  | T_color | T_alpha
  | T_b | T_i | T_u | T_s | T_strikethrough | T_mark
  | T_size | T_cspace | T_mspace | T_duospace
  | T_nobr | T_br | T_nbsp | T_zwsp | T_softhyphen | T_shy | T_en_space | T_em_space
  | T_noparse | T_cr | T_zwj
  | T_align | T_voffset | T_indent | T_margin | T_margin_left | T_margin_right
  | T_padding | T_line_height | T_space | T_pos | T_line_indent
  | T_allcaps | T_uppercase | T_lowercase | T_smallcaps | T_sup | T_sub
  | T_link | T_a
  | T_font | T_font_weight
  | T_scale | T_rotate
  | T_gradient
  | T_width | T_material | T_style.

Definition tagName_of (t : Tag) : jsstring :=
  js match t with
  | T_color => "color" | T_alpha => "alpha"
  | T_b => "b" | T_i => "i" | T_u => "u" | T_s => "s"
  | T_strikethrough => "strikethrough" | T_mark => "mark"
  | T_size => "size" | T_cspace => "cspace" | T_mspace => "mspace"
  | T_duospace => "duospace"
  | T_nobr => "nobr" | T_br => "br" | T_nbsp => "nbsp" | T_zwsp => "zwsp"
  | T_softhyphen => "softhyphen" | T_shy => "shy"
  | T_en_space => "en-space" | T_em_space => "em-space"
  | T_noparse => "noparse" | T_cr => "cr" | T_zwj => "zwj"
  | T_align => "align" | T_voffset => "voffset" | T_indent => "indent"
  | T_margin => "margin" | T_margin_left => "margin-left"
  | T_margin_right => "margin-right" | T_padding => "padding"
  | T_line_height => "line-height" | T_space => "space" | T_pos => "pos"
  | T_line_indent => "line-indent"
  | T_allcaps => "allcaps" | T_uppercase => "uppercase" | T_lowercase => "lowercase"
  | T_smallcaps => "smallcaps" | T_sup => "sup" | T_sub => "sub"
  | T_link => "link" | T_a => "a"
  | T_font => "font" | T_font_weight => "font-weight"
  | T_scale => "scale" | T_rotate => "rotate"
  | T_gradient => "gradient"
  | T_width => "width" | T_material => "material" | T_style => "style"
  end.

Definition registrationOrder : list Tag :=
  [ T_color; T_alpha;
    T_b; T_i; T_u; T_s; T_strikethrough; T_mark;
    T_size; T_cspace; T_mspace; T_duospace;
    T_nobr; T_br; T_nbsp; T_zwsp; T_softhyphen; T_shy; T_en_space; T_em_space;
    T_noparse; T_cr; T_zwj;
    T_align; T_voffset; T_indent; T_margin; T_margin_left; T_margin_right;
    T_padding; T_line_height; T_space; T_pos; T_line_indent;
    T_allcaps; T_uppercase; T_lowercase; T_smallcaps; T_sup; T_sub;
    T_link; T_a;
    T_font; T_font_weight;
    T_scale; T_rotate;
    T_gradient;
    T_width; T_material; T_style ].

(** The registry: a map from the hash of the lower-cased name to the
    entry; a later registration under the same hash replaces the earlier. *)
Definition TagRegistry : Type := gmap Z Tag.

Definition register `{CaseOps} (t : Tag) (reg : TagRegistry) : TagRegistry :=
  <[hashCode (toLowerCase (tagName_of t)) := t]> reg.

Definition getByHash (hash : Z) (reg : TagRegistry) : option Tag := reg !! hash.

(** The parser object: the stacks, the nesting counters that
    registerFormattingTags keeps in its closure, the style sheet and the
    registry. The closure array fontPushedMaterial of registerFontTags,
    which [parse] does not reset either, only steers the material field
    and is left out with it. *)
Record RichTextParser : Type := mkRichTextParser {
  _colorStack : TagStack Z;
  _sizeStack : TagStack number;
  _boldStack : TagStack bool;
  _italicStack : TagStack bool;
  _underlineStack : TagStack bool;
  _strikethroughStack : TagStack bool;
  _cspaceStack : TagStack number;
  _mspaceStack : TagStack number;
  _nobrStack : TagStack bool;
  _alignStack : TagStack jsstring;
  _voffsetStack : TagStack number;
  _indentStack : TagStack number;
  _marginStack : TagStack number;
  _lineHeightStack : TagStack number;
  _allCapsStack : TagStack bool;
  _lowercaseStack : TagStack bool;
  _smallCapsStack : TagStack bool;
  _superscriptStack : TagStack bool;
  _subscriptStack : TagStack bool;
  _charScaleStack : TagStack number;
  _rotationStack : TagStack number;
  _gradientStack : TagStack (list Z);
  _widthStack : TagStack number;
  _styleNameStack : TagStack jsstring;
  _lineIndentStack : TagStack number;
  boldCount : Z;
  italicCount : Z;
  underlineCount : Z;
  strikethroughCount : Z;
  styleSheet : option TMPStyleSheet;
  _registry : TagRegistry;
}.

Definition set_colorStack (v : TagStack Z) (p : RichTextParser) : RichTextParser :=
  mkRichTextParser v (_sizeStack p) (_boldStack p) (_italicStack p) (_underlineStack p)
    (_strikethroughStack p) (_cspaceStack p) (_mspaceStack p) (_nobrStack p) (_alignStack p)
    (_voffsetStack p) (_indentStack p) (_marginStack p) (_lineHeightStack p) (_allCapsStack p)
    (_lowercaseStack p) (_smallCapsStack p) (_superscriptStack p) (_subscriptStack p)
    (_charScaleStack p) (_rotationStack p) (_gradientStack p) (_widthStack p)
    (_styleNameStack p) (_lineIndentStack p) (boldCount p) (italicCount p) (underlineCount p)
    (strikethroughCount p) (styleSheet p) (_registry p).
Definition set_sizeStack (v : TagStack number) (p : RichTextParser) : RichTextParser :=
  mkRichTextParser (_colorStack p) v (_boldStack p) (_italicStack p) (_underlineStack p)
    (_strikethroughStack p) (_cspaceStack p) (_mspaceStack p) (_nobrStack p) (_alignStack p)
    (_voffsetStack p) (_indentStack p) (_marginStack p) (_lineHeightStack p) (_allCapsStack p)
    (_lowercaseStack p) (_smallCapsStack p) (_superscriptStack p) (_subscriptStack p)
    (_charScaleStack p) (_rotationStack p) (_gradientStack p) (_widthStack p)
    (_styleNameStack p) (_lineIndentStack p) (boldCount p) (italicCount p) (underlineCount p)
    (strikethroughCount p) (styleSheet p) (_registry p).
Definition set_boldStack (v : TagStack bool) (p : RichTextParser) : RichTextParser :=
  mkRichTextParser (_colorStack p) (_sizeStack p) v (_italicStack p) (_underlineStack p)
    (_strikethroughStack p) (_cspaceStack p) (_mspaceStack p) (_nobrStack p) (_alignStack p)
    (_voffsetStack p) (_indentStack p) (_marginStack p) (_lineHeightStack p) (_allCapsStack p)
    (_lowercaseStack p) (_smallCapsStack p) (_superscriptStack p) (_subscriptStack p)
    (_charScaleStack p) (_rotationStack p) (_gradientStack p) (_widthStack p)
    (_styleNameStack p) (_lineIndentStack p) (boldCount p) (italicCount p) (underlineCount p)
    (strikethroughCount p) (styleSheet p) (_registry p).
Definition set_italicStack (v : TagStack bool) (p : RichTextParser) : RichTextParser :=
  mkRichTextParser (_colorStack p) (_sizeStack p) (_boldStack p) v (_underlineStack p)
    (_strikethroughStack p) (_cspaceStack p) (_mspaceStack p) (_nobrStack p) (_alignStack p)
    (_voffsetStack p) (_indentStack p) (_marginStack p) (_lineHeightStack p) (_allCapsStack p)
    (_lowercaseStack p) (_smallCapsStack p) (_superscriptStack p) (_subscriptStack p)
    (_charScaleStack p) (_rotationStack p) (_gradientStack p) (_widthStack p)
    (_styleNameStack p) (_lineIndentStack p) (boldCount p) (italicCount p) (underlineCount p)
    (strikethroughCount p) (styleSheet p) (_registry p).
Definition set_underlineStack (v : TagStack bool) (p : RichTextParser) : RichTextParser :=
  mkRichTextParser (_colorStack p) (_sizeStack p) (_boldStack p) (_italicStack p) v
    (_strikethroughStack p) (_cspaceStack p) (_mspaceStack p) (_nobrStack p) (_alignStack p)
    (_voffsetStack p) (_indentStack p) (_marginStack p) (_lineHeightStack p) (_allCapsStack p)
    (_lowercaseStack p) (_smallCapsStack p) (_superscriptStack p) (_subscriptStack p)
    (_charScaleStack p) (_rotationStack p) (_gradientStack p) (_widthStack p)
    (_styleNameStack p) (_lineIndentStack p) (boldCount p) (italicCount p) (underlineCount p)
    (strikethroughCount p) (styleSheet p) (_registry p).
Definition set_strikethroughStack (v : TagStack bool) (p : RichTextParser) : RichTextParser :=
  mkRichTextParser (_colorStack p) (_sizeStack p) (_boldStack p) (_italicStack p)
    (_underlineStack p) v (_cspaceStack p) (_mspaceStack p) (_nobrStack p) (_alignStack p)
    (_voffsetStack p) (_indentStack p) (_marginStack p) (_lineHeightStack p) (_allCapsStack p)
    (_lowercaseStack p) (_smallCapsStack p) (_superscriptStack p) (_subscriptStack p)
    (_charScaleStack p) (_rotationStack p) (_gradientStack p) (_widthStack p)
    (_styleNameStack p) (_lineIndentStack p) (boldCount p) (italicCount p) (underlineCount p)
    (strikethroughCount p) (styleSheet p) (_registry p).
Definition set_cspaceStack (v : TagStack number) (p : RichTextParser) : RichTextParser :=
  mkRichTextParser (_colorStack p) (_sizeStack p) (_boldStack p) (_italicStack p)
    (_underlineStack p) (_strikethroughStack p) v (_mspaceStack p) (_nobrStack p)
    (_alignStack p) (_voffsetStack p) (_indentStack p) (_marginStack p) (_lineHeightStack p)
    (_allCapsStack p) (_lowercaseStack p) (_smallCapsStack p) (_superscriptStack p)
    (_subscriptStack p) (_charScaleStack p) (_rotationStack p) (_gradientStack p)
    (_widthStack p) (_styleNameStack p) (_lineIndentStack p) (boldCount p) (italicCount p)
    (underlineCount p) (strikethroughCount p) (styleSheet p) (_registry p).
Definition set_mspaceStack (v : TagStack number) (p : RichTextParser) : RichTextParser :=
  mkRichTextParser (_colorStack p) (_sizeStack p) (_boldStack p) (_italicStack p)
    (_underlineStack p) (_strikethroughStack p) (_cspaceStack p) v (_nobrStack p)
    (_alignStack p) (_voffsetStack p) (_indentStack p) (_marginStack p) (_lineHeightStack p)
    (_allCapsStack p) (_lowercaseStack p) (_smallCapsStack p) (_superscriptStack p)
    (_subscriptStack p) (_charScaleStack p) (_rotationStack p) (_gradientStack p)
    (_widthStack p) (_styleNameStack p) (_lineIndentStack p) (boldCount p) (italicCount p)
    (underlineCount p) (strikethroughCount p) (styleSheet p) (_registry p).
Definition set_nobrStack (v : TagStack bool) (p : RichTextParser) : RichTextParser :=
  mkRichTextParser (_colorStack p) (_sizeStack p) (_boldStack p) (_italicStack p)
    (_underlineStack p) (_strikethroughStack p) (_cspaceStack p) (_mspaceStack p) v
    (_alignStack p) (_voffsetStack p) (_indentStack p) (_marginStack p) (_lineHeightStack p)
    (_allCapsStack p) (_lowercaseStack p) (_smallCapsStack p) (_superscriptStack p)
    (_subscriptStack p) (_charScaleStack p) (_rotationStack p) (_gradientStack p)
    (_widthStack p) (_styleNameStack p) (_lineIndentStack p) (boldCount p) (italicCount p)
    (underlineCount p) (strikethroughCount p) (styleSheet p) (_registry p).
Definition set_alignStack (v : TagStack jsstring) (p : RichTextParser) : RichTextParser :=
  mkRichTextParser (_colorStack p) (_sizeStack p) (_boldStack p) (_italicStack p)
    (_underlineStack p) (_strikethroughStack p) (_cspaceStack p) (_mspaceStack p) (_nobrStack p)
    v (_voffsetStack p) (_indentStack p) (_marginStack p) (_lineHeightStack p) (_allCapsStack p)
    (_lowercaseStack p) (_smallCapsStack p) (_superscriptStack p) (_subscriptStack p)
    (_charScaleStack p) (_rotationStack p) (_gradientStack p) (_widthStack p)
    (_styleNameStack p) (_lineIndentStack p) (boldCount p) (italicCount p) (underlineCount p)
    (strikethroughCount p) (styleSheet p) (_registry p).
Definition set_voffsetStack (v : TagStack number) (p : RichTextParser) : RichTextParser :=
  mkRichTextParser (_colorStack p) (_sizeStack p) (_boldStack p) (_italicStack p)
    (_underlineStack p) (_strikethroughStack p) (_cspaceStack p) (_mspaceStack p) (_nobrStack p)
    (_alignStack p) v (_indentStack p) (_marginStack p) (_lineHeightStack p) (_allCapsStack p)
    (_lowercaseStack p) (_smallCapsStack p) (_superscriptStack p) (_subscriptStack p)
    (_charScaleStack p) (_rotationStack p) (_gradientStack p) (_widthStack p)
    (_styleNameStack p) (_lineIndentStack p) (boldCount p) (italicCount p) (underlineCount p)
    (strikethroughCount p) (styleSheet p) (_registry p).
Definition set_indentStack (v : TagStack number) (p : RichTextParser) : RichTextParser :=
  mkRichTextParser (_colorStack p) (_sizeStack p) (_boldStack p) (_italicStack p)
    (_underlineStack p) (_strikethroughStack p) (_cspaceStack p) (_mspaceStack p) (_nobrStack p)
    (_alignStack p) (_voffsetStack p) v (_marginStack p) (_lineHeightStack p) (_allCapsStack p)
    (_lowercaseStack p) (_smallCapsStack p) (_superscriptStack p) (_subscriptStack p)
    (_charScaleStack p) (_rotationStack p) (_gradientStack p) (_widthStack p)
    (_styleNameStack p) (_lineIndentStack p) (boldCount p) (italicCount p) (underlineCount p)
    (strikethroughCount p) (styleSheet p) (_registry p).
Definition set_marginStack (v : TagStack number) (p : RichTextParser) : RichTextParser :=
  mkRichTextParser (_colorStack p) (_sizeStack p) (_boldStack p) (_italicStack p)
    (_underlineStack p) (_strikethroughStack p) (_cspaceStack p) (_mspaceStack p) (_nobrStack p)
    (_alignStack p) (_voffsetStack p) (_indentStack p) v (_lineHeightStack p) (_allCapsStack p)
    (_lowercaseStack p) (_smallCapsStack p) (_superscriptStack p) (_subscriptStack p)
    (_charScaleStack p) (_rotationStack p) (_gradientStack p) (_widthStack p)
    (_styleNameStack p) (_lineIndentStack p) (boldCount p) (italicCount p) (underlineCount p)
    (strikethroughCount p) (styleSheet p) (_registry p).
Definition set_lineHeightStack (v : TagStack number) (p : RichTextParser) : RichTextParser :=
  mkRichTextParser (_colorStack p) (_sizeStack p) (_boldStack p) (_italicStack p)
    (_underlineStack p) (_strikethroughStack p) (_cspaceStack p) (_mspaceStack p) (_nobrStack p)
    (_alignStack p) (_voffsetStack p) (_indentStack p) (_marginStack p) v (_allCapsStack p)
    (_lowercaseStack p) (_smallCapsStack p) (_superscriptStack p) (_subscriptStack p)
    (_charScaleStack p) (_rotationStack p) (_gradientStack p) (_widthStack p)
    (_styleNameStack p) (_lineIndentStack p) (boldCount p) (italicCount p) (underlineCount p)
    (strikethroughCount p) (styleSheet p) (_registry p).
Definition set_allCapsStack (v : TagStack bool) (p : RichTextParser) : RichTextParser :=
  mkRichTextParser (_colorStack p) (_sizeStack p) (_boldStack p) (_italicStack p)
    (_underlineStack p) (_strikethroughStack p) (_cspaceStack p) (_mspaceStack p) (_nobrStack p)
    (_alignStack p) (_voffsetStack p) (_indentStack p) (_marginStack p) (_lineHeightStack p) v
    (_lowercaseStack p) (_smallCapsStack p) (_superscriptStack p) (_subscriptStack p)
    (_charScaleStack p) (_rotationStack p) (_gradientStack p) (_widthStack p)
    (_styleNameStack p) (_lineIndentStack p) (boldCount p) (italicCount p) (underlineCount p)
    (strikethroughCount p) (styleSheet p) (_registry p).
Definition set_lowercaseStack (v : TagStack bool) (p : RichTextParser) : RichTextParser :=
  mkRichTextParser (_colorStack p) (_sizeStack p) (_boldStack p) (_italicStack p)
    (_underlineStack p) (_strikethroughStack p) (_cspaceStack p) (_mspaceStack p) (_nobrStack p)
    (_alignStack p) (_voffsetStack p) (_indentStack p) (_marginStack p) (_lineHeightStack p)
    (_allCapsStack p) v (_smallCapsStack p) (_superscriptStack p) (_subscriptStack p)
    (_charScaleStack p) (_rotationStack p) (_gradientStack p) (_widthStack p)
    (_styleNameStack p) (_lineIndentStack p) (boldCount p) (italicCount p) (underlineCount p)
    (strikethroughCount p) (styleSheet p) (_registry p).
Definition set_smallCapsStack (v : TagStack bool) (p : RichTextParser) : RichTextParser :=
  mkRichTextParser (_colorStack p) (_sizeStack p) (_boldStack p) (_italicStack p)
    (_underlineStack p) (_strikethroughStack p) (_cspaceStack p) (_mspaceStack p) (_nobrStack p)
    (_alignStack p) (_voffsetStack p) (_indentStack p) (_marginStack p) (_lineHeightStack p)
    (_allCapsStack p) (_lowercaseStack p) v (_superscriptStack p) (_subscriptStack p)
    (_charScaleStack p) (_rotationStack p) (_gradientStack p) (_widthStack p)
    (_styleNameStack p) (_lineIndentStack p) (boldCount p) (italicCount p) (underlineCount p)
    (strikethroughCount p) (styleSheet p) (_registry p).
Definition set_superscriptStack (v : TagStack bool) (p : RichTextParser) : RichTextParser :=
  mkRichTextParser (_colorStack p) (_sizeStack p) (_boldStack p) (_italicStack p)
    (_underlineStack p) (_strikethroughStack p) (_cspaceStack p) (_mspaceStack p) (_nobrStack p)
    (_alignStack p) (_voffsetStack p) (_indentStack p) (_marginStack p) (_lineHeightStack p)
    (_allCapsStack p) (_lowercaseStack p) (_smallCapsStack p) v (_subscriptStack p)
    (_charScaleStack p) (_rotationStack p) (_gradientStack p) (_widthStack p)
    (_styleNameStack p) (_lineIndentStack p) (boldCount p) (italicCount p) (underlineCount p)
    (strikethroughCount p) (styleSheet p) (_registry p).
Definition set_subscriptStack (v : TagStack bool) (p : RichTextParser) : RichTextParser :=
  mkRichTextParser (_colorStack p) (_sizeStack p) (_boldStack p) (_italicStack p)
    (_underlineStack p) (_strikethroughStack p) (_cspaceStack p) (_mspaceStack p) (_nobrStack p)
    (_alignStack p) (_voffsetStack p) (_indentStack p) (_marginStack p) (_lineHeightStack p)
    (_allCapsStack p) (_lowercaseStack p) (_smallCapsStack p) (_superscriptStack p) v
    (_charScaleStack p) (_rotationStack p) (_gradientStack p) (_widthStack p)
    (_styleNameStack p) (_lineIndentStack p) (boldCount p) (italicCount p) (underlineCount p)
    (strikethroughCount p) (styleSheet p) (_registry p).
Definition set_charScaleStack (v : TagStack number) (p : RichTextParser) : RichTextParser :=
  mkRichTextParser (_colorStack p) (_sizeStack p) (_boldStack p) (_italicStack p)
    (_underlineStack p) (_strikethroughStack p) (_cspaceStack p) (_mspaceStack p) (_nobrStack p)
    (_alignStack p) (_voffsetStack p) (_indentStack p) (_marginStack p) (_lineHeightStack p)
    (_allCapsStack p) (_lowercaseStack p) (_smallCapsStack p) (_superscriptStack p)
    (_subscriptStack p) v (_rotationStack p) (_gradientStack p) (_widthStack p)
    (_styleNameStack p) (_lineIndentStack p) (boldCount p) (italicCount p) (underlineCount p)
    (strikethroughCount p) (styleSheet p) (_registry p).
Definition set_rotationStack (v : TagStack number) (p : RichTextParser) : RichTextParser :=
  mkRichTextParser (_colorStack p) (_sizeStack p) (_boldStack p) (_italicStack p)
    (_underlineStack p) (_strikethroughStack p) (_cspaceStack p) (_mspaceStack p) (_nobrStack p)
    (_alignStack p) (_voffsetStack p) (_indentStack p) (_marginStack p) (_lineHeightStack p)
    (_allCapsStack p) (_lowercaseStack p) (_smallCapsStack p) (_superscriptStack p)
    (_subscriptStack p) (_charScaleStack p) v (_gradientStack p) (_widthStack p)
    (_styleNameStack p) (_lineIndentStack p) (boldCount p) (italicCount p) (underlineCount p)
    (strikethroughCount p) (styleSheet p) (_registry p).
Definition set_gradientStack (v : TagStack (list Z)) (p : RichTextParser) : RichTextParser :=
  mkRichTextParser (_colorStack p) (_sizeStack p) (_boldStack p) (_italicStack p)
    (_underlineStack p) (_strikethroughStack p) (_cspaceStack p) (_mspaceStack p) (_nobrStack p)
    (_alignStack p) (_voffsetStack p) (_indentStack p) (_marginStack p) (_lineHeightStack p)
    (_allCapsStack p) (_lowercaseStack p) (_smallCapsStack p) (_superscriptStack p)
    (_subscriptStack p) (_charScaleStack p) (_rotationStack p) v (_widthStack p)
    (_styleNameStack p) (_lineIndentStack p) (boldCount p) (italicCount p) (underlineCount p)
    (strikethroughCount p) (styleSheet p) (_registry p).
Definition set_widthStack (v : TagStack number) (p : RichTextParser) : RichTextParser :=
  mkRichTextParser (_colorStack p) (_sizeStack p) (_boldStack p) (_italicStack p)
    (_underlineStack p) (_strikethroughStack p) (_cspaceStack p) (_mspaceStack p) (_nobrStack p)
    (_alignStack p) (_voffsetStack p) (_indentStack p) (_marginStack p) (_lineHeightStack p)
    (_allCapsStack p) (_lowercaseStack p) (_smallCapsStack p) (_superscriptStack p)
    (_subscriptStack p) (_charScaleStack p) (_rotationStack p) (_gradientStack p) v
    (_styleNameStack p) (_lineIndentStack p) (boldCount p) (italicCount p) (underlineCount p)
    (strikethroughCount p) (styleSheet p) (_registry p).
Definition set_styleNameStack (v : TagStack jsstring) (p : RichTextParser) : RichTextParser :=
  mkRichTextParser (_colorStack p) (_sizeStack p) (_boldStack p) (_italicStack p)
    (_underlineStack p) (_strikethroughStack p) (_cspaceStack p) (_mspaceStack p) (_nobrStack p)
    (_alignStack p) (_voffsetStack p) (_indentStack p) (_marginStack p) (_lineHeightStack p)
    (_allCapsStack p) (_lowercaseStack p) (_smallCapsStack p) (_superscriptStack p)
    (_subscriptStack p) (_charScaleStack p) (_rotationStack p) (_gradientStack p)
    (_widthStack p) v (_lineIndentStack p) (boldCount p) (italicCount p) (underlineCount p)
    (strikethroughCount p) (styleSheet p) (_registry p).
Definition set_lineIndentStack (v : TagStack number) (p : RichTextParser) : RichTextParser :=
  mkRichTextParser (_colorStack p) (_sizeStack p) (_boldStack p) (_italicStack p)
    (_underlineStack p) (_strikethroughStack p) (_cspaceStack p) (_mspaceStack p) (_nobrStack p)
    (_alignStack p) (_voffsetStack p) (_indentStack p) (_marginStack p) (_lineHeightStack p)
    (_allCapsStack p) (_lowercaseStack p) (_smallCapsStack p) (_superscriptStack p)
    (_subscriptStack p) (_charScaleStack p) (_rotationStack p) (_gradientStack p)
    (_widthStack p) (_styleNameStack p) v (boldCount p) (italicCount p) (underlineCount p)
    (strikethroughCount p) (styleSheet p) (_registry p).
Definition set_boldCount (v : Z) (p : RichTextParser) : RichTextParser :=
  mkRichTextParser (_colorStack p) (_sizeStack p) (_boldStack p) (_italicStack p)
    (_underlineStack p) (_strikethroughStack p) (_cspaceStack p) (_mspaceStack p) (_nobrStack p)
    (_alignStack p) (_voffsetStack p) (_indentStack p) (_marginStack p) (_lineHeightStack p)
    (_allCapsStack p) (_lowercaseStack p) (_smallCapsStack p) (_superscriptStack p)
    (_subscriptStack p) (_charScaleStack p) (_rotationStack p) (_gradientStack p)
    (_widthStack p) (_styleNameStack p) (_lineIndentStack p) v (italicCount p)
    (underlineCount p) (strikethroughCount p) (styleSheet p) (_registry p).
Definition set_italicCount (v : Z) (p : RichTextParser) : RichTextParser :=
  mkRichTextParser (_colorStack p) (_sizeStack p) (_boldStack p) (_italicStack p)
    (_underlineStack p) (_strikethroughStack p) (_cspaceStack p) (_mspaceStack p) (_nobrStack p)
    (_alignStack p) (_voffsetStack p) (_indentStack p) (_marginStack p) (_lineHeightStack p)
    (_allCapsStack p) (_lowercaseStack p) (_smallCapsStack p) (_superscriptStack p)
    (_subscriptStack p) (_charScaleStack p) (_rotationStack p) (_gradientStack p)
    (_widthStack p) (_styleNameStack p) (_lineIndentStack p) (boldCount p) v (underlineCount p)
    (strikethroughCount p) (styleSheet p) (_registry p).
Definition set_underlineCount (v : Z) (p : RichTextParser) : RichTextParser :=
  mkRichTextParser (_colorStack p) (_sizeStack p) (_boldStack p) (_italicStack p)
    (_underlineStack p) (_strikethroughStack p) (_cspaceStack p) (_mspaceStack p) (_nobrStack p)
    (_alignStack p) (_voffsetStack p) (_indentStack p) (_marginStack p) (_lineHeightStack p)
    (_allCapsStack p) (_lowercaseStack p) (_smallCapsStack p) (_superscriptStack p)
    (_subscriptStack p) (_charScaleStack p) (_rotationStack p) (_gradientStack p)
    (_widthStack p) (_styleNameStack p) (_lineIndentStack p) (boldCount p) (italicCount p) v
    (strikethroughCount p) (styleSheet p) (_registry p).
Definition set_strikethroughCount (v : Z) (p : RichTextParser) : RichTextParser :=
  mkRichTextParser (_colorStack p) (_sizeStack p) (_boldStack p) (_italicStack p)
    (_underlineStack p) (_strikethroughStack p) (_cspaceStack p) (_mspaceStack p) (_nobrStack p)
    (_alignStack p) (_voffsetStack p) (_indentStack p) (_marginStack p) (_lineHeightStack p)
    (_allCapsStack p) (_lowercaseStack p) (_smallCapsStack p) (_superscriptStack p)
    (_subscriptStack p) (_charScaleStack p) (_rotationStack p) (_gradientStack p)
    (_widthStack p) (_styleNameStack p) (_lineIndentStack p) (boldCount p) (italicCount p)
    (underlineCount p) v (styleSheet p) (_registry p).
Definition set_styleSheet (v : option TMPStyleSheet) (p : RichTextParser) : RichTextParser :=
  mkRichTextParser (_colorStack p) (_sizeStack p) (_boldStack p) (_italicStack p)
    (_underlineStack p) (_strikethroughStack p) (_cspaceStack p) (_mspaceStack p) (_nobrStack p)
    (_alignStack p) (_voffsetStack p) (_indentStack p) (_marginStack p) (_lineHeightStack p)
    (_allCapsStack p) (_lowercaseStack p) (_smallCapsStack p) (_superscriptStack p)
    (_subscriptStack p) (_charScaleStack p) (_rotationStack p) (_gradientStack p)
    (_widthStack p) (_styleNameStack p) (_lineIndentStack p) (boldCount p) (italicCount p)
    (underlineCount p) (strikethroughCount p) v (_registry p).

Definition new_RichTextParser `{CaseOps} : RichTextParser :=
  {| _colorStack := newTagStack 0xffffff%Z;
     _sizeStack := newTagStack (of_Z 32);
     _boldStack := newTagStack false;
     _italicStack := newTagStack false;
     _underlineStack := newTagStack false;
     _strikethroughStack := newTagStack false;
     _cspaceStack := newTagStack fzero;
     _mspaceStack := newTagStack fzero;
     _nobrStack := newTagStack false;
     _alignStack := newTagStack [];
     _voffsetStack := newTagStack fzero;
     _indentStack := newTagStack fzero;
     _marginStack := newTagStack fzero;
     _lineHeightStack := newTagStack fzero;
     _allCapsStack := newTagStack false;
     _lowercaseStack := newTagStack false;
     _smallCapsStack := newTagStack false;
     _superscriptStack := newTagStack false;
     _subscriptStack := newTagStack false;
     _charScaleStack := newTagStack f1;
     _rotationStack := newTagStack fzero;
     _gradientStack := newTagStack [];
     _widthStack := newTagStack fzero;
     _styleNameStack := newTagStack [];
     _lineIndentStack := newTagStack fzero;
     boldCount := 0; italicCount := 0; underlineCount := 0; strikethroughCount := 0;
     styleSheet := None;
     _registry := fold_left (fun reg t => register t reg) registrationOrder ∅ |}.

(** The stacks are reset at the start of [parse]; the counters are not
    among them. *)
Definition resetStacks (baseFontSize : number) (baseColor : Z) (p : RichTextParser)
  : RichTextParser :=
  {| _colorStack := reset baseColor (_colorStack p);
     _sizeStack := reset baseFontSize (_sizeStack p);
     _boldStack := reset false (_boldStack p);
     _italicStack := reset false (_italicStack p);
     _underlineStack := reset false (_underlineStack p);
     _strikethroughStack := reset false (_strikethroughStack p);
     _cspaceStack := reset fzero (_cspaceStack p);
     _mspaceStack := reset fzero (_mspaceStack p);
     _nobrStack := reset false (_nobrStack p);
     _alignStack := reset [] (_alignStack p);
     _voffsetStack := reset fzero (_voffsetStack p);
     _indentStack := reset fzero (_indentStack p);
     _marginStack := reset fzero (_marginStack p);
     _lineHeightStack := reset fzero (_lineHeightStack p);
     _allCapsStack := reset false (_allCapsStack p);
     _lowercaseStack := reset false (_lowercaseStack p);
     _smallCapsStack := reset false (_smallCapsStack p);
     _superscriptStack := reset false (_superscriptStack p);
     _subscriptStack := reset false (_subscriptStack p);
     _charScaleStack := reset f1 (_charScaleStack p);
     _rotationStack := reset fzero (_rotationStack p);
     _gradientStack := reset [] (_gradientStack p);
     _widthStack := reset fzero (_widthStack p);
     _styleNameStack := reset [] (_styleNameStack p);
     _lineIndentStack := reset fzero (_lineIndentStack p);
     boldCount := boldCount p; italicCount := italicCount p;
     underlineCount := underlineCount p; strikethroughCount := strikethroughCount p;
     styleSheet := styleSheet p;
     _registry := _registry p |}.

(** [value.split(',')]. *)
Fixpoint splitComma (s : jsstring) : list jsstring :=
  match s with
  | [] => [[]]
  | c :: r =>
    if (c =? 44)%Z then [] :: splitComma r
    else match splitComma r with
         | h :: t => (c :: h) :: t
         | [] => [[c]]
         end
  end.

Definition parseGradientValue `{CaseOps} (value : jsstring) : list Z :=
  map parseColor
    (List.filter (fun s => negb (length s =? 0)) (map trim (splitComma value))).

(** The handlers work on the parser object and the style state. *)
Definition HandlerState : Type := RichTextParser * StyleState.

Definition openToggle (count : RichTextParser -> Z)
    (setCount : Z -> RichTextParser -> RichTextParser)
    (stack : RichTextParser -> TagStack bool)
    (setStack : TagStack bool -> RichTextParser -> RichTextParser)
    (setFlag : bool -> StyleState -> StyleState) (ps : HandlerState) : HandlerState :=
  let '(p, s) := ps in
  let p := setCount (count p + 1)%Z p in
  let p := setStack (push true (stack p)) p in
  (p, setFlag true s).

Definition closeToggle (count : RichTextParser -> Z)
    (setCount : Z -> RichTextParser -> RichTextParser)
    (stack : RichTextParser -> TagStack bool)
    (setStack : TagStack bool -> RichTextParser -> RichTextParser)
    (setFlag : bool -> StyleState -> StyleState) (ps : HandlerState) : HandlerState :=
  let '(p, s) := ps in
  let p := setCount (Z.max 0 (count p - 1))%Z p in
  let p := setStack (pop (stack p)) p in
  (p, setFlag (0 <? count p)%Z s).

Definition openFlag (stack : RichTextParser -> TagStack bool)
    (setStack : TagStack bool -> RichTextParser -> RichTextParser)
    (setFlag : bool -> StyleState -> StyleState) (ps : HandlerState) : HandlerState :=
  let '(p, s) := ps in (setStack (push true (stack p)) p, setFlag true s).

Definition closeFlag (stack : RichTextParser -> TagStack bool)
    (setStack : TagStack bool -> RichTextParser -> RichTextParser)
    (setFlag : bool -> StyleState -> StyleState) (ps : HandlerState) : HandlerState :=
  let '(p, s) := ps in
  let st := pop (stack p) in (setStack st p, setFlag (current st) s).

Definition openNum (v : number) (stack : RichTextParser -> TagStack number)
    (setStack : TagStack number -> RichTextParser -> RichTextParser)
    (setField : number -> StyleState -> StyleState) (ps : HandlerState) : HandlerState :=
  let '(p, s) := ps in (setStack (push v (stack p)) p, setField v s).

Definition closeNum (stack : RichTextParser -> TagStack number)
    (setStack : TagStack number -> RichTextParser -> RichTextParser)
    (setField : number -> StyleState -> StyleState) (ps : HandlerState) : HandlerState :=
  let '(p, s) := ps in
  let st := pop (stack p) in (setStack st p, setField (current st) s).

Definition openScript (flagStack : RichTextParser -> TagStack bool)
    (setFlagStack : TagStack bool -> RichTextParser -> RichTextParser)
    (setFlag : bool -> StyleState -> StyleState)
    (offsetFactor : number) (baseFontSize : number) (ps : HandlerState) : HandlerState :=
  let ps := openFlag flagStack setFlagStack setFlag ps in
  let sizeMultiplier := f0_5 in
  let newSize := fmul (fontSize (snd ps)) sizeMultiplier in
  let ps := openNum newSize _sizeStack set_sizeStack set_fontSize ps in
  let offset := fmul baseFontSize offsetFactor in
  openNum offset _voffsetStack set_voffsetStack set_voffset ps.

Definition closeScript (flagStack : RichTextParser -> TagStack bool)
    (setFlagStack : TagStack bool -> RichTextParser -> RichTextParser)
    (setFlag : bool -> StyleState -> StyleState) (ps : HandlerState) : HandlerState :=
  let ps := closeFlag flagStack setFlagStack setFlag ps in
  let ps := closeNum _sizeStack set_sizeStack set_fontSize ps in
  closeNum _voffsetStack set_voffsetStack set_voffset ps.

Definition onOpen `{CaseOps} (t : Tag) (value : jsstring) (baseFontSize : number)
    (ps : HandlerState) : HandlerState :=
  let '(p, s) := ps in
  match t with
  | T_color =>
    let color := parseColor value in
    (set_colorStack (push color (_colorStack p)) p, set_color color s)
  | T_b => openToggle boldCount set_boldCount _boldStack set_boldStack set_bold ps
  | T_i => openToggle italicCount set_italicCount _italicStack set_italicStack set_italic ps
  | T_u =>
    openToggle underlineCount set_underlineCount _underlineStack set_underlineStack
      set_underline ps
  | T_s | T_strikethrough =>
    openToggle strikethroughCount set_strikethroughCount _strikethroughStack
      set_strikethroughStack set_strikethrough ps
  | T_size =>
    let trimmed := trim value in
    let size :=
      if startsWith trimmed (js "+") || startsWith trimmed (js "-")
      then fadd (fontSize s) (parseFloat trimmed)
      else parseUnit trimmed baseFontSize in
    openNum size _sizeStack set_sizeStack set_fontSize ps
  | T_cspace =>
    openNum (parseUnit value baseFontSize) _cspaceStack set_cspaceStack set_cspace ps
  | T_mspace | T_duospace =>
    openNum (parseUnit value baseFontSize) _mspaceStack set_mspaceStack set_mspace ps
  | T_nobr => openFlag _nobrStack set_nobrStack set_isNoBreak ps
  | T_align =>
    let a := toLowerCase value in
    (set_alignStack (push a (_alignStack p)) p, set_align a s)
  | T_voffset =>
    openNum (parseUnit value baseFontSize) _voffsetStack set_voffsetStack set_voffset ps
  | T_indent =>
    openNum (parseUnit value baseFontSize) _indentStack set_indentStack set_indent ps
  | T_margin | T_padding =>
    let margin := parseUnit value baseFontSize in
    (set_marginStack (push margin (_marginStack p)) p,
     set_marginRight margin (set_marginLeft margin s))
  | T_margin_left => (p, set_marginLeft (parseUnit value baseFontSize) s)
  | T_margin_right => (p, set_marginRight (parseUnit value baseFontSize) s)
  | T_line_height =>
    openNum (parseUnit value baseFontSize) _lineHeightStack set_lineHeightStack
      set_lineHeightOverride ps
  | T_line_indent =>
    openNum (parseUnit value baseFontSize) _lineIndentStack set_lineIndentStack
      set_lineIndent ps
  | T_allcaps | T_uppercase => openFlag _allCapsStack set_allCapsStack set_isAllCaps ps
  | T_lowercase => openFlag _lowercaseStack set_lowercaseStack set_isLowercase ps
  | T_smallcaps => openFlag _smallCapsStack set_smallCapsStack set_isSmallCaps ps
  | T_sup =>
    openScript _superscriptStack set_superscriptStack set_isSuperscript f0_35neg
      baseFontSize ps
  | T_sub =>
    openScript _subscriptStack set_subscriptStack set_isSubscript f0_15 baseFontSize ps
  | T_scale =>
    let n := parseFloat value in
    if negb (isNaN n) then openNum n _charScaleStack set_charScaleStack set_charScale ps
    else ps
  | T_rotate =>
    let n := parseFloat value in
    if negb (isNaN n) then openNum n _rotationStack set_rotationStack set_rotation ps
    else ps
  | T_gradient =>
    let colors := parseGradientValue value in
    if 2 <=? length colors
    then (set_gradientStack (push colors (_gradientStack p)) p, set_gradientColors colors s)
    else ps
  | T_width =>
    openNum (parseUnit value baseFontSize) _widthStack set_widthStack set_widthConstraint ps
  (* handled in the parser, or acting on fields left out only *)
  | T_alpha | T_mark | T_link | T_a | T_font | T_font_weight | T_material
  | T_br | T_nbsp | T_zwsp | T_softhyphen | T_shy | T_en_space | T_em_space
  | T_noparse | T_cr | T_zwj | T_space | T_pos | T_style => ps
  end.

Definition onClose (t : Tag) (ps : HandlerState) : HandlerState :=
  let '(p, s) := ps in
  match t with
  | T_color =>
    let st := pop (_colorStack p) in (set_colorStack st p, set_color (current st) s)
  | T_b => closeToggle boldCount set_boldCount _boldStack set_boldStack set_bold ps
  | T_i => closeToggle italicCount set_italicCount _italicStack set_italicStack set_italic ps
  | T_u =>
    closeToggle underlineCount set_underlineCount _underlineStack set_underlineStack
      set_underline ps
  | T_s | T_strikethrough =>
    closeToggle strikethroughCount set_strikethroughCount _strikethroughStack
      set_strikethroughStack set_strikethrough ps
  | T_size => closeNum _sizeStack set_sizeStack set_fontSize ps
  | T_cspace => closeNum _cspaceStack set_cspaceStack set_cspace ps
  | T_mspace | T_duospace => closeNum _mspaceStack set_mspaceStack set_mspace ps
  | T_nobr => closeFlag _nobrStack set_nobrStack set_isNoBreak ps
  | T_align =>
    let st := pop (_alignStack p) in (set_alignStack st p, set_align (current st) s)
  | T_voffset => closeNum _voffsetStack set_voffsetStack set_voffset ps
  | T_indent => closeNum _indentStack set_indentStack set_indent ps
  | T_margin | T_padding =>
    let st := pop (_marginStack p) in
    let prev := current st in
    (set_marginStack st p, set_marginRight prev (set_marginLeft prev s))
  | T_margin_left => (p, set_marginLeft fzero s)
  | T_margin_right => (p, set_marginRight fzero s)
  | T_line_height =>
    closeNum _lineHeightStack set_lineHeightStack set_lineHeightOverride ps
  | T_line_indent => closeNum _lineIndentStack set_lineIndentStack set_lineIndent ps
  | T_allcaps | T_uppercase => closeFlag _allCapsStack set_allCapsStack set_isAllCaps ps
  | T_lowercase => closeFlag _lowercaseStack set_lowercaseStack set_isLowercase ps
  | T_smallcaps => closeFlag _smallCapsStack set_smallCapsStack set_isSmallCaps ps
  | T_sup => closeScript _superscriptStack set_superscriptStack set_isSuperscript ps
  | T_sub => closeScript _subscriptStack set_subscriptStack set_isSubscript ps
  | T_scale => closeNum _charScaleStack set_charScaleStack set_charScale ps
  | T_rotate => closeNum _rotationStack set_rotationStack set_rotation ps
  | T_gradient =>
    let st := pop (_gradientStack p) in
    (set_gradientStack st p, set_gradientColors (current st) s)
  | T_width => closeNum _widthStack set_widthStack set_widthConstraint ps
  | T_alpha | T_mark | T_link | T_a | T_font | T_font_weight | T_material
  | T_br | T_nbsp | T_zwsp | T_softhyphen | T_shy | T_en_space | T_em_space
  | T_noparse | T_cr | T_zwj | T_space | T_pos | T_style => ps
  end.

(** * parser/RichTextParser.ts *)

Record TagParseResult : Type := mkTagParseResult {
  tagName : jsstring;
  tagNameHash : Z;
  tagValue : jsstring;
  isClosing : bool;
  (** Number of characters consumed from the source (including < and >). *)
  tagLength : nat;
}.

Definition LT : Z := 60.   (* '<' *)
Definition GT : Z := 62.   (* '>' *)
Definition DQUOTE : jsstring := [34%Z].
Definition SQUOTE : jsstring := [39%Z].

Definition stripQuotePair (value : jsstring) : jsstring :=
  if (startsWith value DQUOTE && endsWith value DQUOTE)
     || (startsWith value SQUOTE && endsWith value SQUOTE)
  then slice_1_m1 value else value.

Definition _tryParseTag `{CaseOps} (text : jsstring) (pos : nat) : option TagParseResult :=
  if negb (bool_decide (text !! pos = Some LT)) then None
  else
    match indexOfFrom GT (pos + 1) text with
    | None => None
    | Some closeIdx =>
      let tagLen := closeIdx - pos + 1 in
      if 128 <? tagLen then None
      else
        let inner := trim (substring (pos + 1) closeIdx text) in
        if length inner =? 0 then None
        else
          let isClosing := bool_decide (inner !! 0 = Some 47%Z) in
          let content := if isClosing then trim (drop 1 inner) else inner in
          let eqIdx := indexOf 61%Z content in
          let spaceIdx := indexOf 32%Z content in
          let standard (e : nat) :=
            (trim (substring 0 e content),
             stripQuotePair (trim (drop (e + 1) content))) in
          let attribute (sp : nat) :=
            (trim (substring 0 sp content), trim (drop (sp + 1) content)) in
          let '(tagName, value) :=
            match eqIdx, spaceIdx with
            | Some e, None => standard e
            | Some e, Some sp => if e <? sp then standard e else attribute sp
            | None, Some sp => attribute sp
            | None, None => (trim content, [])
            end in
          if length tagName =? 0 then None
          else Some {| tagName := tagName;
                       tagNameHash := hashCode (toLowerCase tagName);
                       tagValue := value;
                       isClosing := isClosing;
                       tagLength := tagLen |}
    end.

(** The entry a tag resolves to in the registry, applied to the state. *)
Definition dispatch `{CaseOps} (tag : TagParseResult) (entry : Tag)
    (baseFontSize : number) (ps : HandlerState) : HandlerState :=
  if isClosing tag then onClose entry ps
  else onOpen entry (tagValue tag) baseFontSize ps.

Fixpoint _applyStylePresetOpen `{CaseOps} (fuel : nat) (openMarkup : jsstring)
    (baseFontSize : number) (j : nat) (ps : HandlerState) : HandlerState :=
  match fuel with
  | 0 => ps
  | S fuel' =>
    if j <? length openMarkup then
      match _tryParseTag openMarkup j with
      | Some tag =>
        if negb (isClosing tag) then
          let ps' :=
            match getByHash (tagNameHash tag) (_registry (fst ps)) with
            | Some entry => onOpen entry (tagValue tag) baseFontSize ps
            | None => ps
            end in
          _applyStylePresetOpen fuel' openMarkup baseFontSize (j + tagLength tag) ps'
        else _applyStylePresetOpen fuel' openMarkup baseFontSize (j + 1) ps
      | None => _applyStylePresetOpen fuel' openMarkup baseFontSize (j + 1) ps
      end
    else ps
  end.

Fixpoint _applyStylePresetClose `{CaseOps} (fuel : nat) (closeMarkup : jsstring)
    (j : nat) (ps : HandlerState) : HandlerState :=
  match fuel with
  | 0 => ps
  | S fuel' =>
    if j <? length closeMarkup then
      match _tryParseTag closeMarkup j with
      | Some tag =>
        if isClosing tag then
          let ps' :=
            match getByHash (tagNameHash tag) (_registry (fst ps)) with
            | Some entry => onClose entry ps
            | None => ps
            end in
          _applyStylePresetClose fuel' closeMarkup (j + tagLength tag) ps'
        else _applyStylePresetClose fuel' closeMarkup (j + 1) ps
      | None => _applyStylePresetClose fuel' closeMarkup (j + 1) ps
      end
    else ps
  end.

(** The variables of the loop of [parse]. *)
Record ParseState : Type := mkParseState {
  ps_i : nat;
  ps_result : list ParsedChar;
  ps_state : StyleState;
  ps_noparse : bool;
  ps_pendingSpace : number;
  ps_pendingPos : number;
  ps_parser : RichTextParser;
}.

(** [i += n; continue]. *)
Definition advance (n : nat) (st : ParseState) : ParseState :=
  mkParseState (ps_i st + n) (ps_result st) (ps_state st) (ps_noparse st)
    (ps_pendingSpace st) (ps_pendingPos st) (ps_parser st).

(** [result.push(pc)]. *)
Definition emit (pc : ParsedChar) (st : ParseState) : ParseState :=
  mkParseState (ps_i st) (ps_result st ++ [pc]) (ps_state st) (ps_noparse st)
    (ps_pendingSpace st) (ps_pendingPos st) (ps_parser st).

Definition setHandlerState (hs : HandlerState) (st : ParseState) : ParseState :=
  mkParseState (ps_i st) (ps_result st) (snd hs) (ps_noparse st)
    (ps_pendingSpace st) (ps_pendingPos st) (fst hs).

Definition setNoparse (b : bool) (st : ParseState) : ParseState :=
  mkParseState (ps_i st) (ps_result st) (ps_state st) b
    (ps_pendingSpace st) (ps_pendingPos st) (ps_parser st).

Definition setPendingSpace (v : number) (st : ParseState) : ParseState :=
  mkParseState (ps_i st) (ps_result st) (ps_state st) (ps_noparse st)
    v (ps_pendingPos st) (ps_parser st).

Definition setPendingPos (v : number) (st : ParseState) : ParseState :=
  mkParseState (ps_i st) (ps_result st) (ps_state st) (ps_noparse st)
    (ps_pendingSpace st) v (ps_parser st).

(** The pending space and position go to [pc] and are cleared: the code
    shared by the sprite branch and the regular-character branch. *)
Definition applyPending (pc : ParsedChar) (st : ParseState) : ParsedChar * ParseState :=
  let '(pc, st) :=
    if negb (feq (ps_pendingSpace st) fzero)
    then (pc_set_extraSpace (ps_pendingSpace st) pc, setPendingSpace fzero st)
    else (pc, st) in
  if negb (isNaN (ps_pendingPos st))
  then (pc_set_fixedPosition (ps_pendingPos st) pc, setPendingPos NaN st)
  else (pc, st).

(** A synthetic record: [result.push(createParsedChar(c, i, state)); i += tag.length]. *)
Definition emitMark (c : Z) (noBreak : bool) (tag : TagParseResult) (st : ParseState)
  : ParseState :=
  let pc := createParsedChar [c] (ps_i st) (ps_state st) in
  let pc := if noBreak then pc_set_style (set_isNoBreak true (style pc)) pc else pc in
  advance (tagLength tag) (emit pc st).

Definition isHex3to8 (s : jsstring) : bool :=
  forallb (fun c => bool_decide (is_Some (hexDigit c))) s
  && (3 <=? length s) && (length s <=? 8).

(** The style tag, when a style sheet is set. *)
Definition styleTag `{CaseOps} (sheet : TMPStyleSheet) (tag : TagParseResult)
    (baseFontSize : number) (st : ParseState) : ParseState :=
  let p := ps_parser st in
  let st' :=
    if negb (isClosing tag) then
      match styleSheet_get sheet (tagValue tag) with
      | Some preset =>
        let p := set_styleNameStack (push (tagValue tag) (_styleNameStack p)) p in
        setHandlerState
          (_applyStylePresetOpen (length (preset_open preset)) (preset_open preset)
             baseFontSize 0 (p, ps_state st)) st
      | None => st
      end
    else
      let styleName := current (_styleNameStack p) in
      let p := set_styleNameStack (pop (_styleNameStack p)) p in
      let preset :=
        if negb (length styleName =? 0) then styleSheet_get sheet styleName else None in
      match preset with
      | Some preset =>
        setHandlerState
          (_applyStylePresetClose (length (preset_close preset)) (preset_close preset)
             0 (p, ps_state st)) st
      | None => setHandlerState (p, ps_state st) st
      end in
  advance (tagLength tag) st'.

(** What [parse] does with a tag that [_tryParseTag] read at [i]; [None]
    when the tag is not handled and the '<' is to be emitted literally. *)
Definition handleTag `{CaseOps} (tag : TagParseResult) (baseFontSize : number)
    (st : ParseState) : option ParseState :=
  let lowerName := toLowerCase (tagName tag) in
  let named (name : String.string) := str_eqb lowerName (js name) && negb (isClosing tag) in
  if named "noparse" then Some (advance (tagLength tag) (setNoparse true st))
  else if named "br" then Some (emitMark 10 false tag st)
  else if named "nbsp" then Some (emitMark 160 true tag st)
  else if named "zwsp" then Some (emitMark 8203 false tag st)
  else if named "softhyphen" || named "shy" then Some (emitMark 173 false tag st)
  else if named "en-space" then Some (emitMark 8194 false tag st)
  else if named "em-space" then Some (emitMark 8195 false tag st)
  else if named "cr" then Some (emitMark 13 false tag st)
  else if named "zwj" then Some (emitMark 8205 false tag st)
  else if named "space" then
    Some (advance (tagLength tag)
            (setPendingSpace
               (fadd (ps_pendingSpace st) (parseUnit (tagValue tag) baseFontSize)) st))
  else if named "pos" then
    Some (advance (tagLength tag)
            (setPendingPos (parseUnit (tagValue tag) baseFontSize) st))
  else if named "sprite" then
    let pc := createParsedChar [65532%Z] (ps_i st) (ps_state st) in
    let pc := pc_set_spriteValue (tagValue tag) (pc_set_isSprite true pc) in
    let '(pc, st) := applyPending pc st in
    Some (advance (tagLength tag) (emit pc st))
  else
    match (if str_eqb lowerName (js "style") then styleSheet (ps_parser st) else None) with
    | Some sheet => Some (styleTag sheet tag baseFontSize st)
    | None =>
      match getByHash (tagNameHash tag) (_registry (ps_parser st)) with
      | Some entry =>
        Some (advance (tagLength tag)
                (setHandlerState
                   (dispatch tag entry baseFontSize (ps_parser st, ps_state st)) st))
      | None => None
      end
    end.

(** The standalone colour shorthand at [i]: the colour and the index of
    the closing '>' when [text[i + 1]] is '#' and a hexadecimal string of
    3 to 8 digits follows. *)
Definition colorShorthand `{CaseOps} (text : jsstring) (i : nat) : option (Z * nat) :=
  if bool_decide (text !! (i + 1) = Some 35%Z) then
    match indexOfFrom GT (i + 2) text with
    | Some closeIdx =>
      let hexStr := trim (substring (i + 2) closeIdx text) in
      if isHex3to8 hexStr then Some (parseColor (js "#" ++ hexStr), closeIdx) else None
    | None => None
    end
  else None.

Definition isColorClose (text : jsstring) (i : nat) : bool :=
  bool_decide (text !! (i + 1) = Some 47%Z)
  && bool_decide (text !! (i + 2) = Some 35%Z)
  && bool_decide (text !! (i + 3) = Some GT).

Definition emitLiteralLT (st : ParseState) : ParseState :=
  advance 1 (emit (createParsedChar [LT] (ps_i st) (ps_state st)) st).

(** The case transforms of a regular character. *)
Definition caseTransform `{CaseOps} (state : StyleState) (pc : ParsedChar) : ParsedChar :=
  if isAllCaps state then
    let c := toUpperCase (char pc) in
    pc_set_charCode (default (charCode pc) (codePointAt0 c)) (pc_set_char c pc)
  else if isLowercase state then
    let c := toLowerCase (char pc) in
    pc_set_charCode (default (charCode pc) (codePointAt0 c)) (pc_set_char c pc)
  else if isSmallCaps state then
    let upper := toUpperCase (char pc) in
    if negb (str_eqb (char pc) upper) then
      let pc := pc_set_charCode (default (charCode pc) (codePointAt0 upper))
                  (pc_set_char upper pc) in
      pc_set_style (set_fontSize (fmul (fontSize (style pc)) f0_8) (style pc)) pc
    else pc
  else pc.

(** One iteration of the loop of [parse], for [i < text.length]. *)
Definition parseStep `{CaseOps} (text : jsstring) (baseFontSize : number)
    (st : ParseState) : ParseState :=
  let i := ps_i st in
  let char := default 0%Z (text !! i) in
  if (char =? LT)%Z && ps_noparse st then
    if str_eqb (toLowerCase (substring i (i + 10) text)) (js "</noparse>")
    then advance 10 (setNoparse false st)
    else emitLiteralLT st
  else if (char =? LT)%Z then
    match colorShorthand text i with
    | Some (color, closeIdx) =>
      let p := ps_parser st in
      let st := setHandlerState
                  (set_colorStack (push color (_colorStack p)) p,
                   set_color color (ps_state st)) st in
      advance (closeIdx + 1 - i) st
    | None =>
      if isColorClose text i then
        let p := ps_parser st in
        let stack := pop (_colorStack p) in
        advance 4 (setHandlerState
                     (set_colorStack stack p, set_color (current stack) (ps_state st)) st)
      else
        match _tryParseTag text i with
        | Some tag =>
          match handleTag tag baseFontSize st with
          | Some st' => st'
          | None => emitLiteralLT st
          end
        | None => emitLiteralLT st
        end
    end
  else if (char =? 10)%Z then
    let pc := pc_set_isLineBreak true (createParsedChar [10%Z] i (ps_state st)) in
    advance 1 (emit pc st)
  else if (char =? 13)%Z then advance 1 st
  else
    let pc := createParsedChar [char] i (ps_state st) in
    let '(pc, st) := applyPending pc st in
    let pc := caseTransform (ps_state st) pc in
    advance 1 (emit pc st).

Fixpoint parseLoop `{CaseOps} (fuel : nat) (text : jsstring) (baseFontSize : number)
    (st : ParseState) : ParseState :=
  match fuel with
  | 0 => st
  | S fuel' =>
    if ps_i st <? length text
    then parseLoop fuel' text baseFontSize (parseStep text baseFontSize st)
    else st
  end.

(** ** The gradient post-process *)

Definition rshift (a : Z) (n : Z) : Z := Z.shiftr (wrap_int32 a) n.
Definition lshift (a : Z) (n : Z) : Z := wrap_int32 (Z.shiftl (wrap_int32 a) n).

Definition lerpChannel (a b : Z) (t : number) : Z :=
  ToInt32 (Math_round (fadd (of_Z a) (fmul (fsub (of_Z b) (of_Z a)) t))).

Definition lerpColor (a b : Z) (t : number) : Z :=
  let ar := Z.land (rshift a 16) 255 in
  let ag := Z.land (rshift a 8) 255 in
  let ab := Z.land (wrap_int32 a) 255 in
  let br := Z.land (rshift b 16) 255 in
  let bg := Z.land (rshift b 8) 255 in
  let bb := Z.land (wrap_int32 b) 255 in
  let r := lerpChannel ar br t in
  let g := lerpChannel ag bg t in
  let blue := lerpChannel ab bb t in
  Z.lor (Z.lor (lshift r 16) (lshift g 8)) blue.

Definition setColorAt (i : nat) (c : Z) (chars : list ParsedChar) : list ParsedChar :=
  match chars !! i with
  | Some pc => <[i := pc_set_style (set_color c (style pc)) pc]> chars
  | None => chars
  end.

(** The loop of interpolateRegion: [n] characters from index [i] on. *)
Fixpoint interpolateLoop (n : nat) (chars : list ParsedChar) (start i : nat)
    (count : nat) (c0 c1 : Z) : list ParsedChar :=
  match n with
  | 0 => chars
  | S n' =>
    let t := fdiv (of_nat (i - start)) (of_nat count) in
    interpolateLoop n' (setColorAt i (lerpColor c0 c1 t) chars) start (i + 1) count c0 c1
  end.

(** [colors[0]] and [colors[1]]; the callers pass arrays of two or more. *)
Definition interpolateRegion (chars : list ParsedChar) (start end_ : nat)
    (colors : list Z) : list ParsedChar :=
  let c0 := default 0%Z (colors !! 0) in
  let c1 := default 0%Z (colors !! 1) in
  let count := end_ - start in
  if count =? 0 then setColorAt start c0 chars
  else interpolateLoop (count + 1) chars start start count c0 c1.

Record GradState : Type := mkGradState {
  g_chars : list ParsedChar;
  (** [None] stands for -1. *)
  gradStart : option nat;
  gradColors : list Z;
}.

Definition gradientStep (len : nat) (i : nat) (g : GradState) : GradState :=
  let gc := if i <? len
            then match g_chars g !! i with
                 | Some pc => gradientColors (style pc)
                 | None => []
                 end
            else [] in
  let isGrad := 2 <=? length gc in
  let sameGrad :=
    isGrad && (2 <=? length (gradColors g))
    && bool_decide (gc !! 0 = gradColors g !! 0)
    && bool_decide (gc !! 1 = gradColors g !! 1) in
  let g :=
    match gradStart g with
    | Some start =>
      if negb sameGrad
      then mkGradState (interpolateRegion (g_chars g) start (i - 1) (gradColors g))
             None (gradColors g)
      else g
    | None => g
    end in
  match gradStart g with
  | None => if isGrad then mkGradState (g_chars g) (Some i) gc else g
  | Some _ => g
  end.

(** [for (let i = 0; i <= chars.length; i++)]: [n] iterations from [i] on. *)
Fixpoint gradientLoop (n : nat) (len : nat) (i : nat) (g : GradState) : GradState :=
  match n with
  | 0 => g
  | S n' => gradientLoop n' len (i + 1) (gradientStep len i g)
  end.

Definition applyGradients (chars : list ParsedChar) : list ParsedChar :=
  g_chars (gradientLoop (length chars + 1) (length chars) 0
             (mkGradState chars None [])).

(** [parse]: the records and the parser object afterwards. The base font
    family only reaches fields that are left out. *)
Definition parse `{CaseOps} (p : RichTextParser) (text : jsstring)
    (baseFontSize : number) (baseColor : Z) (baseFontFamily : jsstring)
  : list ParsedChar * RichTextParser :=
  let p := resetStacks baseFontSize baseColor p in
  let state := createDefaultStyleState baseFontSize baseColor in
  let st := parseLoop (length text) text baseFontSize
              (mkParseState 0 [] state false fzero NaN p) in
  (applyGradients (ps_result st), ps_parser st).

(** * font/TMPFont.ts *)

Record Texture : Type := mkTexture { orig_width : number; orig_height : number }.

Record CharData : Type := mkCharData {
  xOffset : number;
  yOffset : number;
  xAdvance : number;
  kerning : list (jsstring * number);
  texture : option Texture;
}.

(** A font object: its glyph table (a record from character to data),
    the names of its fallback fonts and the metrics the layout reads. *)
Record TMPFont : Type := mkTMPFont {
  chars : list (jsstring * CharData);
  fallbackFonts : list jsstring;
  baseMeasurementFontSize : number;
  lineHeight : number;
  baseLineOffset : number;
  ascent : number;
  descent : number;
  superscriptOffset : number;
  subscriptOffset : number;
  tabWidth : number;
  boldStyle : number;
  boldSpacing : number;
}.

(** Font objects are compared by identity (the visited set is a
    [Set<TMPFont>]): a font is named by its address in the heap. *)
Abbreviation FontId := nat (only parsing).
Definition FontHeap : Type := FontId -> TMPFont.

(** [TMPFont._registry]: lower-cased name to font object. *)
Definition FontRegistry : Type := gmap jsstring FontId.

Definition getFont `{CaseOps} (registry : FontRegistry) (name : jsstring) : option FontId :=
  registry !! toLowerCase name.

(** The result of one call: the glyph and the font it was found in
    ([None] for undefined), the visited set as the call leaves it, and the
    fonts whose glyph table the call and its recursive calls read, in
    order (a ghost of the model). The outer [None] is the model's only:
    the fuel ran out. *)
Definition LookupResult : Type := option (CharData * FontId) * gset FontId * list FontId.

(** The loop over the fallback names of one call; [recurse] is the
    recursive call [fb.getCharWithFallback(char, visited)]. *)
Fixpoint fallbackLoop `{CaseOps} (registry : FontRegistry)
    (recurse : FontId -> gset FontId -> option LookupResult)
    (names : list jsstring) (visited : gset FontId) (seen : list FontId)
  : option LookupResult :=
  match names with
  | [] => Some (None, visited, seen)
  | fbName :: rest =>
    match getFont registry fbName with
    | Some fb =>
      if bool_decide (fb ∈ visited) then fallbackLoop registry recurse rest visited seen
      else
        match recurse fb visited with
        | None => None
        | Some (Some result, visited', seen') => Some (Some result, visited', seen ++ seen')
        | Some (None, visited', seen') =>
          fallbackLoop registry recurse rest visited' (seen ++ seen')
        end
    | None => fallbackLoop registry recurse rest visited seen
    end
  end.

Fixpoint getCharWithFallback_from `{CaseOps} (fuel : nat) (heap : FontHeap)
    (registry : FontRegistry) (this : FontId) (char : jsstring)
    (_visited : gset FontId) : option LookupResult :=
  match fuel with
  | 0 => None
  | S fuel' =>
    match assoc char (chars (heap this)) with
    | Some charData => Some (Some (charData, this), _visited, [this])
    | None =>
      let visited := {[this]} ∪ _visited in
      fallbackLoop registry
        (fun fb visited => getCharWithFallback_from fuel' heap registry fb char visited)
        (fallbackFonts (heap this)) visited [this]
    end
  end.

(** The font objects a lookup from [this] can reach: [this] and the
    registered ones. *)
Definition fontObjects (registry : FontRegistry) (this : FontId) : gset FontId :=
  {[this]} ∪ map_img registry.

(** The call of the layout engine: no visited set is passed. Each nested
    call visits a font object not visited before, so one unit of fuel per
    font object and one more suffice. *)
Definition lookupFuel (registry : FontRegistry) (this : FontId) : nat :=
  S (size (fontObjects registry this)).

Definition getCharWithFallback `{CaseOps} (heap : FontHeap) (registry : FontRegistry)
    (this : FontId) (char : jsstring) : option (CharData * FontId) :=
  match getCharWithFallback_from (lookupFuel registry this) heap registry this char ∅ with
  | Some (result, _, _) => result
  | None => None
  end.

(** * core/TMPTextStyle.ts, sprites/InlineSpriteData.ts, core/types.ts *)

Inductive OverflowMode : Type := overflow | truncate | ellipsis.

Definition overflowMode_eqb (a b : OverflowMode) : bool :=
  match a, b with
  | overflow, overflow | truncate, truncate | ellipsis, ellipsis => true
  | _, _ => false
  end.

(** The options of the text style that the layout reads. *)
Record TMPTextStyle : Type := mkTMPTextStyle {
  style_fontSize : number;
  style_align : jsstring;
  style_containerHeight : number;
  style_wordWrap : bool;
  style_wordWrapWidth : number;
  style_breakWords : bool;
  style_lineHeight : number;
  style_lineSpacingAdjustment : number;
  style_letterSpacing : number;
  style_wordSpacing : number;
  style_paragraphSpacing : number;
  style_characterSpacing : number;
  style_overflowMode : OverflowMode;
  style_marginLeft : number;
  style_marginTop : number;
  style_marginRight : number;
}.

Record InlineSpriteEntry : Type := mkInlineSpriteEntry {
  sprite_textureWidth : number;
  sprite_textureHeight : number;
  sprite_width : number;
  sprite_height : number;
  sprite_xAdvance : number;
  sprite_yOffset : number;
}.

(** The sprite a sprite record resolves to: parseSpriteTag on the tag's
    value followed by the lookup of InlineSpriteManager that the layout
    selects, taken as one function of the value. *)
Definition SpriteLookup : Type := jsstring -> option InlineSpriteEntry.

(** A positioned character. The fields copied from the parsed character
    for rendering only (texture, scale, color, alpha, bold, italic,
    underline, strikethrough, markColor, charScale, rotation, elementType,
    material) are left out. *)
Record CharacterInfo : Type := mkCharacterInfo {
  ci_index : nat;
  ci_char : jsstring;
  ci_isVisible : bool;
  ci_x : number;
  ci_y : number;
  ci_width : number;
  ci_height : number;
  ci_lineIndex : nat;
  ci_wordIndex : nat;
  ci_origin : number;
  ci_xAdvance : number;
  ci_ascender : number;
  ci_descender : number;
}.

Definition set_ci_isVisible (v : bool) (c : CharacterInfo) : CharacterInfo :=
  mkCharacterInfo (ci_index c) (ci_char c) v (ci_x c) (ci_y c) (ci_width c) (ci_height c)
    (ci_lineIndex c) (ci_wordIndex c) (ci_origin c) (ci_xAdvance c) (ci_ascender c)
    (ci_descender c).
Definition set_ci_x (v : number) (c : CharacterInfo) : CharacterInfo :=
  mkCharacterInfo (ci_index c) (ci_char c) (ci_isVisible c) v (ci_y c) (ci_width c)
    (ci_height c) (ci_lineIndex c) (ci_wordIndex c) (ci_origin c) (ci_xAdvance c)
    (ci_ascender c) (ci_descender c).
Definition set_ci_lineIndex (v : nat) (c : CharacterInfo) : CharacterInfo :=
  mkCharacterInfo (ci_index c) (ci_char c) (ci_isVisible c) (ci_x c) (ci_y c) (ci_width c)
    (ci_height c) v (ci_wordIndex c) (ci_origin c) (ci_xAdvance c) (ci_ascender c)
    (ci_descender c).
Definition set_ci_wordIndex (v : nat) (c : CharacterInfo) : CharacterInfo :=
  mkCharacterInfo (ci_index c) (ci_char c) (ci_isVisible c) (ci_x c) (ci_y c) (ci_width c)
    (ci_height c) (ci_lineIndex c) v (ci_origin c) (ci_xAdvance c) (ci_ascender c)
    (ci_descender c).
Definition set_ci_origin (v : number) (c : CharacterInfo) : CharacterInfo :=
  mkCharacterInfo (ci_index c) (ci_char c) (ci_isVisible c) (ci_x c) (ci_y c) (ci_width c)
    (ci_height c) (ci_lineIndex c) (ci_wordIndex c) v (ci_xAdvance c) (ci_ascender c)
    (ci_descender c).
Definition set_ci_xAdvance (v : number) (c : CharacterInfo) : CharacterInfo :=
  mkCharacterInfo (ci_index c) (ci_char c) (ci_isVisible c) (ci_x c) (ci_y c) (ci_width c)
    (ci_height c) (ci_lineIndex c) (ci_wordIndex c) (ci_origin c) v (ci_ascender c)
    (ci_descender c).
Definition set_ci_ascender (v : number) (c : CharacterInfo) : CharacterInfo :=
  mkCharacterInfo (ci_index c) (ci_char c) (ci_isVisible c) (ci_x c) (ci_y c) (ci_width c)
    (ci_height c) (ci_lineIndex c) (ci_wordIndex c) (ci_origin c) (ci_xAdvance c) v
    (ci_descender c).
Definition set_ci_descender (v : number) (c : CharacterInfo) : CharacterInfo :=
  mkCharacterInfo (ci_index c) (ci_char c) (ci_isVisible c) (ci_x c) (ci_y c) (ci_width c)
    (ci_height c) (ci_lineIndex c) (ci_wordIndex c) (ci_origin c) (ci_xAdvance c)
    (ci_ascender c) v.

Record LineInfo : Type := mkLineInfo {
  li_firstCharIndex : Z;
  li_lastCharIndex : Z;
  li_characterCount : Z;
  li_width : number;
  li_height : number;
  li_baseline : number;
  li_y : number;
  li_alignmentOffset : number;
  li_alignment : jsstring;
  li_spaceCount : nat;
  li_ascender : number;
  li_descender : number;
  li_firstVisibleCharIndex : Z;
  li_lastVisibleCharIndex : Z;
  li_visibleCharacterCount : nat;
  li_maxAdvance : number;
}.

Definition set_li_lastCharIndex (v : Z) (l : LineInfo) : LineInfo :=
  mkLineInfo (li_firstCharIndex l) v (li_characterCount l) (li_width l) (li_height l)
    (li_baseline l) (li_y l) (li_alignmentOffset l) (li_alignment l) (li_spaceCount l)
    (li_ascender l) (li_descender l) (li_firstVisibleCharIndex l) (li_lastVisibleCharIndex l)
    (li_visibleCharacterCount l) (li_maxAdvance l).
Definition set_li_characterCount (v : Z) (l : LineInfo) : LineInfo :=
  mkLineInfo (li_firstCharIndex l) (li_lastCharIndex l) v (li_width l) (li_height l)
    (li_baseline l) (li_y l) (li_alignmentOffset l) (li_alignment l) (li_spaceCount l)
    (li_ascender l) (li_descender l) (li_firstVisibleCharIndex l) (li_lastVisibleCharIndex l)
    (li_visibleCharacterCount l) (li_maxAdvance l).
Definition set_li_width (v : number) (l : LineInfo) : LineInfo :=
  mkLineInfo (li_firstCharIndex l) (li_lastCharIndex l) (li_characterCount l) v (li_height l)
    (li_baseline l) (li_y l) (li_alignmentOffset l) (li_alignment l) (li_spaceCount l)
    (li_ascender l) (li_descender l) (li_firstVisibleCharIndex l) (li_lastVisibleCharIndex l)
    (li_visibleCharacterCount l) (li_maxAdvance l).

Record WordInfo : Type := mkWordInfo {
  wi_firstCharIndex : nat;
  wi_lastCharIndex : Z;
  wi_characterCount : nat;
  wi_width : number;
  wi_lineIndex : nat;
}.

(** The layout result. An array whose [length] was set beyond its end has
    empty slots: [None] in [ti_characterInfo]. Width and the link regions
    are left out. *)
Record TextInfo : Type := mkTextInfo {
  ti_characterInfo : list (option CharacterInfo);
  ti_lineInfo : list LineInfo;
  ti_wordInfo : list WordInfo;
  ti_characterCount : nat;
  ti_lineCount : nat;
  ti_wordCount : nat;
  ti_height : number;
}.

(** * layout/LineMetrics.ts, layout/CharacterInfoPool.ts *)

Definition createLineInfo (firstCharIndex : Z) (y height : number) (alignment : jsstring)
  : LineInfo :=
  {| li_firstCharIndex := firstCharIndex;
     li_lastCharIndex := firstCharIndex;
     li_characterCount := 0;
     li_width := fzero;
     li_height := height;
     li_baseline := fadd y height;
     li_y := y;
     li_alignmentOffset := fzero;
     li_alignment := alignment;
     li_spaceCount := 0;
     li_ascender := fzero;
     li_descender := fzero;
     li_firstVisibleCharIndex := -1;
     li_lastVisibleCharIndex := -1;
     li_visibleCharacterCount := 0;
     li_maxAdvance := fzero |}.

(** A record from the pool. A recycled record keeps the origin, advance,
    ascender and descender of its last use until they are set; the layout
    reads none of them before setting them, and the new record stands for
    both. *)
Definition acquireCharacterInfo : CharacterInfo :=
  {| ci_index := 0; ci_char := []; ci_isVisible := false;
     ci_x := fzero; ci_y := fzero; ci_width := fzero; ci_height := fzero;
     ci_lineIndex := 0; ci_wordIndex := 0;
     ci_origin := fzero; ci_xAdvance := fzero;
     ci_ascender := fzero; ci_descender := fzero |}.

(** * layout/TMPLayoutEngine.ts *)

(** [pc.charScale], where a local variable is named charScale as well. *)
Definition charScale_of (pc : ParsedChar) : number := charScale (style pc).

Definition SOFT_HYPHEN : Z := 173.
Definition HYPHEN_MINUS : Z := 45.

Definition createCharacterInfo (index : nat) (pc : ParsedChar)
    (x y width height : number) (lineIndex wordIndex : nat) : CharacterInfo :=
  let ci := acquireCharacterInfo in
  {| ci_index := index; ci_char := char pc; ci_isVisible := false;
     ci_x := x; ci_y := y; ci_width := width; ci_height := height;
     ci_lineIndex := lineIndex; ci_wordIndex := wordIndex;
     ci_origin := ci_origin ci; ci_xAdvance := ci_xAdvance ci;
     ci_ascender := ci_ascender ci; ci_descender := ci_descender ci |}.

(** The scan of finalizeLine from the last character down to the first
    of the line: the x of the first of the trailing spaces. *)
Fixpoint trimTrailing (backwards : list CharacterInfo) (trimmedWidth : number) : number :=
  match backwards with
  | c :: r =>
    if str_eqb (ci_char c) (js " ") then trimTrailing r (ci_x c) else trimmedWidth
  | [] => trimmedWidth
  end.

(** The first and last visible index among [cs], which start at index [i]. *)
Fixpoint visibleRange (cs : list CharacterInfo) (i : Z) (firstV lastV : Z) : Z * Z :=
  match cs with
  | c :: r =>
    if ci_isVisible c
    then visibleRange r (i + 1) (if (firstV <? 0)%Z then i else firstV) i
    else visibleRange r (i + 1) firstV lastV
  | [] => (firstV, lastV)
  end.

Definition finalizeLine (line : LineInfo) (allChars : list CharacterInfo) (width : number)
    (spaceCount visibleCount : nat) (maxAscender maxDescender : number) : LineInfo :=
  let first := Z.to_nat (li_firstCharIndex line) in
  let trimmedWidth := trimTrailing (rev (drop first allChars)) width in
  let width' := if fgt trimmedWidth fzero then trimmedWidth else width in
  let asc := if fgt maxAscender negInfinity then maxAscender else fzero in
  let desc := if flt maxDescender Infinity then maxDescender else fzero in
  if first <? length allChars then
    let last := (Z.of_nat (length allChars) - 1)%Z in
    let maxAdvance :=
      match allChars !! Z.to_nat last with
      | Some lastChar => ci_xAdvance lastChar
      | None => li_maxAdvance line
      end in
    let '(firstV, lastV) :=
      visibleRange (drop first allChars) (li_firstCharIndex line) (-1) (-1) in
    {| li_firstCharIndex := li_firstCharIndex line;
       li_lastCharIndex := last;
       li_characterCount := (last - li_firstCharIndex line + 1)%Z;
       li_width := width';
       li_height := li_height line;
       li_baseline := li_baseline line;
       li_y := li_y line;
       li_alignmentOffset := li_alignmentOffset line;
       li_alignment := li_alignment line;
       li_spaceCount := spaceCount;
       li_ascender := asc;
       li_descender := desc;
       li_firstVisibleCharIndex := firstV;
       li_lastVisibleCharIndex := lastV;
       li_visibleCharacterCount := visibleCount;
       li_maxAdvance := maxAdvance |}
  else
    {| li_firstCharIndex := li_firstCharIndex line;
       li_lastCharIndex := li_lastCharIndex line;
       li_characterCount := li_characterCount line;
       li_width := width';
       li_height := li_height line;
       li_baseline := li_baseline line;
       li_y := li_y line;
       li_alignmentOffset := li_alignmentOffset line;
       li_alignment := li_alignment line;
       li_spaceCount := spaceCount;
       li_ascender := asc;
       li_descender := desc;
       li_firstVisibleCharIndex := li_firstVisibleCharIndex line;
       li_lastVisibleCharIndex := li_lastVisibleCharIndex line;
       li_visibleCharacterCount := visibleCount;
       li_maxAdvance := li_maxAdvance line |}.

(** The variables of [layout] that its loop and [flushWord] update. *)
Record LayoutState : Type := mkLayoutState {
  characterInfo : list CharacterInfo;
  lineInfos : list LineInfo;
  wordInfos : list WordInfo;
  cursorX : number;
  cursorY : number;
  lineIndex : nat;
  wordIndex : nat;
  maxWidth : number;
  currentLineHeight : number;
  lineMaxAscender : number;
  lineMaxDescender : number;
  currentLine : LineInfo;
  wordBuffer : list CharacterInfo;
  wordWidth : number;
  wordStart : nat;
  isFirstWord : bool;
  lineSpaceCount : nat;
  lineVisibleCount : nat;
  softHyphenBreakIndex : option nat;
  previousChar : option jsstring;
}.

Definition set_characterInfo (v : list CharacterInfo) (st : LayoutState) : LayoutState :=
  mkLayoutState v (lineInfos st) (wordInfos st) (cursorX st) (cursorY st) (lineIndex st)
    (wordIndex st) (maxWidth st) (currentLineHeight st) (lineMaxAscender st)
    (lineMaxDescender st) (currentLine st) (wordBuffer st) (wordWidth st) (wordStart st)
    (isFirstWord st) (lineSpaceCount st) (lineVisibleCount st) (softHyphenBreakIndex st)
    (previousChar st).
Definition set_lineInfos (v : list LineInfo) (st : LayoutState) : LayoutState :=
  mkLayoutState (characterInfo st) v (wordInfos st) (cursorX st) (cursorY st) (lineIndex st)
    (wordIndex st) (maxWidth st) (currentLineHeight st) (lineMaxAscender st)
    (lineMaxDescender st) (currentLine st) (wordBuffer st) (wordWidth st) (wordStart st)
    (isFirstWord st) (lineSpaceCount st) (lineVisibleCount st) (softHyphenBreakIndex st)
    (previousChar st).
Definition set_wordInfos (v : list WordInfo) (st : LayoutState) : LayoutState :=
  mkLayoutState (characterInfo st) (lineInfos st) v (cursorX st) (cursorY st) (lineIndex st)
    (wordIndex st) (maxWidth st) (currentLineHeight st) (lineMaxAscender st)
    (lineMaxDescender st) (currentLine st) (wordBuffer st) (wordWidth st) (wordStart st)
    (isFirstWord st) (lineSpaceCount st) (lineVisibleCount st) (softHyphenBreakIndex st)
    (previousChar st).
Definition set_cursorX (v : number) (st : LayoutState) : LayoutState :=
  mkLayoutState (characterInfo st) (lineInfos st) (wordInfos st) v (cursorY st) (lineIndex st)
    (wordIndex st) (maxWidth st) (currentLineHeight st) (lineMaxAscender st)
    (lineMaxDescender st) (currentLine st) (wordBuffer st) (wordWidth st) (wordStart st)
    (isFirstWord st) (lineSpaceCount st) (lineVisibleCount st) (softHyphenBreakIndex st)
    (previousChar st).
Definition set_cursorY (v : number) (st : LayoutState) : LayoutState :=
  mkLayoutState (characterInfo st) (lineInfos st) (wordInfos st) (cursorX st) v (lineIndex st)
    (wordIndex st) (maxWidth st) (currentLineHeight st) (lineMaxAscender st)
    (lineMaxDescender st) (currentLine st) (wordBuffer st) (wordWidth st) (wordStart st)
    (isFirstWord st) (lineSpaceCount st) (lineVisibleCount st) (softHyphenBreakIndex st)
    (previousChar st).
Definition set_lineIndex (v : nat) (st : LayoutState) : LayoutState :=
  mkLayoutState (characterInfo st) (lineInfos st) (wordInfos st) (cursorX st) (cursorY st) v
    (wordIndex st) (maxWidth st) (currentLineHeight st) (lineMaxAscender st)
    (lineMaxDescender st) (currentLine st) (wordBuffer st) (wordWidth st) (wordStart st)
    (isFirstWord st) (lineSpaceCount st) (lineVisibleCount st) (softHyphenBreakIndex st)
    (previousChar st).
Definition set_wordIndex (v : nat) (st : LayoutState) : LayoutState :=
  mkLayoutState (characterInfo st) (lineInfos st) (wordInfos st) (cursorX st) (cursorY st)
    (lineIndex st) v (maxWidth st) (currentLineHeight st) (lineMaxAscender st)
    (lineMaxDescender st) (currentLine st) (wordBuffer st) (wordWidth st) (wordStart st)
    (isFirstWord st) (lineSpaceCount st) (lineVisibleCount st) (softHyphenBreakIndex st)
    (previousChar st).
Definition set_maxWidth (v : number) (st : LayoutState) : LayoutState :=
  mkLayoutState (characterInfo st) (lineInfos st) (wordInfos st) (cursorX st) (cursorY st)
    (lineIndex st) (wordIndex st) v (currentLineHeight st) (lineMaxAscender st)
    (lineMaxDescender st) (currentLine st) (wordBuffer st) (wordWidth st) (wordStart st)
    (isFirstWord st) (lineSpaceCount st) (lineVisibleCount st) (softHyphenBreakIndex st)
    (previousChar st).
Definition set_currentLineHeight (v : number) (st : LayoutState) : LayoutState :=
  mkLayoutState (characterInfo st) (lineInfos st) (wordInfos st) (cursorX st) (cursorY st)
    (lineIndex st) (wordIndex st) (maxWidth st) v (lineMaxAscender st) (lineMaxDescender st)
    (currentLine st) (wordBuffer st) (wordWidth st) (wordStart st) (isFirstWord st)
    (lineSpaceCount st) (lineVisibleCount st) (softHyphenBreakIndex st) (previousChar st).
Definition set_lineMaxAscender (v : number) (st : LayoutState) : LayoutState :=
  mkLayoutState (characterInfo st) (lineInfos st) (wordInfos st) (cursorX st) (cursorY st)
    (lineIndex st) (wordIndex st) (maxWidth st) (currentLineHeight st) v (lineMaxDescender st)
    (currentLine st) (wordBuffer st) (wordWidth st) (wordStart st) (isFirstWord st)
    (lineSpaceCount st) (lineVisibleCount st) (softHyphenBreakIndex st) (previousChar st).
Definition set_lineMaxDescender (v : number) (st : LayoutState) : LayoutState :=
  mkLayoutState (characterInfo st) (lineInfos st) (wordInfos st) (cursorX st) (cursorY st)
    (lineIndex st) (wordIndex st) (maxWidth st) (currentLineHeight st) (lineMaxAscender st) v
    (currentLine st) (wordBuffer st) (wordWidth st) (wordStart st) (isFirstWord st)
    (lineSpaceCount st) (lineVisibleCount st) (softHyphenBreakIndex st) (previousChar st).
Definition set_currentLine (v : LineInfo) (st : LayoutState) : LayoutState :=
  mkLayoutState (characterInfo st) (lineInfos st) (wordInfos st) (cursorX st) (cursorY st)
    (lineIndex st) (wordIndex st) (maxWidth st) (currentLineHeight st) (lineMaxAscender st)
    (lineMaxDescender st) v (wordBuffer st) (wordWidth st) (wordStart st) (isFirstWord st)
    (lineSpaceCount st) (lineVisibleCount st) (softHyphenBreakIndex st) (previousChar st).
Definition set_wordBuffer (v : list CharacterInfo) (st : LayoutState) : LayoutState :=
  mkLayoutState (characterInfo st) (lineInfos st) (wordInfos st) (cursorX st) (cursorY st)
    (lineIndex st) (wordIndex st) (maxWidth st) (currentLineHeight st) (lineMaxAscender st)
    (lineMaxDescender st) (currentLine st) v (wordWidth st) (wordStart st) (isFirstWord st)
    (lineSpaceCount st) (lineVisibleCount st) (softHyphenBreakIndex st) (previousChar st).
Definition set_wordWidth (v : number) (st : LayoutState) : LayoutState :=
  mkLayoutState (characterInfo st) (lineInfos st) (wordInfos st) (cursorX st) (cursorY st)
    (lineIndex st) (wordIndex st) (maxWidth st) (currentLineHeight st) (lineMaxAscender st)
    (lineMaxDescender st) (currentLine st) (wordBuffer st) v (wordStart st) (isFirstWord st)
    (lineSpaceCount st) (lineVisibleCount st) (softHyphenBreakIndex st) (previousChar st).
Definition set_wordStart (v : nat) (st : LayoutState) : LayoutState :=
  mkLayoutState (characterInfo st) (lineInfos st) (wordInfos st) (cursorX st) (cursorY st)
    (lineIndex st) (wordIndex st) (maxWidth st) (currentLineHeight st) (lineMaxAscender st)
    (lineMaxDescender st) (currentLine st) (wordBuffer st) (wordWidth st) v (isFirstWord st)
    (lineSpaceCount st) (lineVisibleCount st) (softHyphenBreakIndex st) (previousChar st).
Definition set_isFirstWord (v : bool) (st : LayoutState) : LayoutState :=
  mkLayoutState (characterInfo st) (lineInfos st) (wordInfos st) (cursorX st) (cursorY st)
    (lineIndex st) (wordIndex st) (maxWidth st) (currentLineHeight st) (lineMaxAscender st)
    (lineMaxDescender st) (currentLine st) (wordBuffer st) (wordWidth st) (wordStart st) v
    (lineSpaceCount st) (lineVisibleCount st) (softHyphenBreakIndex st) (previousChar st).
Definition set_lineSpaceCount (v : nat) (st : LayoutState) : LayoutState :=
  mkLayoutState (characterInfo st) (lineInfos st) (wordInfos st) (cursorX st) (cursorY st)
    (lineIndex st) (wordIndex st) (maxWidth st) (currentLineHeight st) (lineMaxAscender st)
    (lineMaxDescender st) (currentLine st) (wordBuffer st) (wordWidth st) (wordStart st)
    (isFirstWord st) v (lineVisibleCount st) (softHyphenBreakIndex st) (previousChar st).
Definition set_lineVisibleCount (v : nat) (st : LayoutState) : LayoutState :=
  mkLayoutState (characterInfo st) (lineInfos st) (wordInfos st) (cursorX st) (cursorY st)
    (lineIndex st) (wordIndex st) (maxWidth st) (currentLineHeight st) (lineMaxAscender st)
    (lineMaxDescender st) (currentLine st) (wordBuffer st) (wordWidth st) (wordStart st)
    (isFirstWord st) (lineSpaceCount st) v (softHyphenBreakIndex st) (previousChar st).
Definition set_softHyphenBreakIndex (v : option nat) (st : LayoutState) : LayoutState :=
  mkLayoutState (characterInfo st) (lineInfos st) (wordInfos st) (cursorX st) (cursorY st)
    (lineIndex st) (wordIndex st) (maxWidth st) (currentLineHeight st) (lineMaxAscender st)
    (lineMaxDescender st) (currentLine st) (wordBuffer st) (wordWidth st) (wordStart st)
    (isFirstWord st) (lineSpaceCount st) (lineVisibleCount st) v (previousChar st).
Definition set_previousChar (v : option jsstring) (st : LayoutState) : LayoutState :=
  mkLayoutState (characterInfo st) (lineInfos st) (wordInfos st) (cursorX st) (cursorY st)
    (lineIndex st) (wordIndex st) (maxWidth st) (currentLineHeight st) (lineMaxAscender st)
    (lineMaxDescender st) (currentLine st) (wordBuffer st) (wordWidth st) (wordStart st)
    (isFirstWord st) (lineSpaceCount st) (lineVisibleCount st) (softHyphenBreakIndex st) v.

Section Layout.
Context `{CaseOps}.
(** The parsed characters ([chars] in the source), the font with the
    heap and registry its fallback lookup reads, the style and the
    sprite lookup. *)
Variable parsed : list ParsedChar.
Variable heap : FontHeap.
Variable registry : FontRegistry.
Variable fontId : FontId.
Variable tstyle : TMPTextStyle.
Variable sprites : SpriteLookup.

Definition font : TMPFont := heap fontId.
Definition baseFontSize : number := baseMeasurementFontSize font.
Definition styleMarginLeft : number := style_marginLeft tstyle.
Definition styleMarginRight : number := style_marginRight tstyle.
Definition styleAlign : jsstring := style_align tstyle.

Definition baseLineHeight : number :=
  fadd (if fgt (style_lineHeight tstyle) fzero
        then style_lineHeight tstyle
        else fmul (lineHeight font) (fdiv (style_fontSize tstyle) baseFontSize))
       (style_lineSpacingAdjustment tstyle).

(** [pc.align || styleAlign]. *)
Definition getAlign (pc : ParsedChar) : jsstring :=
  if negb (length (align (style pc)) =? 0) then align (style pc) else styleAlign.

Definition getWrapWidth (pc : ParsedChar) : number :=
  let base := if fgt (widthConstraint (style pc)) fzero
              then widthConstraint (style pc)
              else style_wordWrapWidth tstyle in
  fsub (fsub (fsub (fsub base (marginLeft (style pc))) (marginRight (style pc)))
          styleMarginLeft) styleMarginRight.

Definition isJustifiedOrFlush (align : jsstring) : bool :=
  str_eqb align (js "justified") || str_eqb align (js "flush").

(** [chars[k]]; the indices the layout uses are those of characters it
    has read, so the default is never taken. *)
Definition parsedAt (k : nat) : ParsedChar :=
  default (createParsedChar [] 0 (createDefaultStyleState fzero 0)) (parsed !! k).

(** [currentLine.lastCharIndex = characterInfo.length - 1] and the count. *)
Definition touchLine (n : nat) (line : LineInfo) : LineInfo :=
  let last := (Z.of_nat n - 1)%Z in
  set_li_characterCount (last - li_firstCharIndex line + 1)%Z
    (set_li_lastCharIndex last line).

(** The end of a line: it is finalized and pushed, and the cursor moves
    to the start of the next one; [extra] is the paragraph spacing of an
    explicit break. *)
Definition closeLine (extra : option number) (st : LayoutState) : LayoutState :=
  let line := finalizeLine (currentLine st) (characterInfo st) (cursorX st)
                (lineSpaceCount st) (lineVisibleCount st)
                (lineMaxAscender st) (lineMaxDescender st) in
  let st := set_lineInfos (lineInfos st ++ [line]) st in
  let st := set_maxWidth (Math_max (maxWidth st) (li_width line)) st in
  let st := set_lineIndex (lineIndex st + 1) st in
  let dy :=
    if fgt (lineMaxAscender st) negInfinity && flt (lineMaxDescender st) Infinity
    then fsub (lineMaxAscender st) (lineMaxDescender st)
    else currentLineHeight st in
  let dy := match extra with Some e => fadd dy e | None => dy end in
  let st := set_cursorY (fadd (cursorY st) dy) st in
  let st := set_cursorX styleMarginLeft st in
  let st := set_lineSpaceCount 0 st in
  let st := set_lineVisibleCount 0 st in
  let st := set_lineMaxAscender negInfinity st in
  set_lineMaxDescender Infinity st.

(** [currentLine = createLineInfo(characterInfo.length, cursorY,
    currentLineHeight, align); isFirstWord = true]. *)
Definition openLine (alignment : jsstring) (st : LayoutState) : LayoutState :=
  set_isFirstWord true
    (set_currentLine
       (createLineInfo (Z.of_nat (length (characterInfo st))) (cursorY st)
          (currentLineHeight st) alignment) st).

(** [for (const ci of wordBuffer) { ci.x += cursorX; ci.lineIndex =
    lineIndex; ci.wordIndex = wordIndex; characterInfo.push(ci); }]. *)
Definition placeWord (st : LayoutState) (buffer : list CharacterInfo)
  : list CharacterInfo :=
  map (fun ci =>
         set_ci_wordIndex (wordIndex st)
           (set_ci_lineIndex (lineIndex st)
              (set_ci_x (fadd (ci_x ci) (cursorX st)) ci))) buffer.

(** The decision of flushWord, for a word buffer that is not empty. *)
Definition addToNextLine (st : LayoutState) : bool :=
  match wordBuffer st with
  | [] => false
  | first :: _ =>
    let wrapWidth := getWrapWidth (parsedAt (ci_index first)) in
    let effectiveAlign := getAlign (parsedAt (ci_index first)) in
    let tolerance := if isJustifiedOrFlush effectiveAlign then f1_05 else f1 in
    negb (isFirstWord st) && style_wordWrap tstyle
    && fgt (fadd (cursorX st) (wordWidth st)) (fmul wrapWidth tolerance)
  end.

Definition flushWord (st : LayoutState) : LayoutState :=
  match wordBuffer st with
  | [] => st
  | first :: _ =>
    let st :=
      if addToNextLine st then
        let st := closeLine None st in
        let firstPC := parsedAt (ci_index first) in
        let st := if fgt (indent (style firstPC)) fzero
                  then set_cursorX (indent (style firstPC)) st else st in
        let st := if fgt (marginLeft (style firstPC)) fzero
                  then set_cursorX (fadd (cursorX st) (marginLeft (style firstPC))) st
                  else st in
        openLine (getAlign firstPC) st
      else st in
    let st := set_characterInfo (characterInfo st ++ placeWord st (wordBuffer st)) st in
    let st := set_currentLine (touchLine (length (characterInfo st)) (currentLine st)) st in
    let st := set_cursorX (fadd (cursorX st) (wordWidth st)) st in
    let st := set_currentLine (set_li_width (cursorX st) (currentLine st)) st in
    let st := set_isFirstWord false st in
    let st :=
      set_wordInfos
        (wordInfos st ++
         [ {| wi_firstCharIndex := wordStart st;
              wi_lastCharIndex := (Z.of_nat (length (characterInfo st)) - 1)%Z;
              wi_characterCount := length (wordBuffer st);
              wi_width := wordWidth st;
              wi_lineIndex := lineIndex st |} ]) st in
    let st := set_wordIndex (wordIndex st + 1) st in
    let st := set_wordBuffer [] st in
    let st := set_wordWidth fzero st in
    let st := set_wordStart (length (characterInfo st)) st in
    set_softHyphenBreakIndex None st
  end.

(** A character that is pushed at the cursor with no glyph (line break,
    tab, zero-width space): [origin] and [xAdvance] are the cursor. *)
Definition pushAtCursor (i : nat) (pc : ParsedChar) (st : LayoutState) : LayoutState :=
  let ci := createCharacterInfo i pc (cursorX st) (cursorY st) fzero fzero
              (lineIndex st) (wordIndex st) in
  let ci := set_ci_xAdvance (cursorX st) (set_ci_origin (cursorX st) ci) in
  set_characterInfo (characterInfo st ++ [ci]) st.

Definition lineBreakStep (i : nat) (pc : ParsedChar) (st : LayoutState) : LayoutState :=
  let st := flushWord st in
  let st := pushAtCursor i pc st in
  let currentEmScale := fmul (style_fontSize tstyle) f0_01 in
  let paragraphExtra := fmul (style_paragraphSpacing tstyle) currentEmScale in
  let st := closeLine (Some paragraphExtra) st in
  let st := set_currentLineHeight baseLineHeight st in
  let st :=
    match parsed !! (i + 1) with
    | Some nextPC =>
      let st := if fgt (indent (style nextPC)) fzero
                then set_cursorX (indent (style nextPC)) st else st in
      let st := if fgt (marginLeft (style nextPC)) fzero
                then set_cursorX (fadd (cursorX st) (marginLeft (style nextPC))) st
                else st in
      let st := if fgt (lineIndent (style nextPC)) fzero
                then set_cursorX (fadd (cursorX st) (lineIndent (style nextPC))) st
                else st in
      openLine (getAlign nextPC) st
    | None => openLine styleAlign st
    end in
  set_previousChar None st.

Definition tabStep (i : nat) (pc : ParsedChar) (st : LayoutState) : LayoutState :=
  let st := flushWord st in
  let tabW := if fgt (tabWidth font) fzero
              then fmul (tabWidth font) (fdiv (style_fontSize tstyle) baseFontSize)
              else fmul (style_fontSize tstyle) f4 in
  let st :=
    if fgt tabW fzero then
      let x := fmul (Math_ceil (fdiv (cursorX st) tabW)) tabW in
      set_cursorX (if feq x fzero then tabW else x) st
    else st in
  let st := pushAtCursor i pc st in
  let st := set_currentLine (set_li_width (cursorX st) (currentLine st)) st in
  let st := set_currentLine (touchLine (length (characterInfo st)) (currentLine st)) st in
  let st := set_wordStart (length (characterInfo st)) st in
  set_previousChar None st.

Definition spriteStep (i : nat) (pc : ParsedChar) (st : LayoutState) : LayoutState :=
  let st :=
    match sprites (spriteValue pc) with
    | Some sprite =>
      let spriteScale := fdiv (fontSize (style pc)) baseFontSize in
      let w := fmul (f_or (sprite_width sprite) (sprite_textureWidth sprite)) spriteScale in
      let h := fmul (f_or (sprite_height sprite) (sprite_textureHeight sprite))
                 spriteScale in
      let adv := fmul (f_or (sprite_xAdvance sprite) w) spriteScale in
      let yOff := fmul (sprite_yOffset sprite) spriteScale in
      let ci := createCharacterInfo i pc (wordWidth st) yOff w h
                  (lineIndex st) (wordIndex st) in
      let ci := set_ci_isVisible true ci in
      let ci := set_ci_origin (fadd (cursorX st) (wordWidth st)) ci in
      let ci := set_ci_xAdvance (fadd (fadd (cursorX st) (wordWidth st)) adv) ci in
      let ci := set_ci_ascender (fneg yOff) ci in
      let ci := set_ci_descender (fsub (fneg yOff) h) ci in
      let st := set_lineMaxAscender (Math_max (lineMaxAscender st) (ci_ascender ci)) st in
      let st := set_lineMaxDescender (Math_min (lineMaxDescender st) (ci_descender ci)) st in
      let st := set_lineVisibleCount (lineVisibleCount st + 1) st in
      let st := set_wordBuffer (wordBuffer st ++ [ci]) st in
      set_wordWidth (fadd (wordWidth st) adv) st
    | None => st
    end in
  set_previousChar None st.

Definition zeroWidthSpaceStep (i : nat) (pc : ParsedChar) (st : LayoutState)
  : LayoutState :=
  let st := flushWord st in
  let st := pushAtCursor i pc st in
  let st := set_currentLine (touchLine (length (characterInfo st)) (currentLine st)) st in
  let st := set_wordStart (length (characterInfo st)) st in
  set_previousChar None st.

(** The break at a soft hyphen: the part of the word before it and a
    visible hyphen end the current line, the rest starts the next. *)
Definition softHyphenBreak (pc : ParsedChar) (adv : number) (k : nat)
    (hyphenChar : CharData) (st : LayoutState) : LayoutState :=
  let prevInBuffer := default acquireCharacterInfo (wordBuffer st !! (k - 1)) in
  let hyphenScale :=
    fdiv (fontSize (style (parsedAt (ci_index prevInBuffer)))) baseFontSize in
  let hx := fadd (ci_x prevInBuffer) (ci_width prevInBuffer) in
  let horigin := fadd (fadd (cursorX st) (ci_x prevInBuffer)) (ci_width prevInBuffer) in
  let hyphenCi :=
    {| ci_index := ci_index prevInBuffer;
       ci_char := [HYPHEN_MINUS];
       ci_isVisible := true;
       ci_x := hx;
       ci_y := ci_y prevInBuffer;
       ci_width := match texture hyphenChar with
                   | Some t => fmul (orig_width t) hyphenScale
                   | None => fzero
                   end;
       ci_height := match texture hyphenChar with
                    | Some t => fmul (orig_height t) hyphenScale
                    | None => fzero
                    end;
       ci_lineIndex := lineIndex st;
       ci_wordIndex := wordIndex st;
       ci_origin := horigin;
       ci_xAdvance := fadd horigin (fmul (xAdvance hyphenChar) hyphenScale);
       ci_ascender := fmul (ascent font) hyphenScale;
       ci_descender := fmul (descent font) hyphenScale |} in
  let firstHalf := take k (wordBuffer st) ++ [hyphenCi] in
  let remainingBuffer := drop k (wordBuffer st) in
  let st := set_characterInfo (characterInfo st ++ placeWord st firstHalf) st in
  let st :=
    fold_left
      (fun st c =>
         let st := if ci_isVisible c
                   then set_lineVisibleCount (lineVisibleCount st + 1) st else st in
         let st := set_lineMaxAscender (Math_max (lineMaxAscender st) (ci_ascender c)) st in
         set_lineMaxDescender (Math_min (lineMaxDescender st) (ci_descender c)) st)
      firstHalf st in
  let firstHalfWidth := fsub (ci_xAdvance hyphenCi) (cursorX st) in
  let st := set_cursorX (fadd (cursorX st) firstHalfWidth) st in
  let st := set_currentLine (set_li_width (cursorX st) (currentLine st)) st in
  let st := set_currentLine (touchLine (length (characterInfo st)) (currentLine st)) st in
  let st := closeLine None st in
  let st := if fgt (marginLeft (style pc)) fzero
            then set_cursorX (fadd (cursorX st) (marginLeft (style pc))) st else st in
  let st := openLine (getAlign pc) st in
  let st := set_wordIndex (wordIndex st + 1) st in
  let offsetX := match remainingBuffer with c :: _ => ci_x c | [] => fzero end in
  let shifted := map (fun c => set_ci_x (fsub (ci_x c) offsetX) c) remainingBuffer in
  let st :=
    set_wordWidth
      (fold_left (fun w c => Math_max w (fadd (ci_x c) (f_or (ci_width c) adv)))
         shifted fzero) st in
  let st := set_wordBuffer shifted st in
  let st := set_wordStart (length (characterInfo st)) st in
  set_softHyphenBreakIndex None st.

(** The forced break of break-words mode before the character [pc]. *)
Definition breakWordsStep (pc : ParsedChar) (adv : number) (st : LayoutState)
  : LayoutState :=
  let wrapWidth := getWrapWidth pc in
  let effectiveAlign := getAlign pc in
  let tolerance := if isJustifiedOrFlush effectiveAlign then f1_05 else f1 in
  if style_breakWords tstyle && style_wordWrap tstyle
     && fgt (fadd (fadd (cursorX st) (wordWidth st)) adv) (fmul wrapWidth tolerance)
     && (0 <? length (wordBuffer st))
  then
    match softHyphenBreakIndex st with
    | Some k =>
      if (0 <? k) && (k <? length (wordBuffer st)) then
        match assoc [HYPHEN_MINUS] (chars font) with
        | Some hyphenChar => softHyphenBreak pc adv k hyphenChar st
        | None => st
        end
      else
        let st := flushWord st in
        let st := closeLine None st in
        let st := if fgt (marginLeft (style pc)) fzero
                  then set_cursorX (fadd (cursorX st) (marginLeft (style pc))) st
                  else st in
        openLine (getAlign pc) st
    | None =>
      let st := flushWord st in
      let st := closeLine None st in
      let st := if fgt (marginLeft (style pc)) fzero
                then set_cursorX (fadd (cursorX st) (marginLeft (style pc))) st
                else st in
      openLine (getAlign pc) st
    end
  else st.

(** A character with a glyph (its own, a fallback font's, or the
    space's). *)
Definition glyphStep (i : nat) (pc : ParsedChar) (charData : CharData)
    (st : LayoutState) : LayoutState :=
  let charScale := fdiv (fontSize (style pc)) baseFontSize in
  let totalCharScale := fmul charScale (charScale_of pc) in
  let effectiveVOffset :=
    if isSuperscript (style pc) && negb (feq (superscriptOffset font) fzero)
    then fmul (superscriptOffset font) charScale
    else if isSubscript (style pc) && negb (feq (subscriptOffset font) fzero)
    then fmul (subscriptOffset font) charScale
    else voffset (style pc) in
  let isSpace := existsb isWhiteSpace (char pc) in
  let kern :=
    match previousChar st with
    | Some prev =>
      if negb (length prev =? 0) then default fzero (assoc prev (kerning charData))
      else fzero
    | None => fzero
    end in
  let emSpacing :=
    fmul (fmul (style_characterSpacing tstyle) (fontSize (style pc))) f0_01 in
  let letterSpacing :=
    fmul (fadd (fadd (style_letterSpacing tstyle) (cspace (style pc))) emSpacing)
      (fdiv baseFontSize (fontSize (style pc))) in
  let boldExtra :=
    if bold (style pc) then fmul (fdiv (boldSpacing font) baseFontSize) totalCharScale
    else fzero in
  let adv :=
    if fgt (mspace (style pc)) fzero then fmul (mspace (style pc)) (charScale_of pc)
    else fadd (fmul (fadd (fadd (xAdvance charData) kern) letterSpacing) totalCharScale)
           boldExtra in
  let st :=
    if isSpace && negb (isNoBreak (style pc)) then
      let st := flushWord st in
      let ci := createCharacterInfo i pc (cursorX st) (cursorY st) fzero fzero
                  (lineIndex st) (wordIndex st) in
      let ci := set_ci_origin (cursorX st) ci in
      let ci := set_ci_xAdvance
                  (fadd (fadd (cursorX st) adv) (style_wordSpacing tstyle)) ci in
      let ci := set_ci_ascender (fmul (ascent font) charScale) ci in
      let ci := set_ci_descender (fmul (descent font) charScale) ci in
      let st := set_characterInfo (characterInfo st ++ [ci]) st in
      let st := set_cursorX (fadd (cursorX st) (fadd adv (style_wordSpacing tstyle))) st in
      let st := set_currentLine (set_li_width (cursorX st) (currentLine st)) st in
      let st := set_currentLine
                  (touchLine (length (characterInfo st)) (currentLine st)) st in
      let st := set_lineSpaceCount (lineSpaceCount st + 1) st in
      set_wordStart (length (characterInfo st)) st
    else if isSpace && isNoBreak (style pc) then
      let ci := createCharacterInfo i pc (wordWidth st) fzero fzero fzero
                  (lineIndex st) (wordIndex st) in
      let ci := set_ci_origin (fadd (cursorX st) (wordWidth st)) ci in
      let ci := set_ci_xAdvance (fadd (fadd (cursorX st) (wordWidth st)) adv) ci in
      let ci := set_ci_ascender (fmul (ascent font) charScale) ci in
      let ci := set_ci_descender (fmul (descent font) charScale) ci in
      let st := set_wordBuffer (wordBuffer st ++ [ci]) st in
      set_wordWidth (fadd (wordWidth st) adv) st
    else
      let st := breakWordsStep pc adv st in
      let boldExpand :=
        if bold (style pc) then fmul (boldStyle font) totalCharScale else fzero in
      let w := match texture charData with
               | Some t => fadd (fmul (orig_width t) totalCharScale) boldExpand
               | None => fzero
               end in
      let h := match texture charData with
               | Some t => fadd (fmul (orig_height t) totalCharScale) boldExpand
               | None => fzero
               end in
      let xOff := fsub (fmul (xOffset charData) totalCharScale) (fmul boldExpand f0_5) in
      let yOff := fsub (fmul (fadd (yOffset charData) effectiveVOffset) totalCharScale)
                    (fmul boldExpand f0_5) in
      let ci := createCharacterInfo i pc
                  (fadd (fadd (wordWidth st) xOff) (fmul kern charScale)) yOff w h
                  (lineIndex st) (wordIndex st) in
      let ci := set_ci_isVisible (bool_decide (is_Some (texture charData))) ci in
      let ci := set_ci_origin (fadd (cursorX st) (wordWidth st)) ci in
      let ci := set_ci_xAdvance (fadd (fadd (cursorX st) (wordWidth st)) adv) ci in
      let glyphAscender := fmul (yOffset charData) totalCharScale in
      let glyphDescender :=
        fmul (fsub (yOffset charData)
                (match texture charData with
                 | Some t => orig_height t
                 | None => fzero
                 end)) totalCharScale in
      let ci := set_ci_ascender
                  (Math_max (fmul (ascent font) totalCharScale) glyphAscender) ci in
      let ci := set_ci_descender
                  (Math_min (fmul (descent font) totalCharScale) glyphDescender) ci in
      let st :=
        if ci_isVisible ci then
          let st := set_lineMaxAscender
                      (Math_max (lineMaxAscender st) (ci_ascender ci)) st in
          let st := set_lineMaxDescender
                      (Math_min (lineMaxDescender st) (ci_descender ci)) st in
          set_lineVisibleCount (lineVisibleCount st + 1) st
        else st in
      let st := set_wordBuffer (wordBuffer st ++ [ci]) st in
      set_wordWidth (fadd (wordWidth st) adv) st in
  set_previousChar (Some (char pc)) st.

(** One iteration of the loop of [layout] over [chars[i]]. *)
Definition layoutStep (i : nat) (pc : ParsedChar) (st : LayoutState) : LayoutState :=
  let st := if fgt (lineHeightOverride (style pc)) fzero
            then set_currentLineHeight (lineHeightOverride (style pc)) st else st in
  if isLineBreak pc then lineBreakStep i pc st
  else if (charCode pc =? 9)%Z then tabStep i pc st
  else
    let st :=
      if fgt (extraSpace pc) fzero then
        let st := set_cursorX (fadd (cursorX st) (extraSpace pc)) st in
        if 0 <? length (wordBuffer st)
        then set_wordWidth (fadd (wordWidth st) (extraSpace pc)) st else st
      else st in
    let st :=
      if negb (isNaN (fixedPosition pc))
      then set_cursorX (fixedPosition pc) (flushWord st) else st in
    if isSprite pc then spriteStep i pc st
    else if (charCode pc =? SOFT_HYPHEN)%Z then
      set_previousChar (Some (char pc))
        (set_softHyphenBreakIndex (Some (length (wordBuffer st))) st)
    else if (charCode pc =? 8203)%Z then zeroWidthSpaceStep i pc st
    else
      let lookup := getCharWithFallback heap registry fontId (char pc) in
      let charData :=
        match lookup with
        | Some (cd, _) => Some cd
        | None => assoc (js " ") (chars font)
        end in
      match charData with
      | Some cd => glyphStep i pc cd st
      | None => set_previousChar (Some (char pc)) st
      end.

Fixpoint layoutLoop (i : nat) (rest : list ParsedChar) (st : LayoutState) : LayoutState :=
  match rest with
  | [] => st
  | pc :: rest' => layoutLoop (i + 1) rest' (layoutStep i pc st)
  end.

Definition initialLayoutState (first : ParsedChar) : LayoutState :=
  let cursorY := fadd (baseLineOffset font) (style_marginTop tstyle) in
  {| characterInfo := []; lineInfos := []; wordInfos := [];
     cursorX := if fgt (lineIndent (style first)) fzero
                then lineIndent (style first) else styleMarginLeft;
     cursorY := cursorY;
     lineIndex := 0; wordIndex := 0; maxWidth := fzero;
     currentLineHeight := baseLineHeight;
     lineMaxAscender := negInfinity; lineMaxDescender := Infinity;
     currentLine := createLineInfo 0 cursorY baseLineHeight (getAlign first);
     wordBuffer := []; wordWidth := fzero; wordStart := 0;
     isFirstWord := true; lineSpaceCount := 0; lineVisibleCount := 0;
     softHyphenBreakIndex := None; previousChar := None |}.

(** The loop and what follows it up to the overflow handling: the last
    word is flushed and the last line finalized and pushed. *)
Definition layoutPass (first : ParsedChar) : LayoutState :=
  let st := layoutLoop 0 parsed (initialLayoutState first) in
  let st := flushWord st in
  let line := finalizeLine (currentLine st) (characterInfo st) (cursorX st)
                (lineSpaceCount st) (lineVisibleCount st)
                (lineMaxAscender st) (lineMaxDescender st) in
  let st := set_lineInfos (lineInfos st ++ [line]) st in
  set_maxWidth (Math_max (maxWidth st) (li_width line)) st.

(** ** applyOverflow *)

(** The index of the last of the leading lines that fit, from [i] on. *)
Fixpoint lastFitting (lines : list LineInfo) (containerHeight : number) (i : nat)
    (lastVisibleLine : option nat) : option nat :=
  match lines with
  | l :: r =>
    if fle (fadd (li_y l) (li_height l)) containerHeight
    then lastFitting r containerHeight (i + 1) (Some i)
    else lastVisibleLine
  | [] => lastVisibleLine
  end.

(** [array.length = n]: the array is cut, or filled up with empty slots. *)
Definition setLength {A} (n : nat) (a : list (option A)) : list (option A) :=
  take n a ++ replicate (n - length a) None.

(** [while (words.length > 0 && words[words.length - 1].firstCharIndex >= cutIdx) words.pop()]. *)
Fixpoint trimWords (backwards : list WordInfo) (cutIdx : Z) : list WordInfo :=
  match backwards with
  | w :: r =>
    if (cutIdx <=? Z.of_nat (wi_firstCharIndex w))%Z then trimWords r cutIdx
    else backwards
  | [] => []
  end.

(** The loop that makes room for the ellipsis; [None] when it reads a
    field of an empty slot (a TypeError). *)
Fixpoint removeForEllipsis (fuel : nat) (chars : list (option CharacterInfo))
    (firstCharIndex : Z) (dotWidth removedWidth : number)
  : option (list (option CharacterInfo)) :=
  match fuel with
  | 0 => Some chars
  | S fuel' =>
    if (firstCharIndex <? Z.of_nat (length chars))%Z && flt removedWidth dotWidth then
      match last chars with
      | Some (Some lastc) =>
        removeForEllipsis fuel' (removelast chars) firstCharIndex dotWidth
          (fadd removedWidth (f_or (ci_width lastc) (fdiv dotWidth f3)))
      | _ => None
      end
    else Some chars
  end.

(** The result is [None] when the source throws a TypeError. *)
Definition applyOverflow (lines : list LineInfo) (chars0 : list CharacterInfo)
    (words : list WordInfo) (containerHeight : number) (mode : OverflowMode)
    (charScale : number)
  : option (list LineInfo * list (option CharacterInfo) * list WordInfo) :=
  let lastVisibleLine := default 0 (lastFitting lines containerHeight 0 None) in
  match lines !! lastVisibleLine with
  | None => None
  | Some lastLine =>
    let cutIdx := (li_lastCharIndex lastLine + 1)%Z in
    let chars1 := setLength (Z.to_nat cutIdx) (map Some chars0) in
    let lines := take (lastVisibleLine + 1) lines in
    let words := rev (trimWords (rev words) cutIdx) in
    let ellipsisResult :=
      if overflowMode_eqb mode ellipsis && (0 <? cutIdx)%Z then
        let dotChar :=
          match assoc [8230%Z] (chars font) with
          | Some d => Some d
          | None => assoc (js ".") (chars font)
          end in
        match dotChar with
        | Some dotChar =>
          let dotWidth := fmul (xAdvance dotChar) charScale in
          match removeForEllipsis (length chars1) chars1 (li_firstCharIndex lastLine)
                  dotWidth fzero with
          | None => None
          | Some chars2 =>
            match last chars2 with
            | None => Some chars2
            | Some None => None
            | Some (Some prev) =>
              let ci :=
                {| ci_index := ci_index prev + 1;
                   ci_char := [8230%Z];
                   ci_isVisible := true;
                   ci_x := fadd (ci_x prev) (ci_width prev);
                   ci_y := ci_y prev;
                   ci_width := match texture dotChar with
                               | Some t => fmul (orig_width t) charScale
                               | None => dotWidth
                               end;
                   ci_height := match texture dotChar with
                                | Some t => fmul (orig_height t) charScale
                                | None => ci_height prev
                                end;
                   ci_lineIndex := ci_lineIndex prev;
                   ci_wordIndex := ci_wordIndex prev;
                   ci_origin := ci_xAdvance prev;
                   ci_xAdvance := fadd (ci_xAdvance prev) dotWidth;
                   ci_ascender := ci_ascender prev;
                   ci_descender := ci_descender prev |} in
              Some (chars2 ++ [Some ci])
            end
          end
        | None => Some chars1
        end
      else Some chars1 in
    match ellipsisResult with
    | None => None
    | Some chars3 =>
      let lines :=
        match last lines with
        | Some l => removelast lines ++ [touchLine (length chars3) l]
        | None => lines
        end in
      Some (lines, chars3, words)
    end
  end.

Definition emptyTextInfo : TextInfo :=
  {| ti_characterInfo := []; ti_lineInfo := []; ti_wordInfo := [];
     ti_characterCount := 0; ti_lineCount := 0; ti_wordCount := 0;
     ti_height := fzero |}.

(** [TMPLayoutEngine.layout]; [None] when the source throws. The
    style is one with the default verticalAlign 'top', for which the
    vertical pass is skipped. applyAlignment adds offsets to x, width and
    alignmentOffset only and is not modelled. Nor is buildLinkInfo, which
    fills linkInfo: the model is of texts without links, for which
    buildLinkInfo reads characterInfo through [?.] only and creates no
    link (createLinkInfo, which reads [chars[firstIdx].lineIndex], is not
    called). *)
Definition layout : option TextInfo :=
  match parsed with
  | [] => Some emptyTextInfo
  | first :: _ =>
    let st := layoutPass first in
    let totalHeight :=
      fsub (fadd (cursorY st) (currentLineHeight st)) (baseLineOffset font) in
    let containerH := style_containerHeight tstyle in
    let result :=
      if negb (overflowMode_eqb (style_overflowMode tstyle) overflow)
         && fgt containerH fzero && fgt totalHeight containerH
      then applyOverflow (lineInfos st) (characterInfo st) (wordInfos st) containerH
             (style_overflowMode tstyle) (fdiv (style_fontSize tstyle) baseFontSize)
      else Some (lineInfos st, map Some (characterInfo st), wordInfos st) in
    match result with
    | None => None
    | Some (lines, chars', words) =>
      Some {| ti_characterInfo := chars';
              ti_lineInfo := lines;
              ti_wordInfo := words;
              ti_characterCount := length chars';
              ti_lineCount := length lines;
              ti_wordCount := length words;
              ti_height := totalHeight |}
    end
  end.
End Layout.

(** * Concrete inputs *)

(** The parser of the test suites: a new RichTextParser, parsing with
    base size 32, base colour 0xffffff and an ASCII font name. *)
Definition newParser : RichTextParser := @new_RichTextParser AsciiCase.

Definition parseWith (p : RichTextParser) (text : String.string)
  : list ParsedChar * RichTextParser :=
  @parse AsciiCase p (js text) (of_Z 32) 0xffffff%Z (js "TestFont").

Definition parseFresh (text : String.string) : list ParsedChar :=
  fst (parseWith newParser text).

(** The mock font of the layout tests: the characters 32 to 126, each
    with advance 10 and, the space apart, a 10 by 20 texture. *)
Definition mockChar (c : Z) : jsstring * CharData :=
  ([c],
   {| xOffset := fzero; yOffset := fzero; xAdvance := of_Z 10; kerning := [];
      texture := if (c =? 32)%Z then None else Some (mkTexture (of_Z 10) (of_Z 20)) |}).

Definition mockFont : TMPFont :=
  {| chars := map (fun k => mockChar (Z.of_nat k + 32)) (seq 0 95);
     fallbackFonts := [];
     baseMeasurementFontSize := of_Z 32; lineHeight := of_Z 40; baseLineOffset := fzero;
     ascent := of_Z 30; descent := of_Z 10;
     superscriptOffset := fzero; subscriptOffset := fzero; tabWidth := fzero;
     boldStyle := dec2f false 75 (-2); boldSpacing := of_Z 7 |}.

(** [new TMPTextStyle({ fontSize: 32, wordWrap, wordWrapWidth,
    containerHeight, overflowMode })], the other options at their defaults. *)
Definition testStyle (wordWrap : bool) (wordWrapWidth containerHeight : Z)
    (mode : OverflowMode) : TMPTextStyle :=
  {| style_fontSize := of_Z 32; style_align := js "left";
     style_containerHeight := of_Z containerHeight;
     style_wordWrap := wordWrap; style_wordWrapWidth := of_Z wordWrapWidth;
     style_breakWords := false;
     style_lineHeight := fzero; style_lineSpacingAdjustment := fzero;
     style_letterSpacing := fzero; style_wordSpacing := fzero;
     style_paragraphSpacing := fzero; style_characterSpacing := fzero;
     style_overflowMode := mode;
     style_marginLeft := fzero; style_marginTop := fzero; style_marginRight := fzero |}.

(** The layout of a text as the tests run it: parsed by a new parser,
    laid out with the mock font, no fallback font and no sprite atlas. *)
Definition layoutText (text : String.string) (tstyle : TMPTextStyle) : option TextInfo :=
  @layout AsciiCase (parseFresh text) (fun _ => mockFont) ∅ 0 tstyle (fun _ => None).

(** U+000A in a string literal. *)
Definition nl : String.string := String.String (Ascii.ascii_of_nat 10) String.EmptyString.

(** Fonts with a cycle in their fallback graph: a font that names
    itself as its fallback, and two fonts that name each other; the
    mock glyph table has no glyph for U+4E2D. *)
Definition fontWithFallbacks (names : list jsstring) : TMPFont :=
  {| chars := chars mockFont;
     fallbackFonts := names;
     baseMeasurementFontSize := of_Z 32; lineHeight := of_Z 40; baseLineOffset := fzero;
     ascent := of_Z 30; descent := of_Z 10;
     superscriptOffset := fzero; subscriptOffset := fzero; tabWidth := fzero;
     boldStyle := dec2f false 75 (-2); boldSpacing := of_Z 7 |}.

Definition selfHeap : FontHeap := fun _ => fontWithFallbacks [js "Self"].
Definition selfRegistry : FontRegistry := {[ js "self" := 0 ]}.

Definition cycleHeap : FontHeap := fun id =>
  match id with
  | 0 => fontWithFallbacks [js "FontB"; js "Missing"]
  | _ => fontWithFallbacks [js "FontA"]
  end.
Definition cycleRegistry : FontRegistry :=
  <[ js "fonta" := 0 ]> (<[ js "fontb" := 1 ]> ∅).

(** A text whose last line is empty and taller than the line before: a
    line break, then a line height of 500 carried by a soft hyphen, which
    the layout buffers nowhere. *)
Definition emptyLastLineText : String.string :=
  String.append "A" (String.append nl "<line-height=500><shy>").

(** A gradient whose start colour has seven hexadecimal digits. *)
Definition wideGradientText : String.string := "<gradient=#1234567,#0000ff>AB</gradient>".

(** The records of that text as the post-process receives them: two
    characters that carry the endpoints and still have the base colour. *)
Definition wideGradientChars : list ParsedChar :=
  let st := set_gradientColors [0x1234567; 0x0000ff]%Z
              (createDefaultStyleState (of_Z 32) 0xffffff%Z) in
  [ pc_set_originalIndex 27 (createParsedChar [65%Z] 65 st);
    pc_set_originalIndex 28 (createParsedChar [66%Z] 66 st) ].

(** A scale open that is ignored inside a scale tag, and a gradient open
    that is ignored inside a gradient tag. *)
Definition ignoredScaleText : String.string := "<scale=2>A<scale=x>B</scale>C</scale>D".
Definition ignoredGradientText : String.string :=
  "<gradient=red,blue>A<gradient=red>B</gradient>C</gradient>D".

(** A tag whose name is not registered and has the hash of lowercase. *)
Definition collidingTagText : String.string := "<rmvlrn>aB".

(** * Notions the statements use *)

Definition handlerState (st : ParseState) : HandlerState := (ps_parser st, ps_state st).

(** The four toggle flags of a style state and the four counters. *)
Definition toggleFlags (s : StyleState) : bool * bool * bool * bool :=
  (bold s, italic s, underline s, strikethrough s).

Definition toggleCounts (p : RichTextParser) : Z * Z * Z * Z :=
  (boldCount p, italicCount p, underlineCount p, strikethroughCount p).

(** Each flag is true exactly when its counter is positive, and no
    counter is negative. *)
Definition flagsFollowCounts (hs : HandlerState) : Prop :=
  let '(p, s) := hs in
  ((0 <= boldCount p)%Z /\ bold s = (0 <? boldCount p)%Z)
  /\ ((0 <= italicCount p)%Z /\ italic s = (0 <? italicCount p)%Z)
  /\ ((0 <= underlineCount p)%Z /\ underline s = (0 <? underlineCount p)%Z)
  /\ ((0 <= strikethroughCount p)%Z /\ strikethrough s = (0 <? strikethroughCount p)%Z).

(** The state [parse] starts its loop from. *)
Definition initialParseState (p : RichTextParser) (baseFontSize : number) (baseColor : Z)
  : ParseState :=
  mkParseState 0 [] (createDefaultStyleState baseFontSize baseColor) false fzero NaN
    (resetStacks baseFontSize baseColor p).

(** The records the iteration at state [st] pushes. *)
Definition emittedBy `{CaseOps} (text : jsstring) (baseFontSize : number) (st : ParseState)
  : list ParsedChar :=
  drop (length (ps_result st)) (ps_result (parseStep text baseFontSize st)).

(** A new parser with the style sheet property set. *)
Definition newParserWith `{CaseOps} (sheet : option TMPStyleSheet) : RichTextParser :=
  set_styleSheet sheet new_RichTextParser.

(** The tags [parse] resolves: the hard-coded names in their opening
    form, style when a style sheet is set, and every name whose hash the
    registry holds, registered or not (the registry is looked up by hash
    alone). *)
Definition isKnownTag `{CaseOps} (p : RichTextParser) (tag : TagParseResult) : bool :=
  let lowerName := toLowerCase (tagName tag) in
  let named (name : String.string) := str_eqb lowerName (js name) && negb (isClosing tag) in
  named "noparse" || named "br" || named "nbsp" || named "zwsp"
  || named "softhyphen" || named "shy" || named "en-space" || named "em-space"
  || named "cr" || named "zwj" || named "space" || named "pos" || named "sprite"
  || (str_eqb lowerName (js "style") && bool_decide (is_Some (styleSheet p)))
  || bool_decide (is_Some (getByHash (tagNameHash tag) (_registry p))).

(** The '<' at [i] starts nothing the parser resolves: no colour
    shorthand, and either no tag at all (no closing '>', an empty body, an
    empty name, more than 128 characters) or a tag that is not resolved. *)
Definition unresolvedAt `{CaseOps} (p : RichTextParser) (text : jsstring) (i : nat) : bool :=
  negb (bool_decide (is_Some (colorShorthand text i)))
  && negb (isColorClose text i)
  && match _tryParseTag text i with
     | None => true
     | Some tag => negb (isKnownTag p tag)
     end.

(** A text of ordinary characters and of tags that [parse] does not
    resolve: every '<' is unresolved and there is no carriage return. *)
Definition literalOnly `{CaseOps} (p : RichTextParser) (text : jsstring) : bool :=
  forallb
    (fun i =>
       match text !! i with
       | Some u => if (u =? LT)%Z then unresolvedAt p text i else negb (u =? 13)%Z
       | None => true
       end)
    (seq 0 (length text)).

(** What the loop of [parse] keeps on such a text. *)
Definition literalInv (p : RichTextParser) (text : jsstring) (state : StyleState)
    (st : ParseState) : Prop :=
  ps_i st <= length text
  /\ map char (ps_result st) = map (fun u => [u]) (take (ps_i st) text)
  /\ map originalIndex (ps_result st) = seq 0 (ps_i st)
  /\ ps_noparse st = false
  /\ ps_state st = state
  /\ ps_parser st = p.

(** What a lookup for [char] that starts at font [this] with the visited
    set [visited] returns: the visited set only grows; the fonts consulted
    are pairwise distinct font objects, none of them visited before,
    [this] first; when the result is undefined every consulted font lacks
    the glyph and is visited afterwards; otherwise the glyph is that of
    the last consulted font, and the fonts consulted before it lack it. *)
Definition lookupPost (heap : FontHeap) (char : jsstring) (U : gset FontId)
    (this : FontId) (visited : gset FontId) (res : LookupResult) : Prop :=
  let '(r, visited', seen) := res in
  visited ⊆ visited'
  /\ NoDup seen
  /\ (exists rest, seen = this :: rest)
  /\ (forall x, x ∈ seen -> (x ∉ visited) /\ x ∈ U)
  /\ match r with
     | None => forall x, x ∈ seen -> x ∈ visited' /\ assoc char (chars (heap x)) = None
     | Some (cd, f) =>
       exists pre, seen = pre ++ [f]
         /\ assoc char (chars (heap f)) = Some cd
         /\ forall x, x ∈ pre -> assoc char (chars (heap x)) = None
     end.

(** The wrapping condition in the words of the specification: wrapping
    is enabled, the word is not the first of its line, and the cursor
    plus the word's width exceeds the effective wrap width times the
    tolerance, 1.05 for justified or flush text and 1.0 otherwise.
    [firstPC] is the parsed character of the word's first character. *)
Definition overflowTolerance (alignment : jsstring) : number :=
  if str_eqb alignment (js "justified") || str_eqb alignment (js "flush")
  then f1_05 else f1.

Definition wordWraps (tstyle : TMPTextStyle) (firstPC : ParsedChar) (st : LayoutState) : bool :=
  style_wordWrap tstyle
  && negb (isFirstWord st)
  && fgt (fadd (cursorX st) (wordWidth st))
       (fmul (getWrapWidth tstyle firstPC) (overflowTolerance (getAlign tstyle firstPC))).

(** The line index of each character of a layout result. *)
Definition lineIndexes (info : TextInfo) : list (option nat) :=
  map (option_map ci_lineIndex) (ti_characterInfo info).

(** ** Gradient runs *)

Definition colorOf (pc : ParsedChar) : Z := color (style pc).

(** The two endpoint colours of a character that carries a gradient. *)
Definition endpointsOf (pc : ParsedChar) : option (Z * Z) :=
  match gradientColors (style pc) with
  | a :: b :: _ => Some (a, b)
  | _ => None
  end.

Definition endpointsAt (chars : list ParsedChar) (k : nat) : option (Z * Z) :=
  match chars !! k with
  | Some pc => endpointsOf pc
  | None => None
  end.

(** The [N] characters from index [s] on are a maximal run of characters
    with the endpoint colours [c0] and [c1]: each of them has these
    endpoints, the character before (if any) and the character after (if
    any) do not. *)
Definition maximalRun (chars : list ParsedChar) (s N : nat) (c0 c1 : Z) : bool :=
  (0 <? N)
  && forallb (fun k => bool_decide (endpointsAt chars k = Some (c0, c1))) (seq s N)
  && ((s =? 0) || negb (bool_decide (endpointsAt chars (s - 1) = Some (c0, c1))))
  && negb (bool_decide (endpointsAt chars (s + N) = Some (c0, c1))).

(** The colour of character [i] of a run of [N] in the words of the
    specification: the start colour for a run of one, the interpolation
    at [t = i / (N - 1)] otherwise. *)
Definition runColor (c0 c1 : Z) (N i : nat) : Z :=
  if N =? 1 then c0 else lerpColor c0 c1 (fdiv (of_nat i) (of_nat (N - 1))).

(** A property of the parser object and the style state is kept by the
    loop of [parse] when the handlers and the two stack updates of the
    loop itself keep it. *)
Record step_invariant `{CaseOps} (P : HandlerState -> Prop) : Prop := {
  inv_open : forall t v b hs, P hs -> P (onOpen t v b hs);
  inv_close : forall t hs, P hs -> P (onClose t hs);
  inv_color : forall p s st c, P (p, s) -> P (set_colorStack st p, set_color c s);
  inv_styleName : forall p s st, P (p, s) -> P (set_styleNameStack st p, s);
}.

Arguments onOpen : simpl never.
Arguments onClose : simpl never.

(** ** Auxiliary definitions of the gradient proofs *)

(** The values of a colour channel, and the check that lerpChannel at
    t = 0 and t = 1 returns its first and second argument. *)
Definition channelRange : list Z := map Z.of_nat (seq 0 256).

Definition channelEnds (a b : Z) : bool :=
  (lerpChannel a b fzero =? a)%Z && (lerpChannel a b f1 =? b)%Z.

Definition gradientsOf (cs : list ParsedChar) : list (list Z) :=
  map (fun pc => gradientColors (style pc)) cs.

(** The state of the loop of applyGradients before index [i], for the
    run of [N] characters from [s] on with the endpoints [c0], [c1]: the
    gradients are the parsed ones; an open region [gradStart, i) is a run
    of the recorded endpoints that cannot be extended to the left; with no
    open region the character before has no gradient; and once the loop is
    past the run, the run has its colours and later regions start after
    it. *)
Definition gradInv (chars : list ParsedChar) (s N : nat) (c0 c1 : Z)
    (i : nat) (g : GradState) : Prop :=
  gradientsOf (g_chars g) = gradientsOf chars
  /\ match gradStart g with
     | Some st =>
       st < i /\ exists a b rest, gradColors g = a :: b :: rest
         /\ (forall k, st <= k < i -> endpointsAt chars k = Some (a, b))
         /\ (st = 0 \/ endpointsAt chars (st - 1) <> Some (a, b))
     | None => i = 0 \/ endpointsAt chars (i - 1) = None
     end
  /\ (s + N < i ->
      (forall j, j < N -> map colorOf (g_chars g) !! (s + j) = Some (runColor c0 c1 N j))
      /\ (forall st, gradStart g = Some st -> s + N <= st)).


(** * Further notions: the parser *)

(** The attributes of the style state that have a stack of their own, and
    the tops of these stacks. *)
Definition stackedAttributes (s : StyleState) :=
  (color s, fontSize s, cspace s, mspace s, isNoBreak s, align s, voffset s, indent s,
   lineHeightOverride s, isAllCaps s, isLowercase s, isSmallCaps s, isSuperscript s,
   isSubscript s, charScale s, rotation s, gradientColors s, widthConstraint s,
   lineIndent s).

Definition stackTops (p : RichTextParser) :=
  (current (_colorStack p), current (_sizeStack p), current (_cspaceStack p),
   current (_mspaceStack p), current (_nobrStack p), current (_alignStack p),
   current (_voffsetStack p), current (_indentStack p), current (_lineHeightStack p),
   current (_allCapsStack p), current (_lowercaseStack p), current (_smallCapsStack p),
   current (_superscriptStack p), current (_subscriptStack p),
   current (_charScaleStack p), current (_rotationStack p), current (_gradientStack p),
   current (_widthStack p), current (_lineIndentStack p)).

(** Each stacked attribute of the style state is the top of its stack. *)
Definition inSync (hs : HandlerState) : Prop :=
  stackedAttributes (snd hs) = stackTops (fst hs).

(** A property of the parser object and the style state that the
    handlers and the update of the style-name stack keep. *)
Record handler_invariant `{CaseOps} (P : HandlerState -> Prop) : Prop := {
  hinv_open : forall t v b hs, P hs -> P (onOpen t v b hs);
  hinv_close : forall t hs, P hs -> P (onClose t hs);
  hinv_styleName : forall p s st, P (p, s) -> P (set_styleNameStack st p, s);
}.

(** The opening of tag [t] with value [v] pushes on the stack of its
    attribute and sets the attribute: the tags below, scale, rotate and
    gradient only with a value they accept. The margin tags are not among
    them (margin-left and margin-right have no stack), nor are the tags
    whose attribute is left out of the style state. *)
Definition pushesOnOpen `{CaseOps} (t : Tag) (v : jsstring) : bool :=
  match t with
  | T_color | T_b | T_i | T_u | T_s | T_strikethrough | T_size | T_cspace | T_mspace
  | T_duospace | T_nobr | T_align | T_voffset | T_indent | T_line_height | T_line_indent
  | T_allcaps | T_uppercase | T_lowercase | T_smallcaps | T_sup | T_sub | T_width => true
  | T_scale | T_rotate => negb (isNaN (parseFloat v))
  | T_gradient => 2 <=? length (parseGradientValue v)
  | _ => false
  end.

(** A list of indices is strictly increasing. *)
Definition increasing (l : list nat) : Prop :=
  forall i j a b, i < j -> l !! i = Some a -> l !! j = Some b -> a < b.

(** ** Sequences of opens and closes of one tag *)

(** The stacks of the parser object. *)
Definition allStacks (p : RichTextParser) :=
  (_colorStack p, _sizeStack p, _boldStack p, _italicStack p, _underlineStack p,
   _strikethroughStack p, _cspaceStack p, _mspaceStack p, _nobrStack p, _alignStack p,
   _voffsetStack p, _indentStack p, _marginStack p, _lineHeightStack p, _allCapsStack p,
   _lowercaseStack p, _smallCapsStack p, _superscriptStack p, _subscriptStack p,
   _charScaleStack p, _rotationStack p, _gradientStack p, _widthStack p,
   _styleNameStack p, _lineIndentStack p).

(** The opens (each with its value) and closes of tag [t], run through
    the handlers of [t] in order. *)
Definition runTag `{CaseOps} (t : Tag) (baseFontSize : number)
    (ops : list (TagOp jsstring)) (ps : HandlerState) : HandlerState :=
  fold_left
    (fun ps op =>
       match op with
       | Open v => onOpen t v baseFontSize ps
       | Close => onClose t ps
       end) ops ps.

Definition openValues {T} (ops : list (TagOp T)) : list T :=
  flat_map (fun op => match op with Open v => [v] | Close => [] end) ops.

(** The open handler of [t] pushes on the stack its close handler pops:
    the tags of [pushesOnOpen], and margin and padding, whose close
    restores the stack though not always both margins. *)
Definition opensPush `{CaseOps} (t : Tag) (v : jsstring) : bool :=
  pushesOnOpen t v || match t with T_margin | T_padding => true | _ => false end.

(** The depths of the stacks that the close handler of [t] pops, and for
    the four toggles the counter it decrements. *)
Definition poppedDepths (t : Tag) (p : RichTextParser) : list nat :=
  match t with
  | T_color => [length (_stack (_colorStack p))]
  | T_b => [length (_stack (_boldStack p)); Z.to_nat (boldCount p)]
  | T_i => [length (_stack (_italicStack p)); Z.to_nat (italicCount p)]
  | T_u => [length (_stack (_underlineStack p)); Z.to_nat (underlineCount p)]
  | T_s | T_strikethrough =>
    [length (_stack (_strikethroughStack p)); Z.to_nat (strikethroughCount p)]
  | T_size => [length (_stack (_sizeStack p))]
  | T_cspace => [length (_stack (_cspaceStack p))]
  | T_mspace | T_duospace => [length (_stack (_mspaceStack p))]
  | T_nobr => [length (_stack (_nobrStack p))]
  | T_align => [length (_stack (_alignStack p))]
  | T_voffset => [length (_stack (_voffsetStack p))]
  | T_indent => [length (_stack (_indentStack p))]
  | T_margin | T_padding => [length (_stack (_marginStack p))]
  | T_line_height => [length (_stack (_lineHeightStack p))]
  | T_line_indent => [length (_stack (_lineIndentStack p))]
  | T_allcaps | T_uppercase => [length (_stack (_allCapsStack p))]
  | T_lowercase => [length (_stack (_lowercaseStack p))]
  | T_smallcaps => [length (_stack (_smallCapsStack p))]
  | T_sup =>
    [length (_stack (_superscriptStack p)); length (_stack (_sizeStack p));
     length (_stack (_voffsetStack p))]
  | T_sub =>
    [length (_stack (_subscriptStack p)); length (_stack (_sizeStack p));
     length (_stack (_voffsetStack p))]
  | T_scale => [length (_stack (_charScaleStack p))]
  | T_rotate => [length (_stack (_rotationStack p))]
  | T_gradient => [length (_stack (_gradientStack p))]
  | T_width => [length (_stack (_widthStack p))]
  | _ => []
  end.

(** The tags whose close handler sets their attribute to the top of the
    stack it pops: those of [pushesOnOpen], whatever the value. *)
Definition restoringTag (t : Tag) : bool :=
  match t with
  | T_color | T_b | T_i | T_u | T_s | T_strikethrough | T_size | T_cspace | T_mspace
  | T_duospace | T_nobr | T_align | T_voffset | T_indent | T_line_height | T_line_indent
  | T_allcaps | T_uppercase | T_lowercase | T_smallcaps | T_sup | T_sub | T_width
  | T_scale | T_rotate | T_gradient => true
  | _ => false
  end.


(** * Further notions: the registry *)

(** [TagRegistry.getByName] and [TagRegistry.has]. *)
Definition getByName `{CaseOps} (name : jsstring) (reg : TagRegistry) : option Tag :=
  reg !! hashCode (toLowerCase name).

Definition registry_has `{CaseOps} (name : jsstring) (reg : TagRegistry) : bool :=
  bool_decide (is_Some (reg !! hashCode (toLowerCase name))).

(** [name] is one of the names the constructor of RichTextParser
    registers. *)
Definition isRegisteredName (name : jsstring) : bool :=
  existsb (fun t => str_eqb (tagName_of t) name) registrationOrder.

(** The 32-bit FNV-1a hash that the comment of hashCode names, on the
    code units of an ASCII string: offset basis 0x811c9dc5, and for each
    unit an exclusive or followed by the product with the prime
    0x01000193, taken modulo 2^32 exactly. *)
Definition fnv1a32 (str : jsstring) : Z :=
  fold_left (fun hash c => (Z.lxor hash c * 16777619) mod 2 ^ 32)%Z str 2166136261%Z.

(** * Properties of TagStack *)

Section TagStackFacts.
Context {T : Type}.
Implicit Types (s : TagStack T) (v : T) (ops : list (TagOp T)).

Lemma pop_push v s : pop (push v s) = s.
Proof.
  destruct s as [st cur]. unfold pop, push. cbn [_stack _current].
  rewrite last_snoc, removelast_last. reflexivity.
Qed.

Lemma pop_empty s : _stack s = [] -> pop s = s.
Proof. intros Hs. unfold pop. rewrite Hs. reflexivity. Qed.

Lemma runOps_app ops1 ops2 s : runOps (ops1 ++ ops2) s = runOps ops2 (runOps ops1 s).
Proof. unfold runOps. apply fold_left_app. Qed.

Lemma runOps_balanced ops : balanced ops -> forall s, runOps ops s = s.
Proof.
  induction 1 as [| v w _ IH | w1 w2 _ IH1 _ IH2]; intros s.
  - reflexivity.
  - change (Open v :: w ++ [Close]) with ([Open v] ++ (w ++ [Close])).
    rewrite !runOps_app. cbn [runOps fold_left applyOp].
    fold (runOps w (push v s)). rewrite IH. apply pop_push.
  - rewrite runOps_app, IH1, IH2. reflexivity.
Qed.
End TagStackFacts.

(** * Invariants of the parse loop *)

Section StepInvariant.
Context `{CaseOps} (P : HandlerState -> Prop) (HP : step_invariant P).

Lemma applyStylePresetOpen_inv fuel markup b : forall j hs,
  P hs -> P (_applyStylePresetOpen fuel markup b j hs).
Proof.
  induction fuel as [| fuel IH]; intros j hs Hhs; cbn [_applyStylePresetOpen]; [exact Hhs |].
  repeat case_match; try exact Hhs; apply IH; try exact Hhs.
  apply (inv_open P HP), Hhs.
Qed.

Lemma applyStylePresetClose_inv fuel markup : forall j hs,
  P hs -> P (_applyStylePresetClose fuel markup j hs).
Proof.
  induction fuel as [| fuel IH]; intros j hs Hhs; cbn [_applyStylePresetClose]; [exact Hhs |].
  repeat case_match; try exact Hhs; apply IH; try exact Hhs.
  apply (inv_close P HP), Hhs.
Qed.

Lemma applyPending_handlerState pc st :
  handlerState (snd (applyPending pc st)) = handlerState st.
Proof. unfold applyPending. repeat (case_match; simplify_eq); reflexivity. Qed.

Lemma styleTag_inv sheet tag b st :
  P (handlerState st) -> P (handlerState (styleTag sheet tag b st)).
Proof.
  intros Hst. unfold styleTag, handlerState in *.
  repeat (case_match; simplify_eq); cbn; try exact Hst;
    try rewrite <- surjective_pairing;
    first [ apply applyStylePresetOpen_inv | apply applyStylePresetClose_inv | idtac ];
    apply (inv_styleName P HP), Hst.
Qed.

(** The state a pending application leaves has the handler state it found. *)
Ltac pending_case Hst :=
  match goal with
  | Hp : applyPending ?pc ?s = (_, ?s') |- _ =>
    let E := fresh "E" in
    pose proof (applyPending_handlerState pc s) as E;
    rewrite Hp in E; unfold handlerState in *; cbn in *;
    inversion E; subst; try congruence;
    match goal with
    | E1 : ps_parser s' = _, E2 : ps_state s' = _ |- _ => rewrite E1, E2; exact Hst
    end
  end.

Lemma handleTag_inv tag b st st' :
  handleTag tag b st = Some st' -> P (handlerState st) -> P (handlerState st').
Proof.
  unfold handleTag. intros Heq Hst.
  repeat (case_match; simplify_eq);
    first
      [ exact Hst
      | apply styleTag_inv, Hst
      | pending_case Hst
      | unfold handlerState, dispatch in *; cbn; rewrite <- surjective_pairing;
        case_match; [apply (inv_close P HP) | apply (inv_open P HP)]; exact Hst ].
Qed.

Lemma parseStep_inv text b st :
  P (handlerState st) -> P (handlerState (parseStep text b st)).
Proof.
  intros Hst. unfold parseStep.
  repeat (case_match; simplify_eq);
    first
      [ exact Hst
      | eapply handleTag_inv; eauto; fail
      | pending_case Hst
      | unfold handlerState in *; cbn; apply (inv_color P HP), Hst ].
Qed.

Lemma parseLoop_inv fuel text b : forall st,
  P (handlerState st) -> P (handlerState (parseLoop fuel text b st)).
Proof.
  induction fuel as [| fuel IH]; intros st Hst; cbn [parseLoop]; [exact Hst |].
  case_match; [apply IH, parseStep_inv, Hst | exact Hst].
Qed.
End StepInvariant.

(** * Toggle attributes nest by counter *)

Section Toggles.
Context `{CaseOps}.

Lemma flagsFollowCounts_invariant : step_invariant flagsFollowCounts.
Proof.
split.
- intros t v b [p s] Hinv. unfold flagsFollowCounts in *.
  destruct t; unfold onOpen, openToggle, openFlag, openNum, openScript, openFlag;
    cbn; repeat (case_match; simplify_eq; cbn); try exact Hinv;
    intuition (first [lia | symmetry; apply Z.ltb_lt; lia | idtac]).
- intros t [p s] Hinv. unfold flagsFollowCounts in *.
  destruct t; unfold onClose, closeToggle, closeFlag, closeNum, closeScript, closeFlag;
    cbn; try exact Hinv; intuition lia.
- intros p s st c Hinv. exact Hinv.
- intros p s st Hinv. exact Hinv.
Qed.

Lemma applyPending_keeps pc st :
ps_result (snd (applyPending pc st)) = ps_result st
/\ ps_i (snd (applyPending pc st)) = ps_i st
/\ ps_noparse (snd (applyPending pc st)) = ps_noparse st
/\ style (fst (applyPending pc st)) = style pc
/\ char (fst (applyPending pc st)) = char pc.
Proof. unfold applyPending. repeat (case_match; simplify_eq); cbn; auto. Qed.

Lemma caseTransform_flags s pc : toggleFlags (style (caseTransform s pc)) = toggleFlags (style pc).
Proof. unfold caseTransform. repeat case_match; reflexivity. Qed.

Lemma styleTag_result sheet tag b st :
ps_result (styleTag sheet tag b st) = ps_result st.
Proof. unfold styleTag. repeat case_match; reflexivity. Qed.

Ltac use_pending :=
match goal with
| Hp : applyPending ?pc ?s = (?pc', ?s') |- _ =>
  let E := fresh "E" in
  pose proof (applyPending_keeps pc s) as E; rewrite Hp in E; cbn in E;
  destruct E as (E1 & E2 & E3 & E4 & E5)
end.

(** An iteration pushes at most one record, and the record carries the
  flags of the style state the iteration found. *)
Lemma handleTag_emits tag b st st' :
handleTag tag b st = Some st' ->
exists new, ps_result st' = ps_result st ++ new
  /\ Forall (fun pc => toggleFlags (style pc) = toggleFlags (ps_state st)) new.
Proof.
unfold handleTag. intros Heq.
repeat (case_match; simplify_eq);
  try (exists []; rewrite app_nil_r; split; [reflexivity | constructor]; fail);
  try (eexists [_]; split; [reflexivity | repeat constructor]; fail).
- use_pending. eexists [_]. cbn. rewrite E1. split; [reflexivity |].
  repeat constructor. rewrite E4. reflexivity.
- exists []. rewrite app_nil_r. split; [apply styleTag_result | constructor].
Qed.

Lemma parseStep_emits text b st :
exists new, ps_result (parseStep text b st) = ps_result st ++ new
  /\ Forall (fun pc => toggleFlags (style pc) = toggleFlags (ps_state st)) new.
Proof.
unfold parseStep.
repeat (case_match; simplify_eq);
  try (exists []; rewrite app_nil_r; split; [reflexivity | constructor]; fail);
  try (eexists [_]; split; [reflexivity | repeat constructor]; fail).
- eapply handleTag_emits; eauto.
- use_pending. eexists [_]. cbn. rewrite E1. split; [reflexivity |].
  repeat constructor. rewrite caseTransform_flags, E4. reflexivity.
Qed.

Lemma emittedBy_spec text b st :
ps_result (parseStep text b st) = ps_result st ++ emittedBy text b st
/\ Forall (fun pc => toggleFlags (style pc) = toggleFlags (ps_state st)) (emittedBy text b st).
Proof.
destruct (parseStep_emits text b st) as (new & Hres & Hall).
unfold emittedBy. rewrite Hres, drop_app_length. auto.
Qed.
End Toggles.

(** * The gradient post-process changes colours only *)

Section GradientFrame.
Context {A : Type} (f : ParsedChar -> A).
Hypothesis f_color : forall pc c, f (pc_set_style (set_color c (style pc)) pc) = f pc.

Lemma setColorAt_frame i c chars : map f (setColorAt i c chars) = map f chars.
Proof.
  unfold setColorAt. destruct (chars !! i) as [pc |] eqn:Hi; [| reflexivity].
  revert i Hi. induction chars as [| x xs IH]; intros [| i] Hi; cbn in *; try discriminate.
  - injection Hi as ->. rewrite f_color. reflexivity.
  - f_equal. apply IH, Hi.
Qed.

Lemma interpolateLoop_frame n : forall chars start i count c0 c1,
  map f (interpolateLoop n chars start i count c0 c1) = map f chars.
Proof.
  induction n as [| n IH]; intros; cbn [interpolateLoop]; [reflexivity |].
  rewrite IH. apply setColorAt_frame.
Qed.

Lemma interpolateRegion_frame chars start end_ colors :
  map f (interpolateRegion chars start end_ colors) = map f chars.
Proof.
  unfold interpolateRegion. case_match; [apply setColorAt_frame | apply interpolateLoop_frame].
Qed.

Lemma gradientStep_frame len i g :
  map f (g_chars (gradientStep len i g)) = map f (g_chars g).
Proof.
  unfold gradientStep. repeat (case_match; simplify_eq); cbn;
    try reflexivity; apply interpolateRegion_frame.
Qed.

Lemma gradientLoop_frame n : forall len i g,
  map f (g_chars (gradientLoop n len i g)) = map f (g_chars g).
Proof.
  induction n as [| n IH]; intros; cbn [gradientLoop]; [reflexivity |].
  rewrite IH. apply gradientStep_frame.
Qed.

Lemma applyGradients_frame chars : map f (applyGradients chars) = map f chars.
Proof. unfold applyGradients. apply gradientLoop_frame. Qed.
End GradientFrame.

Lemma applyGradients_length chars : length (applyGradients chars) = length chars.
Proof.
  rewrite <- (length_map (fun _ => tt) (applyGradients chars)).
  rewrite (applyGradients_frame (fun _ => tt)) by reflexivity.
  apply length_map.
Qed.

(** C3. Toggle attributes (bold, italic, underline, strikethrough) nest
    by counter. An open increments the counter and sets the flag; a close
    decrements the counter, floored at 0, and leaves the flag true exactly
    when the counter is still positive. In a parse by a new parser (with
    any style sheet), at every iteration of the loop each flag is true
    exactly when its counter is positive, no counter is negative, and a
    record pushed by the iteration carries these flags, which the gradient
    pass keeps. A new parser gives the records A, B, C of
    "A<b><b></b>B</b>C" the bold flags false, true, false. *)
Theorem toggle_counter_nesting :
  (forall (C : CaseOps) v b p s,
     boldCount (fst (onOpen T_b v b (p, s))) = (boldCount p + 1)%Z
     /\ bold (snd (onOpen T_b v b (p, s))) = true
     /\ italicCount (fst (onOpen T_i v b (p, s))) = (italicCount p + 1)%Z
     /\ italic (snd (onOpen T_i v b (p, s))) = true
     /\ underlineCount (fst (onOpen T_u v b (p, s))) = (underlineCount p + 1)%Z
     /\ underline (snd (onOpen T_u v b (p, s))) = true
     /\ strikethroughCount (fst (onOpen T_s v b (p, s))) = (strikethroughCount p + 1)%Z
     /\ strikethrough (snd (onOpen T_s v b (p, s))) = true)
  /\ (forall p s,
     boldCount (fst (onClose T_b (p, s))) = Z.max 0 (boldCount p - 1)
     /\ bold (snd (onClose T_b (p, s))) = (0 <? Z.max 0 (boldCount p - 1))%Z
     /\ italicCount (fst (onClose T_i (p, s))) = Z.max 0 (italicCount p - 1)
     /\ italic (snd (onClose T_i (p, s))) = (0 <? Z.max 0 (italicCount p - 1))%Z
     /\ underlineCount (fst (onClose T_u (p, s))) = Z.max 0 (underlineCount p - 1)
     /\ underline (snd (onClose T_u (p, s))) = (0 <? Z.max 0 (underlineCount p - 1))%Z
     /\ strikethroughCount (fst (onClose T_s (p, s))) = Z.max 0 (strikethroughCount p - 1)
     /\ strikethrough (snd (onClose T_s (p, s)))
        = (0 <? Z.max 0 (strikethroughCount p - 1))%Z)
  /\ (forall (C : CaseOps) sheet text baseFontSize baseColor n,
     let st := parseLoop n text baseFontSize
                 (initialParseState (newParserWith sheet) baseFontSize baseColor) in
     flagsFollowCounts (handlerState st)
     /\ Forall (fun pc =>
                  bold (style pc) = (0 <? boldCount (ps_parser st))%Z
                  /\ italic (style pc) = (0 <? italicCount (ps_parser st))%Z
                  /\ underline (style pc) = (0 <? underlineCount (ps_parser st))%Z
                  /\ strikethrough (style pc) = (0 <? strikethroughCount (ps_parser st))%Z)
          (emittedBy text baseFontSize st))
  /\ (forall chars, map (fun pc => toggleFlags (style pc)) (applyGradients chars)
                    = map (fun pc => toggleFlags (style pc)) chars)
  /\ map (fun pc => (char pc, bold (style pc))) (parseFresh "A<b><b></b>B</b>C")
     = [(js "A", false); (js "B", true); (js "C", false)].
Proof.
  split; [| split; [| split; [| split]]].
  - intros. repeat split.
  - intros. repeat split.
  - intros C sheet text b c n st.
    assert (Hinv : flagsFollowCounts (handlerState st)).
    { apply parseLoop_inv; [apply flagsFollowCounts_invariant |].
      cbn. repeat split; reflexivity || lia. }
    split; [exact Hinv |].
    destruct (emittedBy_spec text b st) as [_ Hall].
    eapply Forall_impl; [exact Hall |].
    intros pc Hpc. unfold toggleFlags in Hpc. injection Hpc as Hb Hi Hu Hs.
    unfold flagsFollowCounts, handlerState in Hinv.
    destruct Hinv as ((_ & Eb) & (_ & Ei) & (_ & Eu) & (_ & Es)).
    rewrite Hb, Hi, Hu, Hs. auto.
  - intros chars. apply applyGradients_frame. reflexivity.
  - vm_compute. reflexivity.
Qed.

(** * Invalid values, repeated parses, pending modifiers *)

(** C6, as stated, fails for size and colour: after
    [<size=abc>] the font size is 0, not the 32 before it, and after
    [<color=#zzz>] the colour is 0x000000, not the 0xffffff before it. *)
Lemma invalid_size_and_color_change_state :
  map (fun pc => (char pc, fontSize (style pc))) (parseFresh "A<size=abc>B")
  = [(js "A", of_Z 32); (js "B", fzero)]
  /\ map (fun pc => (char pc, color (style pc))) (parseFresh "A<color=#zzz>B")
     = [(js "A", 0xffffff%Z); (js "B", 0%Z)].
Proof. split; vm_compute; reflexivity. Qed.

Lemma trimStart_suffix (s : jsstring) : exists p, s = p ++ trimStart s.
Proof.
  induction s as [| c r IH]; [exists []; reflexivity |]. cbn.
  destruct (isWhiteSpace c); [| exists []; reflexivity].
  destruct IH as [p Hp]. exists (c :: p). cbn. f_equal. exact Hp.
Qed.

Lemma trimStart_head (s : jsstring) (c : Z) (r : jsstring) :
  trimStart s = c :: r -> isWhiteSpace c = false.
Proof.
  induction s as [| d t IH]; cbn; [discriminate |].
  destruct (isWhiteSpace d) eqn:Hd; [exact IH |]. intros [= <- <-]. exact Hd.
Qed.

Lemma trimStart_fixed (s : jsstring) :
  match s with [] => True | c :: _ => isWhiteSpace c = false end -> trimStart s = s.
Proof. destruct s as [| c r]; [reflexivity |]. cbn. intros ->. reflexivity. Qed.

(** Trimming a trimmed string changes nothing. *)
Lemma trim_idem (s : jsstring) : trim (trim s) = trim s.
Proof.
  unfold trim, trimEnd.
  set (t := trimStart s). set (u := trimStart (rev t)).
  assert (Hfix : trimStart (rev u) = rev u).
  { apply trimStart_fixed. destruct (rev u) as [| c r'] eqn:Hru; [exact I |].
    destruct (trimStart_suffix (rev t)) as [p Hp]. fold u in Hp.
    apply (f_equal (@rev Z)) in Hp. rewrite rev_involutive, rev_app_distr, Hru in Hp.
    apply (trimStart_head s c (r' ++ rev p)). exact Hp. }
  rewrite Hfix, rev_involutive. f_equal.
  unfold u. destruct (trimStart (rev t)) as [| c r'] eqn:Hu; [reflexivity |].
  apply trimStart_fixed. exact (trimStart_head _ _ _ Hu).
Qed.

(** C6, amended. A scale or rotate tag whose value is not a number is
    ignored: the parser object and the style state stay as they are. A
    size tag is not ignored: when its value, trimmed, is not a number and
    has no sign and no unit suffix, the font size becomes 0 and 0 is
    pushed on the size stack. Nor is a colour tag: when its value, trimmed
    and lower-cased, is no named colour, no name the colour table
    inherits from Object.prototype, and does not start with a hexadecimal
    number, the colour becomes 0 and 0 is pushed on the colour stack. For
    the values "abc" and "#zzz": the characters after the scale and rotate
    tags keep scale 1 and rotation 0. *)
Theorem invalid_values (C : CaseOps) (v : jsstring) (b : number) (p : RichTextParser)
    (s : StyleState) :
  (isNaN (parseFloat v) = true ->
     onOpen T_scale v b (p, s) = (p, s) /\ onOpen T_rotate v b (p, s) = (p, s))
  /\ (isNaN (parseFloat (trim v)) = true ->
      startsWith (trim v) (js "+") || startsWith (trim v) (js "-") = false ->
      endsWith (trim v) (js "%") || endsWith (trim v) (js "em")
      || endsWith (trim v) (js "px") = false ->
      onOpen T_size v b (p, s)
      = (set_sizeStack (push fzero (_sizeStack p)) p, set_fontSize fzero s))
  /\ (assoc (toLowerCase (trim v)) NAMED_COLORS = None ->
      inheritedName (toLowerCase (trim v)) = false ->
      parseInt16 (colorHexPart (toLowerCase (trim v))) = None ->
      onOpen T_color v b (p, s)
      = (set_colorStack (push 0%Z (_colorStack p)) p, set_color 0%Z s))
  /\ map (fun pc => (char pc, charScale (style pc), rotation (style pc)))
       (parseFresh "A<scale=abc>B<rotate=abc>C")
     = [(js "A", f1, fzero); (js "B", f1, fzero); (js "C", f1, fzero)].
Proof.
  split; [| split; [| split]].
  - intros Hnan. unfold onOpen. rewrite Hnan. auto.
  - intros Hnan Hsign Hunit.
    apply orb_false_iff in Hunit as [Hunit Hpx].
    apply orb_false_iff in Hunit as [Hpct Hem].
    unfold onOpen, openNum, parseUnit. rewrite trim_idem, Hsign, Hpct, Hem, Hpx.
    destruct (parseFloat (trim v)); try discriminate. reflexivity.
  - intros Hname _ Hhex. unfold onOpen, parseColor. rewrite Hname, Hhex. reflexivity.
  - vm_compute. reflexivity.
Qed.

Lemma invalid_values_witness :
  isNaN (parseFloat (trim (js "abc"))) = true
  /\ @onOpen AsciiCase T_size (js "abc") (of_Z 32)
       (newParser, createDefaultStyleState (of_Z 32) 0xffffff%Z)
     = (set_sizeStack (push fzero (_sizeStack newParser)) newParser,
        set_fontSize fzero (createDefaultStyleState (of_Z 32) 0xffffff%Z))
  /\ @inheritedName (@toLowerCase AsciiCase (trim (js "#zzz"))) = false
  /\ @onOpen AsciiCase T_color (js "#zzz") (of_Z 32)
       (newParser, createDefaultStyleState (of_Z 32) 0xffffff%Z)
     = (set_colorStack (push 0%Z (_colorStack newParser)) newParser,
        set_color 0%Z (createDefaultStyleState (of_Z 32) 0xffffff%Z)).
Proof.
  pose proof (invalid_values AsciiCase (js "abc") (of_Z 32) newParser
                (createDefaultStyleState (of_Z 32) 0xffffff%Z)) as (_ & Hsize & _).
  pose proof (invalid_values AsciiCase (js "#zzz") (of_Z 32) newParser
                (createDefaultStyleState (of_Z 32) 0xffffff%Z)) as (_ & _ & Hcolor & _).
  split; [reflexivity |].
  split; [apply Hsize; reflexivity |].
  split; [reflexivity |].
  apply Hcolor; reflexivity.
Defined.

(** C7: the stacks are reset at the start of [parse], so the records
    depend on the parser object only through what is not a stack: the
    four nesting counters (with the style sheet and the registry). The
    counters are not reset. A new parser that parses "<b></b>A<b>" twice
    gives A the bold flag false the first time and true the second time:
    the first call leaves the bold counter at 1. *)
Theorem parse_twice_differs :
  (forall (C : CaseOps) p1 p2 text b c fam,
     toggleCounts p1 = toggleCounts p2 ->
     styleSheet p1 = styleSheet p2 ->
     _registry p1 = _registry p2 ->
     parse p1 text b c fam = parse p2 text b c fam)
  /\ map (fun pc => (char pc, bold (style pc))) (fst (parseWith newParser "<b></b>A<b>"))
     = [(js "A", false)]
  /\ boldCount (snd (parseWith newParser "<b></b>A<b>")) = 1%Z
  /\ map (fun pc => (char pc, bold (style pc)))
       (fst (parseWith (snd (parseWith newParser "<b></b>A<b>")) "<b></b>A<b>"))
     = [(js "A", true)].
Proof.
  split; [| repeat split; vm_compute; reflexivity].
  intros C p1 p2 text b c fam Hc Hs Hr. unfold parse.
  replace (resetStacks b c p1) with (resetStacks b c p2); [reflexivity |].
  unfold toggleCounts in Hc. injection Hc as Hb Hi Hu Hst.
  unfold resetStacks. rewrite Hb, Hi, Hu, Hst, Hs, Hr. reflexivity.
Qed.

(** C8: the pending space and position reach the next regular character
    or sprite and are dropped at the end of the input, but a synthetic
    mark does not take them: after [<space=10>] the non-breaking space of
    [<nbsp>] has extra space 0 and the A after it has 10; after [<pos=50>]
    the line break of [<br>] has no fixed position and the A after it is
    at 50; a literal '<' does not take them either. *)
Theorem pending_skips_marks :
  map (fun pc => (char pc, extraSpace pc)) (parseFresh "<space=10><nbsp>A")
  = [([160%Z], fzero); (js "A", of_Z 10)]
  /\ map (fun pc => (char pc, fixedPosition pc)) (parseFresh "<pos=50><br>A")
     = [([10%Z], NaN); (js "A", of_Z 50)]
  /\ map (fun pc => (char pc, extraSpace pc)) (parseFresh "<space=10><zwsp><shy>A")
     = [([8203%Z], fzero); ([173%Z], fzero); (js "A", of_Z 10)]
  /\ map (fun pc => (char pc, extraSpace pc)) (parseFresh "<space=10><A")
     = [(js "<", fzero); (js "A", of_Z 10)]
  /\ map (fun pc => (char pc, extraSpace pc)) (parseFresh "A<space=10>B")
     = [(js "A", fzero); (js "B", of_Z 10)]
  /\ map (fun pc => (isSprite pc, extraSpace pc, fixedPosition pc))
       (parseFresh "<space=10><pos=50><sprite name=coin>B")
     = [(true, of_Z 10, of_Z 50); (false, fzero, NaN)]
  /\ map (fun pc => (char pc, extraSpace pc)) (parseFresh "A<space=10>")
     = [(js "A", fzero)].
Proof. repeat split; vm_compute; reflexivity. Qed.

(** * Unrecognized tags are kept *)

Section Literal.
Context `{CaseOps}.

Lemma handleTag_unknown tag b st :
isKnownTag (ps_parser st) tag = false -> handleTag tag b st = None.
Proof.
unfold isKnownTag, handleTag. intros Hk.
repeat (apply orb_false_iff in Hk as [Hk ?]).
repeat match goal with
       | Hx : _ && negb (isClosing tag) = false |- _ => rewrite Hx; clear Hx
       end.
cbn [orb].
match goal with Hs : _ && bool_decide _ = false |- _ => rename Hs into Hstyle end.
match goal with Hr : bool_decide _ = false |- _ => rename Hr into Hreg end.
apply bool_decide_eq_false in Hreg.
destruct (getByHash (tagNameHash tag) (_registry (ps_parser st))) as [e |] eqn:Hg;
  [exfalso; apply Hreg; eauto |].
destruct (str_eqb (toLowerCase (tagName tag)) (js "style")); [| reflexivity].
cbn in Hstyle. apply bool_decide_eq_false in Hstyle.
destruct (styleSheet (ps_parser st)); [exfalso; apply Hstyle; eauto | reflexivity].
Qed.

Lemma literalOnly_at p text i u :
literalOnly p text = true -> text !! i = Some u ->
if (u =? LT)%Z then unresolvedAt p text i = true else u <> 13%Z.
Proof.
unfold literalOnly. intros Hall Hi.
rewrite forallb_forall in Hall.
specialize (Hall i). rewrite Hi in Hall.
assert (Hin : In i (seq 0 (length text))).
{ apply in_seq. apply lookup_lt_Some in Hi. lia. }
specialize (Hall Hin). destruct (u =? LT)%Z; [exact Hall |].
apply negb_true_iff, Z.eqb_neq in Hall. exact Hall.
Qed.

Lemma caseTransform_default b c pc :
caseTransform (createDefaultStyleState b c) pc = pc.
Proof. reflexivity. Qed.

Lemma take_S_snoc (text : jsstring) i u :
text !! i = Some u -> take (S i) text = take i text ++ [u].
Proof. intros Hi. apply take_S_r, Hi. Qed.

Lemma literal_step p text b state st :
(forall pc, caseTransform state pc = pc) ->
literalOnly p text = true ->
literalInv p text state st ->
ps_i st < length text ->
literalInv p text state (parseStep text b st) /\ ps_i (parseStep text b st) = S (ps_i st).
Proof.
intros Hcase Hlit (Hle & Hchars & Hidx & Hnp & Hstate & Hp) Hlt.
destruct (lookup_lt_is_Some_2 text (ps_i st) Hlt) as [u Hu].
pose proof (literalOnly_at p text (ps_i st) u Hlit Hu) as Hat.
assert (Hemit : forall pc st',
          char pc = [u] -> originalIndex pc = ps_i st ->
          ps_result st' = ps_result st -> ps_i st' = ps_i st ->
          ps_noparse st' = false -> ps_state st' = state -> ps_parser st' = p ->
          literalInv p text state (advance 1 (emit pc st'))
          /\ ps_i (advance 1 (emit pc st')) = S (ps_i st)).
{ intros pc st' Hc Ho Hr Hi' Hn Hs Hp'. unfold literalInv. cbn.
  rewrite Hr, Hi', Nat.add_1_r, !map_app, Hchars, Hidx, (take_S_snoc text _ u Hu), map_app.
  rewrite seq_S. cbn. rewrite Hc, Ho. repeat split; auto; lia. }
unfold parseStep. rewrite Hu, Hnp. cbn [default from_option andb]. unfold id.
rewrite andb_false_r.
destruct (u =? LT)%Z eqn:Hlt'.
- apply Z.eqb_eq in Hlt'. subst u.
  unfold unresolvedAt in Hat.
  apply andb_true_iff in Hat as [Hat Htag]. apply andb_true_iff in Hat as [Hsh Hcl].
  apply negb_true_iff, bool_decide_eq_false in Hsh.
  destruct (colorShorthand text (ps_i st)) as [[? ?] |]; [exfalso; apply Hsh; eauto |].
  apply negb_true_iff in Hcl. rewrite Hcl.
  assert (Hlit' : literalInv p text state (emitLiteralLT st)
                  /\ ps_i (emitLiteralLT st) = S (ps_i st)).
  { unfold emitLiteralLT. apply Hemit; auto. }
  destruct (_tryParseTag text (ps_i st)) as [tag |]; [| exact Hlit'].
  apply negb_true_iff in Htag. rewrite <- Hp in Htag.
  rewrite (handleTag_unknown tag b st Htag). exact Hlit'.
- destruct (u =? 10)%Z eqn:H10.
  + apply Z.eqb_eq in H10. subst u. apply Hemit; auto.
  + destruct (u =? 13)%Z eqn:H13; [apply Z.eqb_eq in H13; contradiction |].
    destruct (applyPending (createParsedChar [u] (ps_i st) (ps_state st)) st)
      as [pc st'] eqn:Hpend.
    pose proof (applyPending_keeps (createParsedChar [u] (ps_i st) (ps_state st)) st) as E.
    rewrite Hpend in E. cbn in E. destruct E as (E1 & E2 & E3 & E4 & E5).
    assert (Eh : handlerState st' = handlerState st).
    { pose proof (applyPending_handlerState
                    (createParsedChar [u] (ps_i st) (ps_state st)) st) as Eh.
      rewrite Hpend in Eh. exact Eh. }
    unfold handlerState in Eh. injection Eh as Ep Es.
    rewrite Es, Hstate, Hcase.
    apply Hemit; try congruence.
    unfold applyPending in Hpend.
    repeat (case_match; simplify_eq); reflexivity.
Qed.

Lemma literal_loop p text b state :
(forall pc, caseTransform state pc = pc) ->
literalOnly p text = true ->
forall n st,
  literalInv p text state st ->
  literalInv p text state (parseLoop n text b st)
  /\ ps_i (parseLoop n text b st) = Nat.min (ps_i st + n) (length text).
Proof.
intros Hcase Hlit. induction n as [| n IH]; intros st Hinv; cbn [parseLoop].
- split; [exact Hinv |]. destruct Hinv as (Hle & _). lia.
- destruct (ps_i st <? length text) eqn:Hlt.
  + apply Nat.ltb_lt in Hlt.
    destruct (literal_step p text b state st Hcase Hlit Hinv Hlt) as [Hinv' Hi'].
    destruct (IH _ Hinv') as [Hinv'' Hi'']. split; [exact Hinv'' |]. lia.
  + apply Nat.ltb_ge in Hlt. split; [exact Hinv |]. destruct Hinv as (Hle & _). lia.
Qed.
End Literal.

(** X7. For a text in which every '<' is unresolved (it starts no colour
    shorthand, and either no tag at all or a tag whose name is none of the
    hard-coded ones and whose hash the registry does not hold) and that
    has no carriage return, [parse] pushes one record per code unit of the
    text, in order, with that unit as its char and its position as its
    original index: the char fields concatenated are the text, whatever
    the parser object was used for before. *)
Theorem unrecognized_tags_are_literal (C : CaseOps) (p : RichTextParser) (text : jsstring)
    (baseFontSize : number) (baseColor : Z) (baseFontFamily : jsstring) :
  literalOnly p text = true ->
  let result := fst (parse p text baseFontSize baseColor baseFontFamily) in
  map char result = map (fun u => [u]) text
  /\ concat (map char result) = text
  /\ map originalIndex result = seq 0 (length text).
Proof.
  intros Hlit result.
  assert (Hlit' : literalOnly (resetStacks baseFontSize baseColor p) text = true)
    by exact Hlit.
  destruct (literal_loop (resetStacks baseFontSize baseColor p) text baseFontSize
              (createDefaultStyleState baseFontSize baseColor)
              (caseTransform_default baseFontSize baseColor) Hlit' (length text)
              (initialParseState p baseFontSize baseColor))
    as [(Hle & Hchars & Hidx & _) Hi].
  { unfold literalInv, initialParseState. cbn. repeat split; auto; lia. }
  cbn [initialParseState ps_i] in Hi. rewrite Nat.add_0_l, Nat.min_id in Hi.
  rewrite Hi, firstn_all in Hchars. rewrite Hi in Hidx.
  assert (Hres : map char result = map (fun u => [u]) text).
  { unfold result, parse. cbn [fst].
    rewrite (applyGradients_frame char) by reflexivity. exact Hchars. }
  split; [exact Hres | split].
  - rewrite Hres. clear. induction text as [| u r IH]; cbn; [reflexivity | now rewrite IH].
  - unfold result, parse. cbn [fst].
    rewrite (applyGradients_frame originalIndex) by reflexivity. exact Hidx.
Qed.

Lemma unrecognized_tags_are_literal_witness :
  @literalOnly AsciiCase newParser (js "A<unknown>B</unknown>C<>D < E<b") = true
  /\ concat (map char (parseFresh "A<unknown>B</unknown>C<>D < E<b"))
     = js "A<unknown>B</unknown>C<>D < E<b".
Proof.
  assert (Hl : @literalOnly AsciiCase newParser (js "A<unknown>B</unknown>C<>D < E<b") = true)
    by (vm_compute; reflexivity).
  split; [exact Hl |].
  exact (proj1 (proj2 (unrecognized_tags_are_literal AsciiCase newParser _ (of_Z 32)
                         0xffffff%Z (js "TestFont") Hl))).
Defined.

(** * The fallback lookup terminates *)

Lemma unvisited_mono (U v v' : gset FontId) : v ⊆ v' -> size (U ∖ v') <= size (U ∖ v).
Proof. intros Hsub. apply subseteq_size. set_solver. Qed.

Lemma unvisited_add (U : gset FontId) (this : FontId) (v : gset FontId) :
  this ∈ U -> this ∉ v -> S (size (U ∖ ({[this]} ∪ v))) = size (U ∖ v).
Proof.
  intros HU Hv.
  assert (E : U ∖ v = {[this]} ∪ U ∖ ({[this]} ∪ v)).
  { apply set_eq. intros x. destruct (decide (x = this)); set_solver. }
  rewrite E.
  rewrite (size_union (C := gset nat) {[this]} (U ∖ ({[this]} ∪ v))) by set_solver.
  rewrite (size_singleton (C := gset nat)). reflexivity.
Qed.

Section FontLookup.
Context `{CaseOps}.
Variable heap : FontHeap.
Variable registry : FontRegistry.
Variable char : jsstring.
Variable U : gset FontId.
Hypothesis registered : map_img registry ⊆ U.

Lemma getFont_in_U name fb : getFont registry name = Some fb -> fb ∈ U.
Proof.
  unfold getFont. intros Hfb. apply registered.
  eapply elem_of_map_img_2. exact Hfb.
Qed.

(** The loop of one call, given that the recursive calls behave. *)
Lemma fallbackLoop_ok (fuel : nat) (recurse : FontId -> gset FontId -> option LookupResult)
  (this : FontId) (visited0 : gset FontId) :
  (forall fb v, fb ∈ U -> fb ∉ v -> size (U ∖ v) < fuel ->
   exists res, recurse fb v = Some res /\ lookupPost heap char U fb v res) ->
  forall names visited seen,
  size (U ∖ visited) < fuel ->
  visited0 ⊆ visited ->
  NoDup seen ->
  (exists rest, seen = this :: rest) ->
  (forall x, x ∈ seen ->
   x ∈ visited /\ assoc char (chars (heap x)) = None /\ (x ∉ visited0) /\ x ∈ U) ->
  exists res, fallbackLoop registry recurse names visited seen = Some res
  /\ lookupPost heap char U this visited0 res.
Proof.
  intros Hrec. induction names as [| fbName rest IH];
  intros visited seen Hsize Hsub Hnd Hhead Hseen; cbn [fallbackLoop].
  - eexists. split; [reflexivity |]. unfold lookupPost.
  split; [exact Hsub |]. split; [exact Hnd |]. split; [exact Hhead |].
  split; intros y Hy; destruct (Hseen y Hy) as (? & ? & ? & ?); auto.
  - destruct (getFont registry fbName) as [fb |] eqn:Hfb; [| apply IH; auto].
  case_bool_decide as Hvis; [apply IH; auto |].
  destruct (Hrec fb visited (getFont_in_U _ _ Hfb) Hvis Hsize)
  as ([[r visited'] seen'] & Hcall & Hpost).
  rewrite Hcall. unfold lookupPost in Hpost.
  destruct Hpost as (Hsub' & Hnd' & Hhead' & Hfresh & Hr).
  assert (Hnd'' : NoDup (seen ++ seen')).
  { apply NoDup_app. split; [exact Hnd |]. split; [| exact Hnd'].
  intros y Hy Hy'. destruct (Hseen y Hy) as (Hyv & _).
  destruct (Hfresh y Hy') as (Hyn & _). contradiction. }
  assert (Hhead'' : exists rest', seen ++ seen' = this :: rest').
  { destruct Hhead as (r0 & ->). eexists. reflexivity. }
  assert (Hfresh'' : forall y, y ∈ seen ++ seen' -> (y ∉ visited0) /\ y ∈ U).
  { intros y Hy. apply elem_of_app in Hy as [Hy | Hy].
  - destruct (Hseen y Hy) as (_ & _ & ? & ?). auto.
  - destruct (Hfresh y Hy) as (? & ?). split; [set_solver | auto]. }
  destruct r as [[cd f] |].
  + eexists. split; [reflexivity |]. unfold lookupPost.
  destruct Hr as (pre & Epre & Hcd & Hpre).
  split; [set_solver |]. split; [exact Hnd'' |]. split; [exact Hhead'' |].
  split; [exact Hfresh'' |].
  exists (seen ++ pre). split; [rewrite Epre; apply app_assoc |]. split; [exact Hcd |].
  intros y Hy. apply elem_of_app in Hy as [Hy | Hy];
    [destruct (Hseen y Hy) as (_ & ? & _); auto | auto].
  + apply IH; auto.
  * pose proof (unvisited_mono U visited visited' Hsub'). lia.
  * set_solver.
  * intros y Hy. destruct (Hfresh'' y Hy) as (? & ?).
    apply elem_of_app in Hy as [Hy | Hy].
    -- destruct (Hseen y Hy) as (? & ? & _). repeat split; auto.
    -- destruct (Hr y Hy) as (? & ?). repeat split; auto.
Qed.

Lemma getCharWithFallback_from_ok (fuel : nat) : forall this visited,
  this ∈ U -> this ∉ visited -> size (U ∖ visited) < fuel ->
  exists res, getCharWithFallback_from fuel heap registry this char visited = Some res
  /\ lookupPost heap char U this visited res.
Proof.
  induction fuel as [| fuel IH]; intros this visited HU Hv Hsize; [lia |].
  cbn [getCharWithFallback_from].
  destruct (assoc char (chars (heap this))) as [cd |] eqn:Hcd.
  - eexists. split; [reflexivity |]. unfold lookupPost.
  split; [reflexivity |]. split; [apply NoDup_singleton |].
  split; [eexists; reflexivity |].
  split; [intros y Hy; apply list_elem_of_singleton in Hy; subst; auto |].
  exists []. split; [reflexivity |]. split; [exact Hcd |].
  intros y Hy. inversion Hy.
  - pose proof (unvisited_add U this visited HU Hv) as Hadd.
  apply (fallbackLoop_ok fuel _ this visited); auto.
  + lia.
  + set_solver.
  + apply NoDup_singleton.
  + eexists. reflexivity.
  + intros y Hy. apply list_elem_of_singleton in Hy. subst.
  repeat split; auto. set_solver.
Qed.
End FontLookup.

(** C9. [getCharWithFallback] returns for every heap of fonts, every
    registry, every starting font and every character, whatever cycles
    the fallback names form: with one unit of fuel per font object the
    model's lookup never runs out. The fonts whose glyph table the lookup
    read are pairwise distinct (no font is consulted twice); the result
    is undefined exactly when every consulted font lacks the glyph, and
    it is undefined when no font object has the glyph. *)
Theorem getCharWithFallback_terminates `{CaseOps} (heap : FontHeap)
    (registry : FontRegistry) (this : FontId) (char : jsstring) :
  exists r visited seen,
    getCharWithFallback_from (lookupFuel registry this) heap registry this char ∅
      = Some (r, visited, seen)
    /\ getCharWithFallback heap registry this char = r
    /\ NoDup seen
    /\ (r = None <-> (forall f, f ∈ seen -> assoc char (chars (heap f)) = None))
    /\ ((forall f, f ∈ fontObjects registry this -> assoc char (chars (heap f)) = None)
        -> r = None).
Proof.
  destruct (getCharWithFallback_from_ok heap registry char (fontObjects registry this)
              ltac:(unfold fontObjects; set_solver)
              (lookupFuel registry this) this ∅)
    as ([[r visited] seen] & Hrun & Hpost).
  - unfold fontObjects. set_solver.
  - set_solver.
  - unfold lookupFuel.
        assert (E : fontObjects registry this ∖ ∅ = fontObjects registry this)
      by (apply set_eq; set_solver).
    rewrite E. lia.
  - exists r, visited, seen. unfold lookupPost in Hpost.
    destruct Hpost as (_ & Hnd & _ & Hfresh & Hr).
    split; [exact Hrun |].
    split; [unfold getCharWithFallback; rewrite Hrun; reflexivity |].
    split; [exact Hnd |].
    destruct r as [[cd f] |].
    + destruct Hr as (pre & -> & Hcd & _).
      assert (Hin : f ∈ pre ++ [f]) by (apply elem_of_app; right; apply list_elem_of_singleton; reflexivity).
      split; [split; [discriminate | intros Hall; rewrite (Hall f Hin) in Hcd; discriminate] |].
      intros Hall. destruct (Hfresh f Hin) as (_ & HfU).
      rewrite (Hall f HfU) in Hcd. discriminate.
    + split; [split; [intros _ f Hf; apply (Hr f Hf) | reflexivity] | reflexivity].
Qed.

(** A font that is its own fallback, and two fonts that are each other's
    fallback: the lookup of a glyph none of them has is undefined, and
    each font was consulted once. *)
Example self_fallback_not_found :
  @getCharWithFallback_from AsciiCase (lookupFuel selfRegistry 0) selfHeap selfRegistry 0
      [0x4E2D%Z] ∅ = Some (None, {[0]}, [0]).
Proof. vm_compute. reflexivity. Qed.

Example cyclic_fallback_not_found :
  exists visited,
    @getCharWithFallback_from AsciiCase (lookupFuel cycleRegistry 0) cycleHeap cycleRegistry 0
      [0x4E2D%Z] ∅ = Some (None, visited, [0; 1])
    /\ @getCharWithFallback AsciiCase cycleHeap cycleRegistry 1 [0x4E2D%Z] = None
    /\ option_map snd (@getCharWithFallback AsciiCase cycleHeap cycleRegistry 1 [65%Z])
       = Some 1.
Proof. eexists. repeat split; vm_compute; reflexivity. Qed.

(** * flushWord: when a word moves to a new line *)

Lemma addToNextLine_wordWraps (parsed : list ParsedChar) (tstyle : TMPTextStyle)
    (st : LayoutState) (first : CharacterInfo) (rest : list CharacterInfo) :
  wordBuffer st = first :: rest ->
  addToNextLine parsed tstyle st = wordWraps tstyle (parsedAt parsed (ci_index first)) st.
Proof.
  intros Hbuf. unfold addToNextLine, wordWraps, overflowTolerance, isJustifiedOrFlush.
  rewrite Hbuf. destruct (isFirstWord st), (style_wordWrap tstyle); reflexivity.
Qed.

(** C2. A flush of a word buffer that is not empty ends the current
    line and starts a new one exactly when wrapping is enabled, the word
    is not the first of its line and cursorX + wordWidth exceeds the
    effective wrap width times the tolerance (1.05 for justified or flush
    text, 1.0 otherwise): in that case the line index grows by one, one
    line is pushed and the new line starts at the word; otherwise the line
    index, the pushed lines and the start of the current line are kept.
    Either way the characters of the buffer are appended on the line the
    flush ends on. And "Hello World" with the 10-unit mock font, wrapping
    enabled and wrap width 60 is laid out on exactly 2 lines, "Hello " on
    the first and "World" on the second. *)
Theorem flushWord_wraps_word :
  (forall (parsed : list ParsedChar) (tstyle : TMPTextStyle) (st : LayoutState)
          (first : CharacterInfo) (rest : list CharacterInfo),
      let st0 := set_wordBuffer (first :: rest) st in
      let st' := flushWord parsed tstyle st0 in
      let wraps := wordWraps tstyle (parsedAt parsed (ci_index first)) st in
      lineIndex st' = (if wraps then lineIndex st + 1 else lineIndex st)
      /\ length (lineInfos st') = (if wraps then length (lineInfos st) + 1
                                   else length (lineInfos st))
      /\ li_firstCharIndex (currentLine st')
         = (if wraps then Z.of_nat (length (characterInfo st))
            else li_firstCharIndex (currentLine st))
      /\ exists placed,
           characterInfo st' = characterInfo st ++ placed
           /\ map ci_index placed = map ci_index (first :: rest)
           /\ Forall (fun ci => ci_lineIndex ci = lineIndex st') placed)
  /\ option_map (fun info => (ti_lineCount info, lineIndexes info))
       (layoutText "Hello World" (testStyle true 60 0 overflow))
     = Some (2, [Some 0; Some 0; Some 0; Some 0; Some 0; Some 0;
                 Some 1; Some 1; Some 1; Some 1; Some 1]).
Proof.
  split; [| vm_compute; reflexivity].
  intros parsed tstyle st first rest st0 st' wraps.
  assert (Hdec : addToNextLine parsed tstyle st0 = wraps).
  { unfold wraps. rewrite (addToNextLine_wordWraps parsed tstyle st0 first rest eq_refl).
    destruct st; reflexivity. }
  subst st'. unfold flushWord.
  replace (wordBuffer st0) with (first :: rest) by (destruct st; reflexivity).
  rewrite Hdec. clear Hdec. subst st0.
  destruct wraps; destruct st; cbn;
    repeat match goal with |- context [if fgt ?a ?b then _ else _] =>
             destruct (fgt a b); cbn end;
    (split; [try reflexivity; lia |]);
    (split; [try reflexivity; rewrite ?length_app; cbn; lia |]);
    (split; [reflexivity |]);
    (eexists; split; [reflexivity |]; split;
      [unfold placeWord; cbn; rewrite ?map_map; reflexivity
      | apply Forall_cons; split; [reflexivity |];
        apply Forall_map, Forall_forall; intros ci _; reflexivity]).
Qed.

(** * applyOverflow and an empty last line *)

(** C10. The text "A", line break, <line-height=500>, <shy> laid out
    with the mock font in a container of height 100. The second line is
    empty, so it keeps the [lastCharIndex = firstCharIndex = 2] it was
    created with, and it fits (y = 50, height = 40) although the total
    height, 550, does not. With overflowMode 'truncate' [chars.length =
    lastCharIndex + 1] then extends the two laid-out characters to three
    entries: characterCount is 3 and the entry at index 2 is a hole,
    which has no lineIndex. With 'ellipsis' the loop that makes room reads
    [last.width] of that hole and the layout throws. With 'overflow' the
    same text gives two characters, both on line 0 of 2. *)
Theorem overflow_extends_characterInfo :
  option_map (fun info => (ti_characterCount info, ti_lineCount info, lineIndexes info))
    (layoutText emptyLastLineText (testStyle false 400 100 truncate))
  = Some (3, 2, [Some 0; Some 0; None])
  /\ layoutText emptyLastLineText (testStyle false 400 100 ellipsis) = None
  /\ option_map (fun info => (ti_characterCount info, ti_lineCount info, lineIndexes info))
       (layoutText emptyLastLineText (testStyle false 400 100 overflow))
     = Some (2, 2, [Some 0; Some 0]).
Proof. repeat split; vm_compute; reflexivity. Qed.

(** * The loops of the parser run to the end of their text *)

Section Progress.
Context `{CaseOps}.

Lemma indexOfFrom_ge (c : Z) (from : nat) (s : jsstring) (k : nat) :
  indexOfFrom c from s = Some k -> from <= k.
Proof.
  unfold indexOfFrom. destruct (indexOf c (drop from s)); cbn; [| discriminate].
  intros [= <-]. lia.
Qed.

Lemma tryParseTag_length (text : jsstring) (pos : nat) (tag : TagParseResult) :
  _tryParseTag text pos = Some tag -> 1 <= tagLength tag.
Proof.
  unfold _tryParseTag. intros Htag.
  repeat (case_match; simplify_eq); cbn; lia.
Qed.

Lemma applyPending_i (pc pc' : ParsedChar) (st st' : ParseState) :
  applyPending pc st = (pc', st') -> ps_i st' = ps_i st.
Proof.
  unfold applyPending. intros Hp. repeat (case_match; simplify_eq); reflexivity.
Qed.

Lemma handleTag_i (tag : TagParseResult) (baseFontSize : number) (st st' : ParseState) :
  handleTag tag baseFontSize st = Some st' -> ps_i st' = ps_i st + tagLength tag.
Proof.
  unfold handleTag, emitMark, styleTag. intros Hh.
  repeat (case_match; simplify_eq); cbn;
    try reflexivity;
    match goal with
    | Hp : applyPending _ _ = _ |- _ => rewrite (applyPending_i _ _ _ _ Hp); reflexivity
    end.
Qed.

(** Every iteration moves the index forward. *)
Lemma parseStep_progress (text : jsstring) (baseFontSize : number) (st : ParseState) :
  ps_i st < ps_i (parseStep text baseFontSize st).
Proof.
  unfold parseStep, emitLiteralLT.
  repeat (case_match; simplify_eq); cbn; try lia.
  - match goal with
    | Hc : colorShorthand _ _ = Some _ |- _ =>
      unfold colorShorthand in Hc; repeat (case_match; simplify_eq)
    end.
    match goal with
    | Hi : indexOfFrom _ _ _ = Some _ |- _ => apply indexOfFrom_ge in Hi; lia
    end.
  - match goal with
    | Hh : handleTag _ _ _ = Some _, Ht : _tryParseTag _ _ = Some _ |- _ =>
      rewrite (handleTag_i _ _ _ _ Hh); apply tryParseTag_length in Ht; lia
    end.
  - match goal with
    | Hp : applyPending _ _ = _ |- _ => rewrite (applyPending_i _ _ _ _ Hp); lia
    end.
Qed.

(** With as much fuel as characters left, the loop of [parse] stops
    because the index has reached the end of the text. *)
Lemma parseLoop_complete (fuel : nat) : forall text baseFontSize st,
  length text - ps_i st <= fuel ->
  length text <= ps_i (parseLoop fuel text baseFontSize st).
Proof.
  induction fuel as [| fuel IH]; intros text baseFontSize st Hfuel; cbn [parseLoop].
  - lia.
  - destruct (Nat.ltb_spec (ps_i st) (length text)) as [Hlt | Hge]; [| exact Hge].
    apply IH. pose proof (parseStep_progress text baseFontSize st). lia.
Qed.

(** More fuel than characters left changes nothing: the loop over a
    style preset is that of the source. *)
Lemma applyStylePresetOpen_fuel (fuel : nat) : forall fuel' openMarkup baseFontSize j ps,
  length openMarkup - j <= fuel -> length openMarkup - j <= fuel' ->
  _applyStylePresetOpen fuel openMarkup baseFontSize j ps
  = _applyStylePresetOpen fuel' openMarkup baseFontSize j ps.
Proof.
  induction fuel as [| fuel IH]; intros [| fuel'] openMarkup baseFontSize j ps H1 H2;
    cbn [_applyStylePresetOpen]; try reflexivity.
  - destruct (Nat.ltb_spec j (length openMarkup)); [lia | reflexivity].
  - destruct (Nat.ltb_spec j (length openMarkup)); [lia | reflexivity].
  - destruct (Nat.ltb_spec j (length openMarkup)) as [Hlt | Hge]; [| reflexivity].
    destruct (_tryParseTag openMarkup j) as [tag |] eqn:Htag; [| apply IH; lia].
    apply tryParseTag_length in Htag.
    destruct (isClosing tag); cbn [negb]; apply IH; lia.
Qed.

Lemma applyStylePresetClose_fuel (fuel : nat) : forall fuel' closeMarkup j ps,
  length closeMarkup - j <= fuel -> length closeMarkup - j <= fuel' ->
  _applyStylePresetClose fuel closeMarkup j ps
  = _applyStylePresetClose fuel' closeMarkup j ps.
Proof.
  induction fuel as [| fuel IH]; intros [| fuel'] closeMarkup j ps H1 H2;
    cbn [_applyStylePresetClose]; try reflexivity.
  - destruct (Nat.ltb_spec j (length closeMarkup)); [lia | reflexivity].
  - destruct (Nat.ltb_spec j (length closeMarkup)); [lia | reflexivity].
  - destruct (Nat.ltb_spec j (length closeMarkup)) as [Hlt | Hge]; [| reflexivity].
    destruct (_tryParseTag closeMarkup j) as [tag |] eqn:Htag; [| apply IH; lia].
    apply tryParseTag_length in Htag.
    destruct (isClosing tag); apply IH; lia.
Qed.
End Progress.

(** * Facts about numbers: the quotient of an index by itself *)

Lemma digits2_pos_lower (p : positive) :
  (2 ^ (Z.pos (digits2_pos p) - 1) <= Z.pos p)%Z.
Proof.
  induction p as [p IH | p IH |]; cbn [digits2_pos].
  - rewrite Pos2Z.inj_succ. replace (Z.succ (Z.pos (digits2_pos p)) - 1)%Z
      with (Z.succ (Z.pos (digits2_pos p) - 1))%Z by lia.
    rewrite Z.pow_succ_r by lia. lia.
  - rewrite Pos2Z.inj_succ. replace (Z.succ (Z.pos (digits2_pos p)) - 1)%Z
      with (Z.succ (Z.pos (digits2_pos p) - 1))%Z by lia.
    rewrite Z.pow_succ_r by lia. lia.
  - cbn. lia.
Qed.

Lemma digits2_pos_bound (p : positive) :
  (Z.pos p < 2 ^ 53)%Z -> (Z.pos (digits2_pos p) <= 53)%Z.
Proof.
  intros Hp. pose proof (digits2_pos_lower p) as Hlow.
  destruct (Z_le_gt_dec (Z.pos (digits2_pos p)) 53) as [Hle | Hgt]; [exact Hle |].
  assert (2 ^ 53 <= 2 ^ (Z.pos (digits2_pos p) - 1))%Z by (apply Z.pow_le_mono_r; lia).
  lia.
Qed.

Lemma digits2_pos_iter (p k : positive) :
  digits2_pos (Pos.iter xO p k) = (digits2_pos p + k)%positive.
Proof.
  induction k as [| k IH] using Pos.peano_ind.
  - cbn. rewrite Pos.add_1_r. reflexivity.
  - rewrite Pos.iter_succ. cbn [digits2_pos]. rewrite IH. lia.
Qed.

(** A mantissa of 53 digits with an exponent in range is kept as it is. *)
Lemma binary_round_aux_canonical (m : positive) (e : Z) :
  Z.pos (digits2_pos m) = 53%Z -> (-1074 <= e <= 971)%Z ->
  binary_round_aux prec emax false (Z.pos m) e loc_Exact = S754_finite false m e.
Proof.
  intros Hd He. unfold binary_round_aux, shr_fexp. cbn [Zdigits2 shr_record_of_loc].
  rewrite Hd.
  assert (Hf : fexp prec emax (53 + e) = e).
  { unfold fexp, emin, prec, emax. lia. }
  rewrite Hf, Z.sub_diag. cbn [shr shr_m loc_of_shr_record round_nearest_even Zdigits2].
  rewrite Hd, Hf, Z.sub_diag. cbn [shr shr_m shr_record_of_loc].
  replace (e <=? emax - prec)%Z with true; [reflexivity |].
  symmetry. apply Z.leb_le. unfold emax, prec. lia.
Qed.

Lemma of_Z_pos_finite (p : positive) :
  (Z.pos p < 2 ^ 53)%Z -> exists m e, of_Z (Z.pos p) = S754_finite false m e.
Proof.
  intros Hp. pose proof (digits2_pos_bound p Hp) as Hd.
  unfold of_Z, binary_normalize, binary_round, shl_align.
  assert (Hf : fexp prec emax (Z.pos (digits2_pos p) + 0) = (Z.pos (digits2_pos p) - 53)%Z).
  { unfold fexp, emin, prec, emax. lia. }
  rewrite Hf.
  destruct (Z.pos (digits2_pos p) - 53 - 0)%Z as [| k | k] eqn:Hk; try lia.
  - eexists _, _. apply binary_round_aux_canonical; lia.
  - eexists _, _. apply binary_round_aux_canonical; [| lia].
    rewrite digits2_pos_iter. lia.
Qed.

Lemma fdiv_self (m : positive) (e : Z) :
  fdiv (S754_finite false m e) (S754_finite false m e) = f1.
Proof.
  unfold fdiv, SFdiv, SFdiv_core_binary.
  rewrite !Z.sub_diag.
  replace (Z.min (fexp prec emax 0) 0) with (-53)%Z by reflexivity.
  replace (0 - -53)%Z with 53%Z by reflexivity.
  destruct (Z.div_eucl (Z.shiftl (Z.pos m) 53) (Z.pos m)) as [q r] eqn:E.
  assert (Hq : q = (Z.shiftl (Z.pos m) 53 / Z.pos m)%Z) by (unfold Z.div; rewrite E; reflexivity).
  assert (Hr : r = (Z.shiftl (Z.pos m) 53 mod Z.pos m)%Z)
    by (unfold Z.modulo; rewrite E; reflexivity).
  rewrite Z.shiftl_mul_pow2 in Hq, Hr by lia.
  rewrite Z.mul_comm, Z.div_mul in Hq by lia. rewrite Z.mul_comm, Z.mod_mul in Hr by lia.
  subst q r.
  replace (new_location (Z.pos m) 0) with loc_Exact
    by (unfold new_location, new_location_even, new_location_odd;
        destruct (Z.even (Z.pos m)); reflexivity).
  vm_compute. reflexivity.
Qed.

(** [k / k] is 1 and [0 / k] is 0 for an index [k] that is not 0. *)
Lemma of_nat_div_self (n : nat) :
  0 < n -> (Z.of_nat n < 2 ^ 53)%Z ->
  fdiv (of_nat n) (of_nat n) = f1 /\ fdiv (of_nat 0) (of_nat n) = fzero.
Proof.
  intros Hn Hb. unfold of_nat.
  destruct (Z.of_nat n) as [| p | p] eqn:Hz; try lia.
  destruct (of_Z_pos_finite p Hb) as (m & e & ->).
  split; [apply fdiv_self | reflexivity].
Qed.

(** * Facts about lerpColor at the two ends *)

Lemma lerpChannel_ends_checked :
  forallb (fun a => forallb (channelEnds a) channelRange) channelRange = true.
Proof. vm_compute. reflexivity. Qed.

Lemma in_channelRange (a : Z) : (0 <= a < 256)%Z -> In a channelRange.
Proof.
  intros Ha. unfold channelRange. apply in_map_iff. exists (Z.to_nat a).
  split; [lia |]. apply in_seq. lia.
Qed.

Lemma lerpChannel_ends (a b : Z) :
  (0 <= a < 256)%Z -> (0 <= b < 256)%Z ->
  lerpChannel a b fzero = a /\ lerpChannel a b f1 = b.
Proof.
  intros Ha Hb.
  pose proof (proj1 (forallb_forall _ _) lerpChannel_ends_checked a (in_channelRange a Ha))
    as Hrow.
  cbv beta in Hrow.
  pose proof (proj1 (forallb_forall _ _) Hrow b (in_channelRange b Hb)) as Hc.
  apply andb_prop in Hc as [H0 H1]. split; apply Z.eqb_eq; assumption.
Qed.

Lemma wrap_int32_small (z : Z) : (0 <= z < 2 ^ 31)%Z -> wrap_int32 z = z.
Proof.
  intros Hz. unfold wrap_int32, wrap_uint32. rewrite Z.mod_small by lia.
  destruct (z <? 2 ^ 31)%Z eqn:E; [reflexivity | apply Z.ltb_ge in E; lia].
Qed.

Lemma wrap_int32_testbit (z n : Z) :
  (0 <= n < 32)%Z -> Z.testbit (wrap_int32 z) n = Z.testbit z n.
Proof.
  intros Hn. rewrite <- (Z.mod_pow2_bits_low (wrap_int32 z) 32 n) by lia.
  rewrite <- (Z.mod_pow2_bits_low z 32 n) by lia. f_equal.
  unfold wrap_int32, wrap_uint32. destruct (z mod 2 ^ 32 <? 2 ^ 31)%Z.
  - apply Z.mod_mod. lia.
  - replace (z mod 2 ^ 32 - 2 ^ 32)%Z with (z mod 2 ^ 32 + (-1) * 2 ^ 32)%Z by lia.
    rewrite Z.mod_add by lia. apply Z.mod_mod. lia.
Qed.

Lemma channel_range (x : Z) : (0 <= Z.land x 255 < 256)%Z.
Proof.
  change 255%Z with (Z.ones 8). rewrite Z.land_ones by lia.
  apply Z.mod_pos_bound. lia.
Qed.

Lemma lshift_channel (r n : Z) :
  (0 <= r < 256)%Z -> (0 <= n <= 16)%Z -> lshift r n = Z.shiftl r n.
Proof.
  intros Hr Hn. unfold lshift. rewrite (wrap_int32_small r) by lia.
  apply wrap_int32_small. rewrite Z.shiftl_mul_pow2 by lia.
  assert (2 ^ n <= 2 ^ 16)%Z by (apply Z.pow_le_mono_r; lia).
  assert (0 < 2 ^ n)%Z by (apply Z.pow_pos_nonneg; lia).
  nia.
Qed.

(** The channels of a colour put together again are its low 24 bits. *)
Lemma channels_recombine (a : Z) :
  Z.lor (Z.lor (lshift (Z.land (rshift a 16) 255) 16) (lshift (Z.land (rshift a 8) 255) 8))
        (Z.land (wrap_int32 a) 255)
  = Z.land a 0xffffff.
Proof.
  rewrite !lshift_channel by (try apply channel_range; lia).
  unfold rshift. apply Z.bits_inj'. intros n Hn.
  rewrite !Z.lor_spec, !Z.land_spec, !Z.shiftl_spec by lia.
  change 255%Z with (Z.ones 8). change 0xffffff%Z with (Z.ones 24).
  destruct (Z_lt_ge_dec n 8) as [H8 | H8];
    [| destruct (Z_lt_ge_dec n 16) as [H16 | H16];
       [| destruct (Z_lt_ge_dec n 24) as [H24 | H24]]].
  - rewrite (Z.testbit_neg_r _ (n - 16)), (Z.testbit_neg_r _ (n - 8)) by lia.
    rewrite !Z.ones_spec_low by lia. rewrite wrap_int32_testbit by lia.
    cbn. reflexivity.
  - rewrite (Z.testbit_neg_r _ (n - 16)) by lia.
    rewrite !Z.land_spec, Z.shiftr_spec by lia.
    rewrite (Z.ones_spec_low 8 (n - 8)), (Z.ones_spec_high 8 n), (Z.ones_spec_low 24 n) by lia.
    replace (n - 8 + 8)%Z with n by lia. rewrite wrap_int32_testbit by lia.
    cbn. rewrite !andb_true_r, !andb_false_r, !orb_false_r. reflexivity.
  - rewrite !Z.land_spec, !Z.shiftr_spec by lia.
    rewrite (Z.ones_spec_low 8 (n - 16)), (Z.ones_spec_high 8 (n - 8)),
      (Z.ones_spec_high 8 n), (Z.ones_spec_low 24 n) by lia.
    replace (n - 16 + 16)%Z with n by lia. rewrite wrap_int32_testbit by lia.
    rewrite !andb_true_r, !andb_false_r, !orb_false_r. reflexivity.
  - rewrite !Z.land_spec, !Z.shiftr_spec by lia.
    rewrite (Z.ones_spec_high 8 (n - 16)), (Z.ones_spec_high 8 (n - 8)),
      (Z.ones_spec_high 8 n), (Z.ones_spec_high 24 n) by lia.
    rewrite !andb_false_r. reflexivity.
Qed.

Lemma lerpColor_ends (a b : Z) :
  lerpColor a b fzero = Z.land a 0xffffff /\ lerpColor a b f1 = Z.land b 0xffffff.
Proof.
  unfold lerpColor.
  destruct (lerpChannel_ends (Z.land (rshift a 16) 255) (Z.land (rshift b 16) 255)
              (channel_range _) (channel_range _)) as [-> ->].
  destruct (lerpChannel_ends (Z.land (rshift a 8) 255) (Z.land (rshift b 8) 255)
              (channel_range _) (channel_range _)) as [-> ->].
  destruct (lerpChannel_ends (Z.land (wrap_int32 a) 255) (Z.land (wrap_int32 b) 255)
              (channel_range _) (channel_range _)) as [-> ->].
  split; apply channels_recombine.
Qed.

Lemma low24_id (c : Z) : (0 <= c < 2 ^ 24)%Z -> Z.land c 0xffffff = c.
Proof.
  intros Hc. change 0xffffff%Z with (Z.ones 24). rewrite Z.land_ones by lia.
  apply Z.mod_small. exact Hc.
Qed.

(** * The gradient post-process, run by run *)

Lemma setColorAt_colors (i : nat) (c : Z) (chars : list ParsedChar) :
  map colorOf (setColorAt i c chars) = <[i := c]> (map colorOf chars).
Proof.
  unfold setColorAt. destruct (chars !! i) as [pc |] eqn:Hi.
  - change (map colorOf) with (fmap (M := list) colorOf).
    rewrite list_fmap_insert. reflexivity.
  - symmetry. apply list_insert_ge. rewrite length_map.
    apply lookup_ge_None. exact Hi.
Qed.

Lemma setColorAt_length (i : nat) (c : Z) (chars : list ParsedChar) :
  length (setColorAt i c chars) = length chars.
Proof.
  unfold setColorAt. destruct (chars !! i); [apply length_insert | reflexivity].
Qed.

(** The loop of interpolateRegion sets the colours of the indices it
    runs over and no other. *)
Lemma interpolateLoop_colors (n : nat) : forall chars start i count c0 c1 k,
  i + n <= length chars ->
  map colorOf (interpolateLoop n chars start i count c0 c1) !! k
  = if (i <=? k) && (k <? i + n)
    then Some (lerpColor c0 c1 (fdiv (of_nat (k - start)) (of_nat count)))
    else map colorOf chars !! k.
Proof.
  induction n as [| n IH]; intros chars start i count c0 c1 k Hlen; cbn [interpolateLoop].
  - replace ((i <=? k) && (k <? i + 0)) with false; [reflexivity |].
    symmetry. apply andb_false_iff.
    destruct (Nat.leb_spec i k); [right; apply Nat.ltb_ge; lia | left; reflexivity].
  - rewrite IH by (rewrite setColorAt_length; lia).
    rewrite setColorAt_colors.
    destruct (Nat.leb_spec (i + 1) k) as [H1 | H1]; destruct (Nat.ltb_spec k (i + 1 + n)) as [H2 | H2];
      destruct (Nat.leb_spec i k) as [H3 | H3]; destruct (Nat.ltb_spec k (i + S n)) as [H4 | H4];
      cbn [andb]; try lia; try reflexivity;
      try (rewrite list_lookup_insert_ne by lia; reflexivity).
    assert (k = i) by lia. subst k.
    rewrite list_lookup_insert_eq; [reflexivity | rewrite length_map; lia].
Qed.

(** interpolateRegion over the [N] characters from [start] on gives
    each its run colour and keeps the other colours. *)
Lemma interpolateRegion_colors (chars : list ParsedChar) (start N : nat) (c0 c1 : Z)
    (rest : list Z) (k : nat) :
  0 < N -> start + N <= length chars ->
  map colorOf (interpolateRegion chars start (start + N - 1) (c0 :: c1 :: rest)) !! k
  = if (start <=? k) && (k <? start + N)
    then Some (runColor c0 c1 N (k - start))
    else map colorOf chars !! k.
Proof.
  intros HN Hlen. unfold interpolateRegion, runColor. cbn [lookup list_lookup default from_option].
  replace (start + N - 1 - start) with (N - 1) by lia.
  destruct (Nat.eqb_spec (N - 1) 0) as [H1 | H1].
  - assert (N = 1) by lia. subst N. cbn [Nat.eqb].
    rewrite setColorAt_colors.
    destruct (Nat.leb_spec start k) as [H3 | H3]; destruct (Nat.ltb_spec k (start + 1)) as [H4 | H4];
      cbn [andb]; try lia;
      try (rewrite list_lookup_insert_ne by lia; reflexivity).
    assert (k = start) by lia. subst k.
    rewrite list_lookup_insert_eq; [reflexivity | rewrite length_map; lia].
  - destruct (Nat.eqb_spec N 1) as [H2 | H2]; [lia |].
    rewrite interpolateLoop_colors by lia.
    replace (start + (N - 1 + 1)) with (start + N) by lia. reflexivity.
Qed.

Lemma gradientsOf_lookup (cs chars : list ParsedChar) (k : nat) :
  gradientsOf cs = gradientsOf chars ->
  option_map (fun pc => gradientColors (style pc)) (cs !! k)
  = option_map (fun pc => gradientColors (style pc)) (chars !! k).
Proof.
  intros HG. unfold gradientsOf in HG.
  change (option_map ?f ?o) with (f <$> o).
  rewrite <- !list_lookup_fmap. change (fmap ?f ?l) with (map f l). rewrite HG. reflexivity.
Qed.

Lemma gradientsOf_length (cs chars : list ParsedChar) :
  gradientsOf cs = gradientsOf chars -> length cs = length chars.
Proof.
  intros HG. apply (f_equal (@length _)) in HG. unfold gradientsOf in HG.
  rewrite !length_map in HG. exact HG.
Qed.

(** What the loop reads at index [i]: either no gradient, or a list that
    starts with the two endpoints of the character. *)
Lemma gradient_read (cs chars : list ParsedChar) (i : nat) :
  gradientsOf cs = gradientsOf chars ->
  let gc := if i <? length chars
            then match cs !! i with
                 | Some pc => gradientColors (style pc)
                 | None => []
                 end
            else [] in
  (endpointsAt chars i = None /\ (2 <=? length gc) = false)
  \/ (exists a b rest, gc = a :: b :: rest /\ endpointsAt chars i = Some (a, b)).
Proof.
  intros HG gc. pose proof (gradientsOf_lookup cs chars i HG) as Hk.
  unfold endpointsAt, endpointsOf. subst gc.
  destruct (Nat.ltb_spec i (length chars)) as [Hlt | Hge].
  - destruct (cs !! i) as [pc |], (chars !! i) as [pc' |]; cbn in Hk; try discriminate.
    + injection Hk as Hk. rewrite <- Hk.
      destruct (gradientColors (style pc)) as [| a [| b rest]]; [left | left | right]; auto.
      exists a, b, rest. auto.
    + left. auto.
  - rewrite (proj2 (lookup_ge_None chars i)) by lia. left. auto.
Qed.

Section GradientRun.
Variable chars : list ParsedChar.
Variables s N : nat.
Variables c0 c1 : Z.
Hypothesis N_pos : 0 < N.
Hypothesis run : forall k, s <= k < s + N -> endpointsAt chars k = Some (c0, c1).
Hypothesis run_left : s = 0 \/ endpointsAt chars (s - 1) <> Some (c0, c1).
Hypothesis run_right : endpointsAt chars (s + N) <> Some (c0, c1).

Lemma run_in_chars : s + N <= length chars.
Proof.
  destruct (Nat.le_gt_cases (s + N) (length chars)) as [Hle | Hgt]; [exact Hle |].
  assert (Hk : s <= s + N - 1 < s + N) by lia. specialize (run _ Hk).
  unfold endpointsAt in run.
  rewrite (proj2 (lookup_ge_None chars (s + N - 1))) in run by lia. discriminate.
Qed.

(** An open region that reaches the end of the run is the run. *)
Lemma open_region_is_run (st : nat) (a b : Z) :
  st < s + N ->
  (forall k, st <= k < s + N -> endpointsAt chars k = Some (a, b)) ->
  (st = 0 \/ endpointsAt chars (st - 1) <> Some (a, b)) ->
  st = s /\ a = c0 /\ b = c1.
Proof.
  intros Hst Hreg Hleft.
  assert (Hlast : s <= s + N - 1 < s + N) by lia.
  pose proof (run _ Hlast) as H1. rewrite (Hreg (s + N - 1)) in H1 by lia.
  injection H1 as -> ->.
  split; [| split; reflexivity].
  destruct (Nat.lt_trichotomy st s) as [Hlt | [Heq | Hgt]]; [| exact Heq |].
  - exfalso. destruct run_left as [Hs | Hs]; [lia |].
    apply Hs. apply Hreg. lia.
  - exfalso. destruct Hleft as [Hs | Hs]; [lia |].
    apply Hs. apply run. lia.
Qed.

Lemma sameGrad_true (a b a' b' : Z) (rest rest' : list Z) :
  (2 <=? length (a' :: b' :: rest'))
  && (2 <=? length (a :: b :: rest))
  && bool_decide ((a' :: b' :: rest') !! 0 = (a :: b :: rest) !! 0)
  && bool_decide ((a' :: b' :: rest') !! 1 = (a :: b :: rest) !! 1)
  = bool_decide ((a', b') = (a, b)).
Proof.
  cbn. repeat case_bool_decide; try reflexivity; exfalso; simplify_eq; congruence.
Qed.

Lemma gradientStep_inv (i : nat) (g : GradState) :
  i <= length chars -> gradInv chars s N c0 c1 i g ->
  gradInv chars s N c0 c1 (i + 1) (gradientStep (length chars) i g).
Proof.
  intros Hi (HG & HS & HC). unfold gradientStep.
  pose proof (gradientsOf_length _ _ HG) as Hlen.
  destruct (gradient_read (g_chars g) chars i HG) as [[He Hnot] | (a' & b' & rest' & -> & He)].
  - (* no gradient at [i] *)
    rewrite Hnot. cbn [andb negb].
    destruct (gradStart g) as [st |] eqn:Hst.
    + destruct HS as (Hlt & a & b & rest & Hcols & Hreg & Hleft).
      cbn [gradStart g_chars gradColors]. unfold gradInv. cbn [gradStart g_chars gradColors].
      split; [rewrite <- HG; apply (interpolateRegion_frame (fun pc => gradientColors (style pc)));
              reflexivity |].
      split; [right; replace (i + 1 - 1) with i by lia; exact He |].
      intros Hpast. split; [| discriminate].
      intros j Hj. rewrite Hcols.
      replace (i - 1) with (st + (i - st) - 1) by lia.
      rewrite interpolateRegion_colors by lia.
      destruct (Nat.eq_dec (s + N) i) as [Hend | Hend].
      * destruct (open_region_is_run st a b) as (-> & -> & ->); [lia | | exact Hleft |].
        { intros k Hk. apply Hreg. lia. }
        replace (s + (i - s)) with (s + N) by lia.
        replace (i - s) with N by lia.
        destruct (Nat.leb_spec s (s + j)); [| lia].
        destruct (Nat.ltb_spec (s + j) (s + N)); [| lia].
        cbn [andb]. replace (s + j - s) with j by lia. reflexivity.
      * destruct HC as [Hcol Hafter]; [lia |].
        specialize (Hafter st eq_refl).
        destruct (Nat.leb_spec st (s + j)); [lia |]. cbn [andb]. apply Hcol, Hj.
    + rewrite Hst. unfold gradInv. rewrite Hst.
      split; [exact HG |].
      split; [right; replace (i + 1 - 1) with i by lia; exact He |].
      intros Hpast. split; [| discriminate].
      destruct (Nat.eq_dec (s + N) i) as [Hend | Hend].
      * exfalso. destruct HS as [H0 | Hprev]; [lia |].
        rewrite run in Hprev by lia. discriminate.
      * apply HC. lia.
  - (* a gradient at [i] *)
    destruct (gradStart g) as [st |] eqn:Hst.
    + destruct HS as (Hlt & a & b & rest & Hcols & Hreg & Hleft).
      rewrite Hcols, sameGrad_true.
      case_bool_decide as Hsame.
      * (* the region goes on *)
        injection Hsame as -> ->. cbn [negb]. rewrite Hst.
        unfold gradInv. rewrite Hst.
        split; [exact HG |].
        split.
        { split; [lia |]. exists a, b, rest. split; [exact Hcols |]. split; [| exact Hleft].
          intros k Hk. destruct (Nat.eq_dec k i) as [-> | Hne]; [exact He | apply Hreg; lia]. }
        intros Hpast.
        destruct (Nat.eq_dec (s + N) i) as [Hend | Hend].
        -- exfalso. destruct (open_region_is_run st a b) as (_ & -> & ->);
             [lia | | exact Hleft |].
           { intros k Hk. apply Hreg. lia. }
           apply run_right. rewrite Hend. exact He.
        -- apply HC. lia.
      * (* the region ends and another starts *)
        cbn [negb length Nat.leb gradStart g_chars gradColors]. unfold gradInv.
        cbn [gradStart g_chars gradColors].
        split; [rewrite <- HG; apply (interpolateRegion_frame (fun pc => gradientColors (style pc)));
                reflexivity |].
        split.
        { split; [lia |]. exists a', b', rest'. split; [reflexivity |]. split.
          - intros k Hk. replace k with i by lia. exact He.
          - right. rewrite Hreg by lia. congruence. }
        intros Hpast. split; [| intros st' [= <-]; lia].
        intros j Hj.
        replace (i - 1) with (st + (i - st) - 1) by lia.
        rewrite interpolateRegion_colors by lia.
        destruct (Nat.eq_dec (s + N) i) as [Hend | Hend].
        -- destruct (open_region_is_run st a b) as (-> & -> & ->); [lia | | exact Hleft |].
           { intros k Hk. apply Hreg. lia. }
           replace (s + (i - s)) with (s + N) by lia.
           replace (i - s) with N by lia.
           destruct (Nat.leb_spec s (s + j)); [| lia].
           destruct (Nat.ltb_spec (s + j) (s + N)); [| lia].
           cbn [andb]. replace (s + j - s) with j by lia. reflexivity.
        -- destruct HC as [Hcol Hafter]; [lia |].
           specialize (Hafter st eq_refl).
           destruct (Nat.leb_spec st (s + j)); [lia |]. cbn [andb]. apply Hcol, Hj.
    + (* a region starts *)
      rewrite Hst. cbn [length Nat.leb]. unfold gradInv. cbn [gradStart g_chars gradColors].
      split; [exact HG |].
      split.
      { split; [lia |]. exists a', b', rest'. split; [reflexivity |]. split.
        - intros k Hk. replace k with i by lia. exact He.
        - destruct HS as [H0 | Hprev]; [left; exact H0 | right; rewrite Hprev; discriminate]. }
      intros Hpast. split; [| intros st' [= <-]; lia].
      destruct (Nat.eq_dec (s + N) i) as [Hend | Hend].
      * exfalso. destruct HS as [H0 | Hprev]; [lia |].
        rewrite run in Hprev by lia. discriminate.
      * apply HC. lia.
Qed.

Lemma gradientLoop_inv (n : nat) : forall i g,
  i + n <= length chars + 1 -> gradInv chars s N c0 c1 i g ->
  gradInv chars s N c0 c1 (i + n) (gradientLoop n (length chars) i g).
Proof.
  induction n as [| n IH]; intros i g Hn Hinv; cbn [gradientLoop].
  - rewrite Nat.add_0_r. exact Hinv.
  - replace (i + S n) with (i + 1 + n) by lia.
    apply IH; [lia |]. apply gradientStep_inv; [lia | exact Hinv].
Qed.

Lemma applyGradients_run (j : nat) :
  j < N -> map colorOf (applyGradients chars) !! (s + j) = Some (runColor c0 c1 N j).
Proof.
  intros Hj. unfold applyGradients.
  destruct (gradientLoop_inv (length chars + 1) 0 (mkGradState chars None []))
    as (_ & _ & Hcol).
  - lia.
  - unfold gradInv. cbn [g_chars gradStart gradColors].
    split; [reflexivity |]. split; [left; reflexivity | lia].
  - pose proof run_in_chars. apply Hcol; [lia | exact Hj].
Qed.
End GradientRun.

Lemma maximalRun_spec (chars : list ParsedChar) (s N : nat) (c0 c1 : Z) :
  maximalRun chars s N c0 c1 = true ->
  0 < N
  /\ (forall k, s <= k < s + N -> endpointsAt chars k = Some (c0, c1))
  /\ (s = 0 \/ endpointsAt chars (s - 1) <> Some (c0, c1))
  /\ endpointsAt chars (s + N) <> Some (c0, c1).
Proof.
  unfold maximalRun. intros Hm.
  apply andb_prop in Hm as [Hm Hright]. apply andb_prop in Hm as [Hm Hleft].
  apply andb_prop in Hm as [HN Hall].
  split; [apply Nat.ltb_lt, HN |]. split; [| split].
  - intros k Hk. rewrite forallb_forall in Hall.
    specialize (Hall k ltac:(apply in_seq; lia)). apply bool_decide_eq_true in Hall. exact Hall.
  - apply orb_prop in Hleft as [H0 | Hne]; [left; apply Nat.eqb_eq, H0 | right].
    apply negb_true_iff, bool_decide_eq_false in Hne. exact Hne.
  - apply negb_true_iff, bool_decide_eq_false in Hright. exact Hright.
Qed.

(** * C4: gradient runs *)

(** C4, as stated, on the text <gradient=#1234567,#0000ff>AB</gradient>:
    both characters carry the endpoints 0x1234567 and 0x0000ff and form
    one run of length 2; the first character receives 0x234567, which is
    not the start colour 0x1234567. The records are those of
    [wideGradientChars] after the post-process. *)
Lemma gradient_start_colour_masked :
  map (fun pc => (gradientColors (style pc), colorOf pc)) (parseFresh wideGradientText)
  = [ ([0x1234567; 0x0000ff], 0x234567); ([0x1234567; 0x0000ff], 0x0000ff) ]%Z
  /\ maximalRun (parseFresh wideGradientText) 0 2 0x1234567 0x0000ff = true
  /\ parseFresh wideGradientText = applyGradients wideGradientChars
  /\ (0x234567 <? 0x1234567)%Z = true.
Proof. repeat split; vm_compute; reflexivity. Qed.

(** C4, amended. For every maximal run of [N] consecutive parsed
    characters with the endpoint colours [c0] and [c1], the post-process
    gives character [i] of the run its run colour: [c0] itself when
    [N = 1], the per-channel interpolation at [t = i / (N - 1)] when
    [N > 1]. For [1 < N <= 2^53] the first and the last character of the
    run receive the low 24 bits of [c0] and of [c1]: exactly the start and
    the end colour when these are 24-bit colours. *)
Theorem gradient_run_colours (chars : list ParsedChar) (s N : nat) (c0 c1 : Z) :
  maximalRun chars s N c0 c1 = true ->
  (forall i, i < N ->
     map colorOf (applyGradients chars) !! (s + i) = Some (runColor c0 c1 N i))
  /\ (N = 1 -> map colorOf (applyGradients chars) !! s = Some c0)
  /\ (1 < N -> (Z.of_nat N <= 2 ^ 53)%Z ->
      map colorOf (applyGradients chars) !! s = Some (Z.land c0 0xffffff)
      /\ map colorOf (applyGradients chars) !! (s + N - 1) = Some (Z.land c1 0xffffff)
      /\ ((0 <= c0 < 2 ^ 24)%Z -> map colorOf (applyGradients chars) !! s = Some c0)
      /\ ((0 <= c1 < 2 ^ 24)%Z ->
          map colorOf (applyGradients chars) !! (s + N - 1) = Some c1)).
Proof.
  intros Hrun. destruct (maximalRun_spec _ _ _ _ _ Hrun) as (HN & Hin & Hleft & Hright).
  pose proof (applyGradients_run chars s N c0 c1 HN Hin Hleft Hright) as Hcol.
  split; [exact Hcol |]. split.
  - intros ->. rewrite <- (Nat.add_0_r s). rewrite Hcol by lia. reflexivity.
  - intros H1 Hbound.
    destruct (of_nat_div_self (N - 1)) as [Hone Hzero]; [lia | lia |].
    destruct (lerpColor_ends c0 c1) as [Hstart Hend].
    assert (Hfirst : map colorOf (applyGradients chars) !! s = Some (Z.land c0 0xffffff)).
    { rewrite <- (Nat.add_0_r s). rewrite Hcol by lia. unfold runColor.
      destruct (Nat.eqb_spec N 1); [lia |]. rewrite Hzero, Hstart. reflexivity. }
    assert (Hlast : map colorOf (applyGradients chars) !! (s + N - 1)
                    = Some (Z.land c1 0xffffff)).
    { replace (s + N - 1) with (s + (N - 1)) by lia. rewrite Hcol by lia. unfold runColor.
      destruct (Nat.eqb_spec N 1); [lia |]. rewrite Hone, Hend. reflexivity. }
    split; [exact Hfirst |]. split; [exact Hlast |]. split.
    + intros Hc. rewrite Hfirst, low24_id by exact Hc. reflexivity.
    + intros Hc. rewrite Hlast, low24_id by exact Hc. reflexivity.
Qed.

Lemma gradient_run_colours_witness :
  maximalRun wideGradientChars 0 2 0x1234567 0x0000ff = true
  /\ map colorOf (applyGradients wideGradientChars) !! 0 = Some (Z.land 0x1234567 0xffffff)
  /\ map colorOf (applyGradients wideGradientChars) !! 1 = Some (Z.land 0x0000ff 0xffffff).
Proof.
  assert (Hrun : maximalRun wideGradientChars 0 2 0x1234567 0x0000ff = true) by reflexivity.
  split; [exact Hrun |].
  destruct (gradient_run_colours wideGradientChars 0 2 0x1234567 0x0000ff Hrun)
    as (_ & _ & Hends).
  destruct Hends as (Hfirst & Hlast & _); [lia | lia |].
  split; [exact Hfirst | exact Hlast].
Defined.

(** * The style state and the stacks stay in step *)

Section HandlerInvariant.
Context `{CaseOps} (P : HandlerState -> Prop) (HP : handler_invariant P).

Lemma presetOpen_keeps fuel markup b : forall j hs,
  P hs -> P (_applyStylePresetOpen fuel markup b j hs).
Proof.
  induction fuel as [| fuel IH]; intros j hs Hhs; cbn [_applyStylePresetOpen]; [exact Hhs |].
  repeat case_match; try exact Hhs; apply IH; try exact Hhs.
  apply (hinv_open P HP), Hhs.
Qed.

Lemma presetClose_keeps fuel markup : forall j hs,
  P hs -> P (_applyStylePresetClose fuel markup j hs).
Proof.
  induction fuel as [| fuel IH]; intros j hs Hhs; cbn [_applyStylePresetClose]; [exact Hhs |].
  repeat case_match; try exact Hhs; apply IH; try exact Hhs.
  apply (hinv_close P HP), Hhs.
Qed.

Lemma styleTag_keeps sheet tag b st :
  P (handlerState st) -> P (handlerState (styleTag sheet tag b st)).
Proof.
  intros Hst. unfold styleTag, handlerState in *.
  repeat (case_match; simplify_eq); cbn; try exact Hst;
    try rewrite <- surjective_pairing;
    first [ apply presetOpen_keeps | apply presetClose_keeps | idtac ];
    apply (hinv_styleName P HP), Hst.
Qed.

Ltac keep_pending Hst :=
  match goal with
  | Hp : applyPending ?pc ?s = (_, ?s') |- _ =>
    let E := fresh "E" in
    pose proof (applyPending_handlerState pc s) as E;
    rewrite Hp in E; unfold handlerState in *; cbn in *;
    inversion E; subst; try congruence;
    match goal with
    | E1 : ps_parser s' = _, E2 : ps_state s' = _ |- _ => rewrite E1, E2; exact Hst
    end
  end.

Lemma handleTag_keeps tag b st st' :
  handleTag tag b st = Some st' -> P (handlerState st) -> P (handlerState st').
Proof.
  unfold handleTag. intros Heq Hst.
  repeat (case_match; simplify_eq);
    first
      [ exact Hst
      | apply styleTag_keeps, Hst
      | keep_pending Hst
      | unfold handlerState, dispatch in *; cbn; rewrite <- surjective_pairing;
        case_match; [apply (hinv_close P HP) | apply (hinv_open P HP)]; exact Hst ].
Qed.

(** The colour shorthand [<#hex>] and its close [</#>] act as the
    handlers of the color tag do. *)
Lemma parseStep_keeps text b st :
  P (handlerState st) -> P (handlerState (parseStep text b st)).
Proof.
  intros Hst. unfold parseStep.
  repeat (case_match; simplify_eq);
    first
      [ exact Hst
      | eapply handleTag_keeps; eauto; fail
      | keep_pending Hst
      | idtac ].
  - match goal with
    | Hc : colorShorthand _ _ = Some _ |- _ =>
      unfold colorShorthand in Hc; repeat (case_match; simplify_eq)
    end.
    unfold handlerState in *. cbn.
    match goal with
    | |- P (set_colorStack (push (parseColor ?v) _) _, _) =>
      apply (hinv_open P HP T_color v b (ps_parser st, ps_state st)), Hst
    end.
  - unfold handlerState in *. cbn.
    apply (hinv_close P HP T_color (ps_parser st, ps_state st)), Hst.
Qed.

Lemma parseLoop_keeps fuel text b : forall st,
  P (handlerState st) -> P (handlerState (parseLoop fuel text b st)).
Proof.
  induction fuel as [| fuel IH]; intros st Hst; cbn [parseLoop]; [exact Hst |].
  case_match; [apply IH, parseStep_keeps, Hst | exact Hst].
Qed.
End HandlerInvariant.

Lemma inSync_invariant `{CaseOps} : handler_invariant inSync.
Proof.
  split.
  - intros t v b [p s] Hinv. unfold inSync, stackedAttributes, stackTops in *. cbn in Hinv.
    destruct t; unfold onOpen, openToggle, openFlag, openNum, openScript, openFlag, openNum;
      cbn; repeat (case_match; simplify_eq; cbn); congruence.
  - intros t [p s] Hinv. unfold inSync, stackedAttributes, stackTops in *. cbn in Hinv.
    destruct t; unfold onClose, closeToggle, closeFlag, closeNum, closeScript, closeFlag, closeNum;
      cbn; congruence.
  - intros p s st Hinv. exact Hinv.
Qed.

(** X1. At every iteration of the loop of [parse], whatever the parser
    object went through before and whatever the text, each stacked
    attribute of the style state (colour, size, spacing, alignment,
    offsets, case and script flags, scale, rotation, gradient, width) is
    the top of its stack. *)
Theorem parse_state_in_sync (C : CaseOps) (p : RichTextParser) (text : jsstring)
    (baseFontSize : number) (baseColor : Z) (n : nat) :
  inSync (handlerState (parseLoop n text baseFontSize
                          (initialParseState p baseFontSize baseColor))).
Proof.
  apply parseLoop_keeps; [apply inSync_invariant | reflexivity].
Qed.

(** On a state that is in step with the stacks and whose toggle flags
    follow their counters, the close handler of a tag undoes its open
    handler: parser object and style state are as before. This holds for
    the tags that push on open ([pushesOnOpen]): color, b, i, u, s,
    strikethrough, size, cspace, mspace, duospace, nobr, align, voffset,
    indent, line-height, line-indent, allcaps, uppercase, lowercase,
    smallcaps, sup, sub, width, and scale, rotate and gradient with a
    value the open handler accepts. *)
Theorem close_undoes_open (C : CaseOps) (t : Tag) (v : jsstring) (baseFontSize : number)
    (ps : HandlerState) :
  inSync ps -> flagsFollowCounts ps -> pushesOnOpen t v = true ->
  onClose t (onOpen t v baseFontSize ps) = ps.
Proof.
  destruct ps as [p s]. unfold inSync, stackedAttributes, stackTops, flagsFollowCounts.
  cbn [fst snd]. intros Hsync Hflags Hpush.
  destruct Hflags as ((Hb0 & Hb) & (Hi0 & Hi) & (Hu0 & Hu) & (Hs0 & Hs)).
  injection Hsync as Hsync.
  destruct t; cbn in Hpush; try discriminate Hpush;
    unfold onOpen, onClose, openToggle, closeToggle, openScript, closeScript,
      openFlag, closeFlag, openNum, closeNum;
    cbn; rewrite ?Hpush; cbn; rewrite ?pop_push;
    destruct p, s; cbn in *; subst;
    repeat match goal with
           | |- context [Z.max 0 (?c + 1 - 1)] =>
             replace (Z.max 0 (c + 1 - 1))%Z with c by lia
           end;
    reflexivity.
Qed.

Lemma close_undoes_open_witness :
  inSync (newParser, createDefaultStyleState (of_Z 32) 0xffffff%Z)
  /\ @onClose T_sup
       (@onOpen AsciiCase T_sup [] (of_Z 32)
          (newParser, createDefaultStyleState (of_Z 32) 0xffffff%Z))
     = (newParser, createDefaultStyleState (of_Z 32) 0xffffff%Z).
Proof.
  split; [reflexivity |].
  apply (close_undoes_open AsciiCase T_sup [] (of_Z 32)
           (newParser, createDefaultStyleState (of_Z 32) 0xffffff%Z)).
  - reflexivity.
  - cbn. repeat split; lia.
  - reflexivity.
Defined.

(** * C1: balanced opens and closes of a tag *)

Section TagSequences.
Context `{CaseOps}.

Lemma runTag_app t b ops1 ops2 ps :
  runTag t b (ops1 ++ ops2) ps = runTag t b ops2 (runTag t b ops1 ps).
Proof. unfold runTag. apply fold_left_app. Qed.

Lemma openValues_app {T} (ops1 ops2 : list (TagOp T)) :
  openValues (ops1 ++ ops2) = openValues ops1 ++ openValues ops2.
Proof. unfold openValues. apply flat_map_app. Qed.

(** What a close handler does to the stacks depends on the stacks only. *)
Lemma onClose_stacks t ps1 ps2 :
  allStacks (fst ps1) = allStacks (fst ps2) ->
  allStacks (fst (onClose t ps1)) = allStacks (fst (onClose t ps2)).
Proof.
  destruct ps1 as [p1 s1], ps2 as [p2 s2]. unfold allStacks. cbn [fst]. intros Heq.
  injection Heq as Heq.
  destruct t; unfold onClose, closeToggle, closeScript, closeFlag, closeNum; cbn;
    congruence.
Qed.

Lemma close_open_stacks t v b ps :
  opensPush t v = true ->
  allStacks (fst (onClose t (onOpen t v b ps))) = allStacks (fst ps).
Proof.
  destruct ps as [p s]. unfold opensPush. intros Hpush.
  destruct t; cbn in Hpush; try discriminate Hpush; rewrite ?orb_false_r in Hpush;
    unfold onOpen, onClose, openToggle, closeToggle, openScript, closeScript,
      openFlag, closeFlag, openNum, closeNum;
    cbn; rewrite ?Hpush; cbn; rewrite ?pop_push; reflexivity.
Qed.

Lemma runTag_stacks t b ops : balanced ops -> forall ps,
  Forall (fun v => opensPush t v = true) (openValues ops) ->
  allStacks (fst (runTag t b ops ps)) = allStacks (fst ps).
Proof.
  induction 1 as [| v w _ IH | w1 w2 _ IH1 _ IH2]; intros ps Hpush.
  - reflexivity.
  - change (Open v :: w ++ [Close]) with ([Open v] ++ (w ++ [Close])) in *.
    rewrite !openValues_app in Hpush. apply Forall_app in Hpush as [Hv Hw].
    apply Forall_app in Hw as [Hw _]. apply Forall_inv in Hv.
    rewrite !runTag_app. cbn [runTag fold_left].
    fold (runTag t b w (onOpen t v b ps)).
    rewrite (onClose_stacks t _ (onOpen t v b ps)) by (apply IH, Hw).
    apply close_open_stacks, Hv.
  - rewrite openValues_app in Hpush. apply Forall_app in Hpush as [H1 H2].
    rewrite runTag_app, IH2, IH1 by assumption. reflexivity.
Qed.

Lemma runTag_state t b ops : balanced ops -> forall ps,
  Forall (fun v => pushesOnOpen t v = true) (openValues ops) ->
  inSync ps -> flagsFollowCounts ps ->
  runTag t b ops ps = ps.
Proof.
  induction 1 as [| v w _ IH | w1 w2 _ IH1 _ IH2]; intros ps Hpush Hsync Hflags.
  - reflexivity.
  - change (Open v :: w ++ [Close]) with ([Open v] ++ (w ++ [Close])) in *.
    rewrite !openValues_app in Hpush. apply Forall_app in Hpush as [Hv Hw].
    apply Forall_app in Hw as [Hw _]. apply Forall_inv in Hv.
    rewrite !runTag_app. cbn [runTag fold_left].
    fold (runTag t b w (onOpen t v b ps)).
    rewrite IH.
    + apply close_undoes_open; assumption.
    + exact Hw.
    + apply (hinv_open inSync inSync_invariant), Hsync.
    + apply (inv_open flagsFollowCounts flagsFollowCounts_invariant), Hflags.
  - rewrite openValues_app in Hpush. apply Forall_app in Hpush as [H1 H2].
    rewrite runTag_app. rewrite (IH1 ps H1 Hsync Hflags). apply IH2; assumption.
Qed.

Ltac empty_popped Hd :=
  repeat match type of Hd with
         | Forall _ (length _ :: _) =>
           let E := fresh "E" in
           apply Forall_cons in Hd as [E Hd]; apply length_zero_iff_nil in E
         | Forall _ (Z.to_nat _ :: _) =>
           let E := fresh "Ec" in
           apply Forall_cons in Hd as [E Hd]
         end.

Lemma onClose_empty_stacks t ps :
  Forall (fun d => d = 0) (poppedDepths t (fst ps)) ->
  allStacks (fst (onClose t ps)) = allStacks (fst ps).
Proof.
  destruct ps as [p s]. cbn [fst]. intros Hd.
  destruct t; cbn [poppedDepths] in Hd; empty_popped Hd;
    unfold onClose, closeToggle, closeScript, closeFlag, closeNum; cbn;
    rewrite ?pop_empty by assumption; reflexivity.
Qed.

Lemma onClose_empty_state t ps :
  restoringTag t = true -> inSync ps -> flagsFollowCounts ps ->
  Forall (fun d => d = 0) (poppedDepths t (fst ps)) ->
  onClose t ps = ps.
Proof.
  destruct ps as [p s]. unfold inSync, stackedAttributes, stackTops, flagsFollowCounts.
  cbn [fst snd]. intros Ht Hsync Hflags Hd.
  destruct Hflags as ((Hb0 & Hb) & (Hi0 & Hi) & (Hu0 & Hu) & (Hs0 & Hs)).
  injection Hsync as Hsync.
  destruct t; try discriminate Ht; cbn [poppedDepths] in Hd; empty_popped Hd;
    unfold onClose, closeToggle, closeScript, closeFlag, closeNum; cbn;
    rewrite ?pop_empty by assumption;
    destruct p, s; cbn in *; subst;
    repeat match goal with
           | Ec : Z.to_nat ?c = 0, H0 : (0 <= ?c)%Z |- _ =>
             assert (c = 0%Z) by lia; clear Ec; subst c
           end;
    reflexivity.
Qed.

End TagSequences.




(** * C5: a name that is not registered but is resolved *)

(** C5. The name rmvlrn is not registered, yet hashCode gives it the
    hash of lowercase, 0x8ad1856c, and the registry is looked up by hash
    alone: in <rmvlrn>aB the tag is not pushed as literal characters but
    handled as <lowercase>, and the records are a and b. The product in
    hashCode is a product of numbers, rounded to 53 bits before [>>> 0]:
    the exact 32-bit FNV-1a hashes of the two names differ (0xbb1b2c7a and
    0x7e1a1b86). With the last letter changed (rmvlrm) the tag is pushed
    literally, as that of any other unknown name. *)
Theorem colliding_name_is_resolved :
  isRegisteredName (js "rmvlrn") = false
  /\ hashCode (js "rmvlrn") = 0x8ad1856c%Z
  /\ hashCode (js "lowercase") = 0x8ad1856c%Z
  /\ fnv1a32 (js "rmvlrn") = 0xbb1b2c7a%Z
  /\ fnv1a32 (js "lowercase") = 0x7e1a1b86%Z
  /\ @getByName AsciiCase (js "rmvlrn") (_registry newParser) = Some T_lowercase
  /\ map char (parseFresh collidingTagText) = [js "a"; js "b"]
  /\ concat (map char (parseFresh "<rmvlrm>aB")) = js "<rmvlrm>aB".
Proof. repeat split; vm_compute; reflexivity. Qed.

(** * The records of a parse point back into the text *)

Section Indices.
Context `{CaseOps}.

Lemma applyPending_originalIndex pc st :
  originalIndex (fst (applyPending pc st)) = originalIndex pc
  /\ ps_result (snd (applyPending pc st)) = ps_result st
  /\ ps_i (snd (applyPending pc st)) = ps_i st.
Proof. unfold applyPending. repeat (case_match; simplify_eq); cbn; auto. Qed.

Lemma caseTransform_originalIndex s pc :
  originalIndex (caseTransform s pc) = originalIndex pc.
Proof. unfold caseTransform. repeat case_match; reflexivity. Qed.

Ltac pending_index :=
  match goal with
  | Hp : applyPending ?pc ?s = (?pc', ?s') |- _ =>
    let E := fresh "E" in
    pose proof (applyPending_originalIndex pc s) as E; rewrite Hp in E; cbn in E;
    destruct E as (E1 & E2 & E3)
  end.

(** An iteration pushes no record or one, with the index the iteration
    starts at. *)
Lemma handleTag_pushes tag b st st' :
  handleTag tag b st = Some st' ->
  exists new, ps_result st' = ps_result st ++ new
    /\ length new <= 1
    /\ Forall (fun pc => originalIndex pc = ps_i st) new.
Proof.
  unfold handleTag. intros Heq.
  repeat (case_match; simplify_eq);
    try (exists []; rewrite app_nil_r; repeat split; [cbn; lia | constructor]; fail);
    try (eexists [_]; repeat split; [cbn; lia | repeat constructor]; fail).
  - pending_index. eexists [_]. cbn. rewrite E2. repeat split; [lia |].
    repeat constructor. exact E1.
  - exists []. rewrite app_nil_r. repeat split; [apply styleTag_result | cbn; lia | constructor].
Qed.

Lemma parseStep_pushes text b st :
  exists new, ps_result (parseStep text b st) = ps_result st ++ new
    /\ length new <= 1
    /\ Forall (fun pc => originalIndex pc = ps_i st) new.
Proof.
  unfold parseStep.
  repeat (case_match; simplify_eq);
    try (exists []; rewrite app_nil_r; repeat split; [cbn; lia | constructor]; fail);
    try (eexists [_]; repeat split; [cbn; lia | repeat constructor]; fail).
  - eapply handleTag_pushes; eauto.
  - pending_index. eexists [_]. cbn. rewrite E2. repeat split; [lia |].
    repeat constructor. rewrite caseTransform_originalIndex. exact E1.
Qed.

Lemma increasing_snoc (l : list nat) (x : nat) :
  increasing l -> Forall (fun y => y < x) l -> increasing (l ++ [x]).
Proof.
  intros Hinc Hall i j a b Hij Ha Hb.
  destruct (Nat.lt_ge_cases j (length l)) as [Hj | Hj].
  - rewrite lookup_app_l in Ha by lia. rewrite lookup_app_l in Hb by lia.
    exact (Hinc i j a b Hij Ha Hb).
  - rewrite lookup_app_r in Hb by lia.
    destruct (j - length l) as [| k] eqn:Hk; [| destruct k; discriminate].
    injection Hb as <-. rewrite lookup_app_l in Ha by lia.
    rewrite Forall_forall in Hall. apply Hall. eapply list_elem_of_lookup_2, Ha.
Qed.

Lemma increasing_lookup_ge (l : list nat) :
  increasing l -> forall i a, l !! i = Some a -> i <= a.
Proof.
  intros Hinc i. induction i as [| i IH]; intros a Ha; [lia |].
  destruct (l !! i) as [b |] eqn:Hb.
  - specialize (IH b eq_refl). pose proof (Hinc i (S i) b a ltac:(lia) Hb Ha). lia.
  - apply lookup_ge_None in Hb. apply lookup_lt_Some in Ha. lia.
Qed.

Lemma increasing_length (l : list nat) (n : nat) :
  increasing l -> Forall (fun x => x < n) l -> length l <= n.
Proof.
  intros Hinc Hall. destruct (Nat.le_gt_cases (length l) n) as [Hle | Hgt]; [exact Hle |].
  destruct (lookup_lt_is_Some_2 l n Hgt) as [a Ha].
  pose proof (increasing_lookup_ge l Hinc n a Ha).
  rewrite Forall_forall in Hall. specialize (Hall a (list_elem_of_lookup_2 _ _ _ Ha)). lia.
Qed.

(** The loop keeps the indices of its records increasing and below the
    index it has reached, which stays within the text while it runs. *)
Lemma parseLoop_indices fuel text b : forall st,
  increasing (map originalIndex (ps_result st)) ->
  Forall (fun pc => originalIndex pc < ps_i st /\ originalIndex pc < length text)
    (ps_result st) ->
  let st' := parseLoop fuel text b st in
  increasing (map originalIndex (ps_result st'))
  /\ Forall (fun pc => originalIndex pc < length text) (ps_result st').
Proof.
  induction fuel as [| fuel IH]; intros st Hsorted Hbelow; cbn [parseLoop].
  - split; [exact Hsorted |]. eapply Forall_impl; [exact Hbelow |]. cbn. tauto.
  - destruct (Nat.ltb_spec (ps_i st) (length text)) as [Hlt | Hge].
    + destruct (parseStep_pushes text b st) as (new & Hres & Hlen & Hnew).
      pose proof (parseStep_progress text b st) as Hprog.
      apply IH; rewrite Hres.
      * rewrite map_app. destruct new as [| pc [| pc' rest]]; cbn in Hlen; try lia.
        { rewrite app_nil_r. exact Hsorted. }
        inversion Hnew as [| ? ? Hpc _]; subst.
        apply increasing_snoc; [exact Hsorted |].
        apply Forall_map. eapply Forall_impl; [exact Hbelow |].
        cbn. intros pc0 [H1 _]. rewrite Hpc. exact H1.
      * apply Forall_app. split.
        -- eapply Forall_impl; [exact Hbelow |]. cbn. intros pc0 [H1 H2]. split; [lia | exact H2].
        -- eapply Forall_impl; [exact Hnew |]. cbn. intros pc0 ->. split; [exact Hprog | exact Hlt].
    + split; [exact Hsorted |]. eapply Forall_impl; [exact Hbelow |]. cbn. tauto.
Qed.
End Indices.

(** X2. The records [parse] returns have strictly increasing originalIndex
    fields, each an index into the text: every record stems from its own
    position of the source, so there are at most as many records as code
    units of text. *)
Theorem parse_indices_increasing (C : CaseOps) (p : RichTextParser) (text : jsstring)
    (baseFontSize : number) (baseColor : Z) (baseFontFamily : jsstring) :
  let out := fst (parse p text baseFontSize baseColor baseFontFamily) in
  increasing (map originalIndex out)
  /\ Forall (fun pc => originalIndex pc < length text) out
  /\ length out <= length text.
Proof.
  intros out. subst out. unfold parse. cbn [fst].
  destruct (parseLoop_indices (length text) text baseFontSize
              (mkParseState 0 [] (createDefaultStyleState baseFontSize baseColor) false
                 fzero NaN (resetStacks baseFontSize baseColor p)))
    as [Hsorted Hbelow]; [intros i j a b _ Ha; discriminate Ha | constructor |].
  set (res := ps_result _) in *.
  assert (Hidx : map originalIndex (applyGradients res) = map originalIndex res)
    by (apply applyGradients_frame; reflexivity).
  assert (Hall : Forall (fun x => x < length text) (map originalIndex res))
    by (apply Forall_map; exact Hbelow).
  rewrite Hidx. split; [exact Hsorted |]. split.
  - rewrite <- Hidx in Hall. apply Forall_map in Hall. exact Hall.
  - rewrite applyGradients_length, <- (length_map originalIndex res).
    apply increasing_length; assumption.
Qed.

(** * What _tryParseTag accepts *)

Lemma indexOf_spec (c : Z) (s : jsstring) (k : nat) :
  indexOf c s = Some k ->
  s !! k = Some c /\ forall j, j < k -> s !! j <> Some c.
Proof.
  revert k. induction s as [| d r IH]; intros k Hk; cbn in Hk; [discriminate |].
  destruct (Z.eqb_spec d c) as [-> | Hne].
  - injection Hk as <-. split; [reflexivity | lia].
  - destruct (indexOf c r) as [k' |]; [| discriminate]. injection Hk as <-.
    destruct (IH k' eq_refl) as [Hat Hbefore]. split; [exact Hat |].
    intros [| j] Hj; cbn; [congruence | apply Hbefore; lia].
Qed.

Lemma indexOf_None (c : Z) (s : jsstring) : indexOf c s = None -> c ∉ s.
Proof.
  induction s as [| d r IH]; cbn; intros Hn; [apply not_elem_of_nil |].
  destruct (Z.eqb_spec d c) as [-> | Hne]; [discriminate |].
  destruct (indexOf c r); [discriminate |].
  apply not_elem_of_cons. split; [congruence | apply IH; reflexivity].
Qed.

Lemma indexOfFrom_spec (c : Z) (from : nat) (s : jsstring) (k : nat) :
  indexOfFrom c from s = Some k ->
  from <= k /\ s !! k = Some c /\ forall j, from <= j < k -> s !! j <> Some c.
Proof.
  unfold indexOfFrom. destruct (indexOf c (drop from s)) as [k' |] eqn:Hk'; [| discriminate].
  intros [= <-]. destruct (indexOf_spec _ _ _ Hk') as [Hat Hbefore].
  rewrite lookup_drop in Hat. split; [lia |]. split; [exact Hat |].
  intros j Hj. specialize (Hbefore (j - from) ltac:(lia)).
  rewrite lookup_drop in Hbefore. replace (from + (j - from)) with j in Hbefore by lia.
  exact Hbefore.
Qed.

Lemma trimStart_length (s : jsstring) : length (trimStart s) <= length s.
Proof.
  induction s as [| c r IH]; cbn; [lia |]. destruct (isWhiteSpace c); cbn; lia.
Qed.

Lemma trim_length (s : jsstring) : length (trim s) <= length s.
Proof.
  unfold trim, trimEnd. rewrite length_rev.
  pose proof (trimStart_length (rev (trimStart s))) as H1. rewrite length_rev in H1.
  pose proof (trimStart_length s). lia.
Qed.

(** X3. A tag that _tryParseTag reads at [pos] starts with the '<' at [pos]
    and ends with the first '>' after it; it is 3 to 128 code units long;
    its name is not empty and its hash is that of the lower-cased name. *)
Theorem tryParseTag_shape (C : CaseOps) (text : jsstring) (pos : nat) (tag : TagParseResult) :
  _tryParseTag text pos = Some tag ->
  text !! pos = Some LT
  /\ 3 <= tagLength tag <= 128
  /\ text !! (pos + tagLength tag - 1) = Some GT
  /\ (forall k, pos < k < pos + tagLength tag - 1 -> text !! k <> Some GT)
  /\ tagName tag <> []
  /\ tagNameHash tag = hashCode (toLowerCase (tagName tag)).
Proof.
  unfold _tryParseTag. intros Htag.
  case_bool_decide as Hlt; cbn [negb] in Htag; [| discriminate].
  destruct (indexOfFrom GT (pos + 1) text) as [closeIdx |] eqn:Hclose; [| discriminate].
  destruct (indexOfFrom_spec _ _ _ _ Hclose) as (Hge & Hat & Hbefore).
  destruct (Nat.ltb_spec 128 (closeIdx - pos + 1)) as [Hlong | Hshort]; [discriminate |].
  destruct (Nat.eqb_spec (length (trim (substring (pos + 1) closeIdx text))) 0)
    as [Hempty | Hinner]; [discriminate |].
  assert (Hlen : pos + 2 <= closeIdx).
  { pose proof (trim_length (substring (pos + 1) closeIdx text)) as Htl.
    assert (length (substring (pos + 1) closeIdx text) <= closeIdx - (pos + 1))
      by (unfold substring; rewrite length_take; lia).
    lia. }
  repeat (case_match; simplify_eq); cbn [tagLength tagName tagNameHash];
    (split; [exact Hlt |]); (split; [lia |]);
    (split; [replace (pos + (closeIdx - pos + 1) - 1) with closeIdx by lia; exact Hat |]);
    (split; [intros k Hk; apply Hbefore; lia |]);
    (split; [| reflexivity]);
    intros Hnil;
    match goal with
    | Hn : (length ?x =? 0) = false |- _ =>
      apply Nat.eqb_neq in Hn; rewrite Hnil in Hn; cbn in Hn; lia
    end.
Qed.

Lemma tryParseTag_shape_witness :
  exists tag, @_tryParseTag AsciiCase (js "a<size=24>b") 1 = Some tag
    /\ js "a<size=24>b" !! (1 + tagLength tag - 1) = Some GT.
Proof.
  eexists. split; [reflexivity |].
  exact (proj1 (proj2 (proj2
           (tryParseTag_shape AsciiCase (js "a<size=24>b") 1 _ eq_refl)))).
Defined.

(** * utils: parseUnit and hashCode; the registry of the built-in tags *)

(** X4. parseUnit never yields NaN for a value without unit suffix: what
    parseFloat cannot read counts as 0 there. With a suffix (percent, em,
    px) there is no such default: a value whose number part parseFloat
    cannot read yields NaN, whatever the base font size. *)
Theorem parseUnit_nan (value : jsstring) (baseFontSize : number) :
  (endsWith (trim value) (js "%") || endsWith (trim value) (js "em")
   || endsWith (trim value) (js "px") = false ->
   isNaN (parseUnit value baseFontSize) = false)
  /\ (endsWith (trim value) (js "%") || endsWith (trim value) (js "em")
      || endsWith (trim value) (js "px") = true ->
      isNaN (parseFloat (trim value)) = true ->
      isNaN (parseUnit value baseFontSize) = true).
Proof.
  unfold parseUnit. split.
  - intros Hsuffix. apply orb_false_iff in Hsuffix as [Hsuffix Hpx].
    apply orb_false_iff in Hsuffix as [Hpct Hem]. rewrite Hpct, Hem, Hpx.
    unfold f_or. destruct (parseFloat (trim value)); reflexivity.
  - intros Hsuffix Hnan. destruct (parseFloat (trim value)); try discriminate.
    destruct (endsWith (trim value) (js "%")); [destruct baseFontSize; reflexivity |].
    destruct (endsWith (trim value) (js "em")); [destruct baseFontSize; reflexivity |].
    destruct (endsWith (trim value) (js "px")); [reflexivity | discriminate].
Qed.

Lemma hashStep_range (hash c : Z) : (0 <= hashStep hash c < 2 ^ 32)%Z.
Proof. unfold hashStep, wrap_uint32. apply Z.mod_pos_bound. lia. Qed.

(** X5. hashCode is an unsigned 32-bit integer for every string, and the
    hash of a string extended by one code unit is one step from the hash
    of the string. *)
Theorem hashCode_range (str : jsstring) :
  (0 <= hashCode str < 2 ^ 32)%Z
  /\ forall c, hashCode (str ++ [c]) = hashStep (hashCode str) c.
Proof.
  split.
  - unfold hashCode. destruct str as [| c r] using rev_ind; [cbn; lia |].
    rewrite fold_left_app. apply hashStep_range.
  - intros c. unfold hashCode. rewrite fold_left_app. reflexivity.
Qed.

Lemma in_registrationOrder (t : Tag) : In t registrationOrder.
Proof. destruct t; unfold registrationOrder; repeat (first [left; reflexivity | right]). Qed.

(** X6. In the registry a new parser builds, no two of the 50 built-in tag
    names share a hash: looking a built-in name up, in lower or in upper
    case, gives the entry registered under that name. *)
Theorem builtin_tags_resolve (t : Tag) :
  @getByName AsciiCase (tagName_of t) (_registry newParser) = Some t
  /\ @getByName AsciiCase (@toUpperCase AsciiCase (tagName_of t)) (_registry newParser)
     = Some t
  /\ @registry_has AsciiCase (tagName_of t) (_registry newParser) = true
  /\ size (_registry newParser) = 50.
Proof.
  assert (Hall : map (fun t => (@getByName AsciiCase (tagName_of t) (_registry newParser),
                                @getByName AsciiCase (@toUpperCase AsciiCase (tagName_of t))
                                  (_registry newParser)))
                   registrationOrder
                 = map (fun t => (Some t, Some t)) registrationOrder)
    by (vm_compute; reflexivity).
  pose proof (proj1 map_ext_in_iff Hall t (in_registrationOrder t)) as Ht.
  pose proof (f_equal fst Ht) as Hlower. pose proof (f_equal snd Ht) as Hupper.
  change (@getByName AsciiCase (tagName_of t) (_registry newParser) = Some t) in Hlower.
  change (@getByName AsciiCase (@toUpperCase AsciiCase (tagName_of t)) (_registry newParser)
          = Some t) in Hupper.
  clear Ht Hall.
  split; [exact Hlower |]. split; [exact Hupper |]. split.
  - unfold registry_has. unfold getByName in Hlower. rewrite Hlower.
    apply bool_decide_eq_true. eexists. reflexivity.
  - vm_compute. reflexivity.
Qed.

